(** * Screen-Activity-Recorder: a shallow embedding of the capture core

    The development follows the Python sources:
    - [utils/utils.py]: [extract_sensitive_sequences] (the sensitive-span
      merger), [extract_common_pii_sequences] (the regex scanner) and
      [blur_regions_with_bboxs] (the region redactor);
    - [services/index_manager.py]: [FaissIndexManager];
    - [services/activity_recording.py]: the two recorders;
    - [core/activity_manager.py]: [ActivityManager].

    Python objects that are mutated in place are modelled by explicit state
    passing; exceptions by a sum type whose left injection carries the
    exception that was raised. *)

From Stdlib Require Import ZArith Lia Bool Ascii String List.
From stdpp Require Import base option list strings gmap.
Import ListNotations.

Local Open Scope string_scope.

(** ** Python strings *)

Module PyStr.

(** [prefix_strip p s] is [Some rest] when [s = p ++ rest]. *)
Fixpoint prefix_strip (p s : string) : option string :=
  match p with
  | EmptyString => Some s
  | String a p' =>
      match s with
      | EmptyString => None
      | String b s' => if Ascii.eqb a b then prefix_strip p' s' else None
      end
  end.

(** [contains sub s] is Python's [sub in s]. *)
Fixpoint contains (sub s : string) : bool :=
  match prefix_strip sub s with
  | Some _ => true
  | None =>
      match s with
      | EmptyString => false
      | String _ s' => contains sub s'
      end
  end.

(** [s.split(sep, 1)] for a one-character separator that occurs in [s]:
    the text before the first occurrence and the text after it.  [None]
    when the separator does not occur. *)
Fixpoint split_once (sep : ascii) (s : string) : option (string * string) :=
  match s with
  | EmptyString => None
  | String c s' =>
      if Ascii.eqb c sep then Some (EmptyString, s')
      else match split_once sep s' with
           | Some (l, r) => Some (String c l, r)
           | None => None
           end
  end.

(** [s.replace(old, new)] for a non-empty [old]: every non-overlapping
    occurrence, scanning from the left, is replaced.  Each step consumes at
    least one character, so [String.length s] steps always suffice. *)
Fixpoint replace_steps (n : nat) (old new s : string) : string :=
  match n with
  | O => s
  | S n' =>
      match prefix_strip old s with
      | Some rest => new ++ replace_steps n' old new rest
      | None =>
          match s with
          | EmptyString => EmptyString
          | String c s' => String c (replace_steps n' old new s')
          end
      end
  end.

Definition replace (old new s : string) : string :=
  replace_steps (String.length s) old new s.

(** ["".join(parts)] *)
Definition join_empty (parts : list string) : string :=
  fold_right String.append EmptyString parts.

(** ASCII lower-casing, character by character ([str.lower] on ASCII
    text). *)
Definition lower_ascii (c : ascii) : ascii :=
  let n := nat_of_ascii c in
  if (65 <=? n)%nat && (n <=? 90)%nat then ascii_of_nat (n + 32) else c.

Fixpoint lower (s : string) : string :=
  match s with
  | EmptyString => EmptyString
  | String c s' => String (lower_ascii c) (lower s')
  end.

End PyStr.

(** ** The sensitive-span merger ([utils.extract_sensitive_sequences]) *)

Module Merger.

(** [schemas/ner_schemas.py]: [NEREntity].  The confidence score is a float
    that the merger never reads; it is kept as an opaque integer (the score
    in thousandths). *)
Record NEREntity := {
  entity_text : string;
  entity_label : string;
  confidence_score : Z
}.

(** The loop state: [sequences], [current_sequence], [current_label_type]. *)
Record mstate := {
  sequences : list string;
  current_sequence : list string;
  current_label_type : option string
}.

Definition init : mstate :=
  {| sequences := []; current_sequence := []; current_label_type := None |}.

(** The recurring block
    [if current_sequence: sequences.append("".join(current_sequence));
     current_sequence = []; current_label_type = None]. *)
Definition close_and_clear (st : mstate) : mstate :=
  match current_sequence st with
  | [] => st
  | _ :: _ =>
      {| sequences := sequences st ++ [PyStr.join_empty (current_sequence st)];
         current_sequence := [];
         current_label_type := None |}
  end.

(** [if current_sequence: sequences.append(...)] followed by
    [current_sequence = [clean_text]; current_label_type = label_type]. *)
Definition start_new (st : mstate) (clean_text label_type : string) : mstate :=
  {| sequences :=
       match current_sequence st with
       | [] => sequences st
       | _ :: _ => sequences st ++ [PyStr.join_empty (current_sequence st)]
       end;
     current_sequence := [clean_text];
     current_label_type := Some label_type |}.

Definition nonempty {A} (l : list A) : bool :=
  match l with [] => false | _ :: _ => true end.

(** One iteration of the [for entity in ner_entities.to_list()] loop. *)
Definition step (non_sensitive_labels : gmap string Z)
    (st : mstate) (entity : NEREntity) : mstate :=
  let label := entity_label entity in
  if bool_decide (is_Some (non_sensitive_labels !! label)) then
    close_and_clear st
  else
    match PyStr.split_once "-" label with
    | None => close_and_clear st
    | Some (prefix, label_type) =>
        let clean_text := PyStr.replace "##" "" (entity_text entity) in
        if String.eqb prefix "B" then start_new st clean_text label_type
        else if String.eqb prefix "I" then
          if bool_decide (current_label_type st = Some label_type)
             && nonempty (current_sequence st)
          then {| sequences := sequences st;
                  current_sequence := current_sequence st ++ [clean_text];
                  current_label_type := current_label_type st |}
          else start_new st clean_text label_type
        else st
    end.

(** The tail flush and the returned list. *)
Definition flush (st : mstate) : list string :=
  match current_sequence st with
  | [] => sequences st
  | _ :: _ => sequences st ++ [PyStr.join_empty (current_sequence st)]
  end.

Definition run (non_sensitive_labels : gmap string Z)
    (st : mstate) (entities : list NEREntity) : mstate :=
  fold_left (step non_sensitive_labels) entities st.

Definition extract_sensitive_sequences
    (ner_entities : list NEREntity) (non_sensitive_labels : gmap string Z)
    : list string :=
  flush (run non_sensitive_labels init ner_entities).

Definition tok (t l : string) : NEREntity :=
  {| entity_text := t; entity_label := l; confidence_score := 1000 |}.

(** [TokenizerConfig.non_senstive_label2id] *)
Definition non_senstive_label2id : gmap string Z := {[ "O" := 110%Z ]}.

End Merger.

(** ** A backtracking matcher for the patterns of the PII scanner

    Python's [re] module is an external library.  The scanner relies on its
    leftmost, backtracking, greedy-by-default semantics, on [re.sub] and on
    [re.findall]; the model below implements exactly the constructs that occur
    in the eight patterns of [extract_common_pii_sequences].  The text is
    ASCII: [\s], [\d], [\w] and [\b] are given their meaning on code points
    below 128. *)

Module Regex.

Inductive regex :=
| Chr (p : ascii -> bool)                 (* one character of a class *)
| Eps
| Seq (r1 r2 : regex)
| Alt (r1 r2 : regex)
| Rep (greedy : bool) (lo : nat) (hi : option nat) (r : regex)
| WordB                                   (* \b *)
| Group (n : nat) (r : regex).            (* capturing group number n *)

Definition code (c : ascii) : nat := nat_of_ascii c.
Definition between (lo hi : nat) (c : ascii) : bool :=
  (lo <=? code c)%nat && (code c <=? hi)%nat.

Definition is_digit (c : ascii) : bool := between 48 57 c.
Definition is_upper (c : ascii) : bool := between 65 90 c.
Definition is_lower (c : ascii) : bool := between 97 122 c.
Definition is_alpha (c : ascii) : bool := is_upper c || is_lower c.
Definition is_word (c : ascii) : bool :=
  is_alpha c || is_digit c || Ascii.eqb c "_".
(** [\s] on ASCII: TAB..CR, FS..US and the space. *)
Definition is_space (c : ascii) : bool := between 9 13 c || between 28 32 c.
Definition one_of (s : string) (c : ascii) : bool :=
  existsb (Ascii.eqb c) (list_ascii_of_string s).

(** Matcher state: the offset into the text, the character just before
    that offset, the text from the offset on, and the captured groups as
    (number, (start, end)) with the latest binding first. *)
Record mstate := {
  pos : nat;
  prev : option ascii;
  rest : list ascii;
  caps : list (nat * (nat * nat))
}.

Definition cont := mstate -> option mstate.

Definition at_boundary (st : mstate) : bool :=
  let before := match prev st with Some c => is_word c | None => false end in
  let after := match rest st with c :: _ => is_word c | [] => false end in
  xorb before after.

(** [rep_loop] runs a repetition whose body is the matcher [body].
    [budget] bounds the number of further iterations: the upper bound when
    there is one, otherwise the number of characters left (every repeated
    body in the scanner's patterns consumes at least one character). *)
Fixpoint rep_loop (body : mstate -> cont -> option mstate) (greedy : bool)
    (budget lo : nat) (st : mstate) (k : cont) : option mstate :=
  match budget with
  | O => if (lo =? 0)%nat then k st else None
  | S b =>
      let more := body st (fun st' => rep_loop body greedy b (Nat.pred lo) st' k) in
      if (0 <? lo)%nat then more
      else if greedy then
        match more with Some r => Some r | None => k st end
      else
        match k st with Some r => Some r | None => more end
  end.

Fixpoint run (r : regex) (st : mstate) (k : cont) : option mstate :=
  match r with
  | Chr p =>
      match rest st with
      | c :: tl =>
          if p c then
            k {| pos := S (pos st); prev := Some c; rest := tl; caps := caps st |}
          else None
      | [] => None
      end
  | Eps => k st
  | Seq r1 r2 => run r1 st (fun st' => run r2 st' k)
  | Alt r1 r2 =>
      match run r1 st k with
      | Some res => Some res
      | None => run r2 st k
      end
  | Rep greedy lo hi r' =>
      let budget :=
        match hi with
        | Some h => h
        | None => (lo + List.length (rest st))%nat
        end in
      rep_loop (run r') greedy budget lo st k
  | WordB => if at_boundary st then k st else None
  | Group n r' =>
      run r' st (fun st' =>
        k {| pos := pos st'; prev := prev st'; rest := rest st';
             caps := (n, (pos st, pos st')) :: caps st' |})
  end.

(** A match attempt anchored at the state's offset ([pattern.match] at a
    given position); groups start unset. *)
Definition match_here (r : regex) (st : mstate) : option mstate :=
  run r {| pos := pos st; prev := prev st; rest := rest st; caps := [] |} Some.

Definition advance (st : mstate) : option mstate :=
  match rest st with
  | c :: tl => Some {| pos := S (pos st); prev := Some c; rest := tl; caps := [] |}
  | [] => None
  end.

(** All non-overlapping matches, leftmost first, as (start, final state).
    After a non-empty match the scan resumes at its end; after a failed
    attempt (or an empty match) it moves one character on. *)
Fixpoint scan (fuel : nat) (r : regex) (st : mstate) : list (nat * mstate) :=
  match fuel with
  | O => []
  | S f =>
      match match_here r st with
      | Some fin =>
          if (pos st <? pos fin)%nat then (pos st, fin) :: scan f r fin
          else (pos st, fin) ::
               match advance st with Some st' => scan f r st' | None => [] end
      | None =>
          match advance st with Some st' => scan f r st' | None => [] end
      end
  end.

Definition start (text : list ascii) : mstate :=
  {| pos := 0; prev := None; rest := text; caps := [] |}.

Definition matches (r : regex) (text : list ascii) : list (nat * mstate) :=
  scan (S (List.length text)) r (start text).

Definition slice (text : list ascii) (i j : nat) : list ascii :=
  firstn (j - i) (skipn i text).

Fixpoint lookup_group (n : nat) (cs : list (nat * (nat * nat))) : option (nat * nat) :=
  match cs with
  | [] => None
  | (m, span) :: tl => if (m =? n)%nat then Some span else lookup_group n tl
  end.

Definition group_text (text : list ascii) (n : nat) (fin : mstate) : list ascii :=
  match lookup_group n (caps fin) with
  | Some (i, j) => slice text i j
  | None => []
  end.

Fixpoint ngroups (r : regex) : nat :=
  match r with
  | Chr _ | Eps | WordB => 0
  | Seq r1 r2 | Alt r1 r2 => ngroups r1 + ngroups r2
  | Rep _ _ _ r' => ngroups r'
  | Group _ r' => S (ngroups r')
  end.

(** [re.findall] followed by the scanner's [f[0] if isinstance(f, tuple)
    else f]: the whole match when the pattern has no group, the first
    group otherwise. *)
Definition findall (r : regex) (text : string) : list string :=
  let t := list_ascii_of_string text in
  map (fun m : nat * mstate =>
         string_of_list_ascii
           (if (ngroups r =? 0)%nat then slice t (fst m) (pos (snd m))
            else group_text t 1 (snd m)))
      (matches r t).

(** Replacement templates: literal text and group references. *)
Inductive titem := TLit (s : string) | TGroup (n : nat).

Definition expand (text : list ascii) (tpl : list titem) (fin : mstate) : list ascii :=
  flat_map (fun it => match it with
                      | TLit s => list_ascii_of_string s
                      | TGroup n => group_text text n fin
                      end) tpl.

(** [re.sub]: the text between matches is copied, each match is replaced
    by the expanded template. *)
Fixpoint splice (text : list ascii) (tpl : list titem) (from : nat)
    (ms : list (nat * mstate)) : list ascii :=
  match ms with
  | [] => skipn from text
  | (i, fin) :: tl =>
      slice text from i ++ expand text tpl fin ++ splice text tpl (pos fin) tl
  end.

Definition sub (r : regex) (tpl : list titem) (text : string) : string :=
  let t := list_ascii_of_string text in
  string_of_list_ascii (splice t tpl 0 (matches r t)).

(** Pattern-building shorthands. *)
Definition lit (c : ascii) : regex := Chr (Ascii.eqb c).
Definition lit_nocase (c : ascii) : regex :=
  Chr (fun d => Ascii.eqb (PyStr.lower_ascii d) (PyStr.lower_ascii c)).
Definition word_nocase (s : string) : regex :=
  fold_right (fun c r => Seq (lit_nocase c) r) Eps (list_ascii_of_string s).
Definition plus (r : regex) : regex := Rep true 1 None r.
Definition star (r : regex) : regex := Rep true 0 None r.
Definition opt (r : regex) : regex := Rep true 0 (Some 1) r.
Definition times (lo hi : nat) (r : regex) : regex := Rep true lo (Some hi) r.
Definition at_least (lo : nat) (r : regex) : regex := Rep true lo None r.
Fixpoint seqs (rs : list regex) : regex :=
  match rs with
  | [] => Eps
  | [r] => r
  | r :: tl => Seq r (seqs tl)
  end.

End Regex.

(** ** The heuristic PII scanner ([utils.extract_common_pii_sequences]) *)

Module Scanner.
Import Regex.

(** [\s+@\s+] *)
Definition pat_spaces_at : regex :=
  seqs [plus (Chr is_space); lit "@"; plus (Chr is_space)].

(** [@\s+([a-zA-Z]+)\s+([a-zA-Z]+)] *)
Definition pat_domain : regex :=
  seqs [lit "@"; plus (Chr is_space); Group 1 (plus (Chr is_alpha));
        plus (Chr is_space); Group 2 (plus (Chr is_alpha))].

(** The replacement [@\1.\2] *)
Definition tpl_domain : list titem := [TLit "@"; TGroup 1; TLit "."; TGroup 2].

(** [\b[A-Za-z0-9._%+-]+@[A-Za-z0-9.-]+\.[A-Za-z]{2,}\b] *)
Definition pat_email : regex :=
  seqs [WordB;
        plus (Chr (fun c => is_alpha c || is_digit c || one_of "._%+-" c));
        lit "@";
        plus (Chr (fun c => is_alpha c || is_digit c || one_of ".-" c));
        lit ".";
        at_least 2 (Chr is_alpha);
        WordB].

Definition sep : regex := opt (Chr (fun c => one_of "-." c || is_space c)).

(** [\b(?:\+?\d{1,3}[-.\s]?)?(?:\(?\d{2,4}\)?[-.\s]?)?\d{3,4}[-.\s]?\d{3,4}\b] *)
Definition pat_phone : regex :=
  seqs [WordB;
        opt (seqs [opt (lit "+"); times 1 3 (Chr is_digit); sep]);
        opt (seqs [opt (lit "("); times 2 4 (Chr is_digit); opt (lit ")"); sep]);
        times 3 4 (Chr is_digit);
        sep;
        times 3 4 (Chr is_digit);
        WordB].

(** [\b(?:\d[ -]*?){13,16}\b] *)
Definition pat_card : regex :=
  seqs [WordB;
        times 13 16 (Seq (Chr is_digit) (Rep false 0 None (Chr (one_of " -"))));
        WordB].

(** [\b\d{3,4}\b] *)
Definition pat_cvv : regex := seqs [WordB; times 3 4 (Chr is_digit); WordB].

(** [\b\d{3}-\d{2}-\d{4}\b] *)
Definition pat_ssn : regex :=
  seqs [WordB; times 3 3 (Chr is_digit); lit "-"; times 2 2 (Chr is_digit);
        lit "-"; times 4 4 (Chr is_digit); WordB].

(** [(?i)\b(password|pwd)\s*[:=]\s*[^\s]{4,}\b] *)
Definition pat_password : regex :=
  seqs [WordB;
        Group 1 (Alt (word_nocase "password") (word_nocase "pwd"));
        star (Chr is_space);
        Chr (one_of ":=");
        star (Chr is_space);
        at_least 4 (Chr (fun c => negb (is_space c)));
        WordB].

Definition patterns : list regex :=
  [pat_email; pat_phone; pat_card; pat_cvv; pat_ssn; pat_password].

(** The two [re.sub] calls of the pre-clean step. *)
Definition normalize (text : string) : string :=
  sub pat_domain tpl_domain (sub pat_spaces_at [TLit "@"] text).

Definition extract_common_pii_sequences (text : string) : list string :=
  let text := normalize text in
  flat_map (fun pattern => findall pattern text) patterns.

End Scanner.

(** ** Exceptions and stateful operations

    A method that mutates its object and may raise is a function from the
    state before to an outcome and the state after: the state that an
    exception leaves behind is part of the result. *)

Inductive exn :=
| TypeError (msg : string)
| ValueError (msg : string)
| KeyError (key : string)
| IndexError
| AssertionError
| FileNotFoundError (path : string)
| OSError (path : string)
| UnpicklingError (path : string)
| ValidationError.

Definition M (S A : Type) : Type := S -> (exn + A) * S.

Definition ret {S A} (a : A) : M S A := fun s => (inr a, s).
Definition raise {S A} (e : exn) : M S A := fun s => (inl e, s).
Definition bind {S A B} (m : M S A) (f : A -> M S B) : M S B :=
  fun s => match m s with
           | (inr a, s') => f a s'
           | (inl e, s') => (inl e, s')
           end.
Definition get {S} : M S S := fun s => (inr s, s).
Definition put {S} (s : S) : M S unit := fun _ => (inr tt, s).
Definition modify {S} (f : S -> S) : M S unit := fun s => (inr tt, f s).

Global Instance M_ret {S} : MRet (M S) := fun A a => ret a.
Global Instance M_bind {S} : MBind (M S) := fun A B f m => bind m f.

(** [raise "<text>"]: a string is not an exception, so Python raises
    [TypeError: exceptions must derive from BaseException] at the [raise]
    statement itself. *)
Definition raise_str {S A} (text : string) : M S A :=
  raise (TypeError "exceptions must derive from BaseException").

(** Python's [l[i]] for a possibly negative [i]. *)
Definition py_index {A} (l : list A) (i : Z) : option A :=
  let n := Z.of_nat (List.length l) in
  if (0 <=? i)%Z then l !! Z.to_nat i
  else if (- n <=? i)%Z then l !! Z.to_nat (n + i)
  else None.

(** [s.endswith(suffix)] *)
Definition endswith (s suffix : string) : bool :=
  let ls := String.length s in
  let lx := String.length suffix in
  (lx <=? ls)%nat && String.eqb (String.substring (ls - lx) lx s) suffix.

(** The recurring [if not p.endswith(".joblib"): p += ".joblib"]. *)
Definition with_joblib (p : string) : string :=
  if endswith p ".joblib" then p else p ++ ".joblib".

(** ** Activity records ([schemas/activity_schemas.py])

    Time stamps and durations are floats and dates in the source; they are
    carried as integers (microseconds) because no operation modelled here
    computes with them beyond subtraction and comparison.  Images are
    references to PIL image objects. *)

Module Schemas.

Record ApplicationActivity := {
  app_name : string;
  window_title : string;
  exe_path : string;
  cmd_command : string;
  duration_seconds : Z;
  app_keywords : string;
  app_activity_timestamp : Z
}.

Record ScreenshotActivity := {
  screenshot_id : string;
  screenshot_ocr_text : string;
  keywords : string;
  original_screenshot_pil_image : nat;
  modified_screenshot_pil_image : nat;
  screenshot_timestamp : Z
}.

Inductive Activity :=
| Screenshot (a : ScreenshotActivity)
| Application (a : ApplicationActivity).

(** The values found in a metadata dict: an activity, a class object
    (the ['type'] entry), or anything else. *)
Inductive pyval :=
| PyActivity (a : Activity)
| PyType (name : string)
| PyOther (repr : string).

(** [{'activity': activity, 'type': type(activity)}] *)
Definition type_name (a : Activity) : string :=
  match a with
  | Screenshot _ => "ScreenshotActivity"
  | Application _ => "ApplicationActivity"
  end.

Definition activity_metadata (a : Activity) : gmap string pyval :=
  <["type" := PyType (type_name a)]> {[ "activity" := PyActivity a ]}.

End Schemas.

(** ** The vector index store ([services/index_manager.py]) *)

Module Store.
Import Schemas.

(** How a write to a path ends: it succeeds, it fails before anything is
    written ([os.makedirs] or opening the file raises), or it fails part
    way and leaves a truncated file. *)
Inductive io := WriteOk | WriteDenied | WriteTorn.

Section WithServices.

(** Embedding vectors are float32 arrays that the store never inspects
    beyond their length. *)
Context {vector : Type}.
Variable vdim : vector -> nat.

(** [faiss.IndexFlatL2]: the dimension and the stored rows. *)
Record faiss_index := { d : nat; vectors : list vector }.

Definition ntotal (ix : faiss_index) : nat := List.length (vectors ix).

(** The dict written by [save_index], with the keys that [load_index]
    reads; a key may be absent in a file of another origin. *)
Record session_data := {
  sd_index : option faiss_index;
  sd_metadata : option (list (gmap string pyval));
  sd_dim : option nat;
  sd_faiss_version : option string
}.

Inductive file := Unreadable | Pickle (data : session_data).

(** [FaissIndexManager]'s attributes. *)
Record manager := {
  index : option faiss_index;
  metadata_store : list (gmap string pyval);
  dim : nat;
  current_index_file_path : option string
}.

(** The manager together with the file system it saves to. *)
Record world := { mgr : manager; disk : gmap string file }.

(** External services: the embedder, the write outcome per path, the
    installed faiss version and the labels row of [index.search]. *)
Variable embed_text : string -> vector.
Variable fs_write : string -> io.
Variable faiss_version : string.
Variable knn : faiss_index -> vector -> nat -> list Z.

(** [__init__] *)
Definition new_manager (dim0 : nat) : manager :=
  {| index := None; metadata_store := []; dim := dim0;
     current_index_file_path := None |}.

Definition set_mgr (f : manager -> manager) : M world unit :=
  modify (fun w => {| mgr := f (mgr w); disk := disk w |}).

(** [self.index.add(x)] for [n] rows of one width: faiss asserts that
    the width is the index's dimension. *)
Definition index_add (rows : list vector) (width : nat) : M world unit :=
  (w ← get;
   match index (mgr w) with
   | None => raise (TypeError "'NoneType' object has no attribute 'add'")
   | Some ix =>
       if bool_decide (width = d ix) then
         set_mgr (fun m =>
           {| index := Some {| d := d ix; vectors := vectors ix ++ rows |};
              metadata_store := metadata_store m;
              dim := dim m;
              current_index_file_path := current_index_file_path m |})
       else raise AssertionError
   end).

(** [get_activities_metadata]: the list comprehension reads
    ['activity'] from every entry, then [Activities(...)] validates the
    collected values. *)
Fixpoint collect_activities (mds : list (gmap string pyval))
    : exn + list pyval :=
  match mds with
  | [] => inr []
  | md :: tl =>
      match md !! "activity" with
      | None => inl (KeyError "activity")
      | Some v =>
          match collect_activities tl with
          | inl e => inl e
          | inr vs => inr (v :: vs)
          end
      end
  end.

Fixpoint validate_activities (vs : list pyval) : exn + list Activity :=
  match vs with
  | [] => inr []
  | PyActivity a :: tl =>
      match validate_activities tl with
      | inl e => inl e
      | inr acts => inr (a :: acts)
      end
  | _ :: _ => inl ValidationError
  end.

Definition activities_of (mds : list (gmap string pyval))
    : exn + list Activity :=
  match collect_activities mds with
  | inl e => inl e
  | inr vs => validate_activities vs
  end.

Definition lift {S A} (r : exn + A) : M S A :=
  match r with inl e => raise e | inr a => ret a end.

Definition get_activities_metadata : M world (list Activity) :=
  (w ← get; lift (activities_of (metadata_store (mgr w)))).

(** [save_index] *)
Definition save_index : M world unit :=
  (w ← get;
   let m := mgr w in
   match index m with
   | None => raise (ValueError "No index to save")
   | Some ix =>
       match current_index_file_path m with
       | None => raise (TypeError "expected str, bytes or os.PathLike object, not NoneType")
       | Some path =>
           match fs_write path with
           | WriteDenied => raise (OSError path)
           | WriteTorn =>
               put {| mgr := m; disk := <[path := Unreadable]> (disk w) |} ;;
               raise (OSError path)
           | WriteOk =>
               put {| mgr := m;
                      disk := <[path := Pickle
                                  {| sd_index := Some ix;
                                     sd_metadata := Some (metadata_store m);
                                     sd_dim := Some (dim m);
                                     sd_faiss_version := Some faiss_version |}]>
                                (disk w) |}
           end
       end
   end).

(** [add_text] *)
Definition add_text (text : string) (metadata : gmap string pyval)
    : M world unit :=
  (let embedding := embed_text text in
   w ← get;
   match index (mgr w) with
   | None => raise_str "No index was created neither loaded"
   | Some _ =>
       index_add [embedding] (vdim embedding) ;;
       set_mgr (fun m =>
         {| index := index m;
            metadata_store := metadata_store m ++ [metadata];
            dim := dim m;
            current_index_file_path := current_index_file_path m |}) ;;
       save_index
   end).

(** [np.array(embeddings, dtype="float32")] needs rows of one width. *)
Definition same_width (rows : list vector) : bool :=
  match rows with
  | [] => true
  | r :: tl => forallb (fun r' => (vdim r' =? vdim r)%nat) tl
  end.

(** [add_texts] *)
Definition add_texts (texts : list string)
    (metadatas : list (gmap string pyval)) : M world unit :=
  (if negb (List.length texts =? List.length metadatas)%nat then
     raise (ValueError "texts and metadatas must have the same length.")
   else
     let embeddings := map embed_text texts in
     if negb (same_width embeddings) then
       raise (ValueError "setting an array element with a sequence.")
     else
       w ← get;
       match index (mgr w) with
       | None => raise_str "No index was created neither loaded"
       | Some _ =>
           match embeddings with
           | [] => raise (ValueError "not enough values to unpack (expected 2, got 1)")
           | e :: _ =>
               index_add embeddings (vdim e) ;;
               set_mgr (fun m =>
                 {| index := index m;
                    metadata_store := metadata_store m ++ metadatas;
                    dim := dim m;
                    current_index_file_path := current_index_file_path m |})
           end
       end).

(** [load_index] *)
Definition load_index (index_pkl_path : string) : M world (list Activity) :=
  (let index_pkl_path := with_joblib index_pkl_path in
   w ← get;
   match disk w !! index_pkl_path with
   | None => raise (FileNotFoundError index_pkl_path)
   | Some Unreadable => raise (UnpicklingError index_pkl_path)
   | Some (Pickle data) =>
       match sd_index data with
       | None => raise (KeyError "index")
       | Some ix =>
           set_mgr (fun m =>
             {| index := Some ix;
                metadata_store := default [] (sd_metadata data);
                dim := default (dim m) (sd_dim data);
                current_index_file_path := Some index_pkl_path |}) ;;
           get_activities_metadata
       end
   end).

(** [create_index] *)
Definition create_index (index_pkl_path : string) : M world (list Activity) :=
  (let index_pkl_path := with_joblib index_pkl_path in
   w ← get;
   (match disk w !! index_pkl_path with
    | Some _ => _ ← load_index index_pkl_path; ret tt
    | None =>
        set_mgr (fun m =>
          {| index := Some {| d := dim m; vectors := [] |};
             metadata_store := [];
             dim := dim m;
             current_index_file_path := Some index_pkl_path |}) ;;
        save_index
    end) ;;
   set_mgr (fun m =>
     {| index := index m;
        metadata_store := metadata_store m;
        dim := dim m;
        current_index_file_path := Some index_pkl_path |}) ;;
   get_activities_metadata).

(** The result loop of [search_by_text]:
    [if idx < len(self.metadata_store):
       results.append(self.metadata_store[idx]['activity'])]. *)
Fixpoint collect_results (mds : list (gmap string pyval)) (indices : list Z)
    : exn + list pyval :=
  match indices with
  | [] => inr []
  | idx :: tl =>
      if (idx <? Z.of_nat (List.length mds))%Z then
        match py_index mds idx with
        | None => inl IndexError
        | Some md =>
            match md !! "activity" with
            | None => inl (KeyError "activity")
            | Some v =>
                match collect_results mds tl with
                | inl e => inl e
                | inr vs => inr (v :: vs)
                end
            end
        end
      else collect_results mds tl
  end.

(** [search_by_text].  [index.search(x, k)] first checks its arguments,
    [assert d == self.d] and then [assert k > 0]; [k] is a count, so the
    second assertion fails exactly for [k = 0]. *)
Definition search_by_text (query : string) (k : nat) : M world (list Activity) :=
  (w ← get;
   match index (mgr w) with
   | None => raise (ValueError "Index is empty. Add texts first.")
   | Some ix =>
       let query_embedding := embed_text query in
       if bool_decide (vdim query_embedding = d ix) then
         if (k =? 0)%nat then raise AssertionError
         else
           let indices := knn ix query_embedding k in
           results ← lift (collect_results (metadata_store (mgr w)) indices);
           lift (validate_activities results)
       else raise AssertionError
   end).

End WithServices.

End Store.

(** ** The application recorder and the capture scheduler
    ([services/activity_recording.py], [core/activity_manager.py]) *)

Module Scheduler.
Import Schemas Store.

(** [RecordingState] *)
Record RecordingState := {
  is_active : bool;
  last_screen_time : Z;
  last_app_time : Z
}.

(** [ApplicationActivityRecorder]'s own attributes. *)
Record app_recorder := {
  last_switch_time : option Z;
  last_window : option (string * string)
}.

(** What [get_active_window_info] returned. *)
Record window_info := {
  process_name : string;
  win_title : string;
  win_exe_path : string;
  win_cmd_command : string
}.

(** One pass through the body of the application poller's [while] loop:
    the clock readings it takes and the window it would observe. *)
Record tick := {
  current_time : Z;       (* [time.time()] at the top of the pass *)
  observed : window_info; (* [get_active_window_info()] *)
  record_time : Z;        (* [time.time()] inside [record_activity] *)
  switch_time : Z         (* [time.time()] after the insert *)
}.

Section WithServices.

Context {vector : Type}.
Variable vdim : vector -> nat.
Variable embed_text : string -> vector.
Variable fs_write : string -> io.
Variable faiss_version : string.
Variable extract_keywords : string -> string.
Variable app_poll_interval_seconds : Z.

(** [ActivityManager]'s attributes.  A thread attribute holds whether a
    thread object exists and whether it is still running. *)
Record manager_state := {
  faiss_index_manager : world (vector := vector);
  session_activites : list Activity;
  state : RecordingState;
  stop_event : bool;
  screen_thread : option bool;
  app_thread : option bool;
  last_app_activity : option ApplicationActivity;
  app_activity_recorder : app_recorder
}.

Definition with_store (a : manager_state) (w : world) : manager_state :=
  {| faiss_index_manager := w;
     session_activites := session_activites a;
     state := state a; stop_event := stop_event a;
     screen_thread := screen_thread a; app_thread := app_thread a;
     last_app_activity := last_app_activity a;
     app_activity_recorder := app_activity_recorder a |}.

(** A call on [self.faiss_index_manager]. *)
Definition on_store {A} (m : M world A) : M manager_state A :=
  fun a => let '(r, w) := m (faiss_index_manager a) in (r, with_store a w).

(** [try: body except Exception: handler; raise] *)
Definition try_reraise {S A} (body : M S A) (handler : M S unit) : M S A :=
  fun s => match body s with
           | (inr a, s') => (inr a, s')
           | (inl e, s') =>
               match handler s' with
               | (inr _, s'') => (inl e, s'')
               | (inl e', s'') => (inl e', s'')
               end
           end.

(** [start_recording] *)
Definition start_recording : M manager_state unit :=
  a ← get;
  if is_active (state a) then ret tt
  else
    put {| faiss_index_manager := faiss_index_manager a;
           session_activites := session_activites a;
           state := {| is_active := true; last_screen_time := 0;
                       last_app_time := 0 |};
           stop_event := false;
           screen_thread := Some true;
           app_thread := Some true;
           last_app_activity := last_app_activity a;
           app_activity_recorder := app_activity_recorder a |}.

(** [stop_recording]: both loops see the event at their next pass and
    return, so the joins find them finished. *)
Definition stop_recording : M manager_state unit :=
  a ← get;
  if negb (is_active (state a)) then ret tt
  else
    put {| faiss_index_manager := faiss_index_manager a;
           session_activites := session_activites a;
           state := {| is_active := false;
                       last_screen_time := last_screen_time (state a);
                       last_app_time := last_app_time (state a) |};
           stop_event := true;
           screen_thread := (fun _ => false) <$> screen_thread a;
           app_thread := (fun _ => false) <$> app_thread a;
           last_app_activity := last_app_activity a;
           app_activity_recorder := app_activity_recorder a |}.

Definition set_session_activites (acts : list Activity) : M manager_state unit :=
  modify (fun a =>
    {| faiss_index_manager := faiss_index_manager a;
       session_activites := acts;
       state := state a; stop_event := stop_event a;
       screen_thread := screen_thread a; app_thread := app_thread a;
       last_app_activity := last_app_activity a;
       app_activity_recorder := app_activity_recorder a |}).

(** [load_session] *)
Definition load_session (session_path : string) : M manager_state unit :=
  let session_path := with_joblib session_path in
  a ← get;
  let was_recording := is_active (state a) in
  (if was_recording then stop_recording else ret tt) ;;
  try_reraise
    (acts ← on_store (load_index session_path);
     set_session_activites acts)
    (if was_recording then start_recording else ret tt) ;;
  (if was_recording then start_recording else ret tt).

(** [create_session] *)
Definition create_session (session_path : string) : M manager_state unit :=
  let session_path := with_joblib session_path in
  a ← get;
  let was_recording := is_active (state a) in
  (if was_recording then stop_recording else ret tt) ;;
  try_reraise
    (acts ← on_store (create_index fs_write faiss_version session_path);
     set_session_activites acts)
    (if was_recording then start_recording else ret tt) ;;
  (if was_recording then start_recording else ret tt).

(** [ApplicationActivityRecorder.record_activity] *)
Definition record_activity (wi : window_info) (now : Z)
    : M manager_state ApplicationActivity :=
  a ← get;
  let r := app_activity_recorder a in
  let current_window := (process_name wi, win_title wi) in
  let window_changed :=
    match last_window r with
    | None => true
    | Some lw => negb (bool_decide (current_window = lw))
    end in
  let duration :=
    match last_window r with
    | None => 0%Z
    | Some _ =>
        if window_changed then (now - default 0%Z (last_switch_time r))%Z
        else 0%Z
    end in
  put {| faiss_index_manager := faiss_index_manager a;
         session_activites := session_activites a;
         state := state a; stop_event := stop_event a;
         screen_thread := screen_thread a; app_thread := app_thread a;
         last_app_activity := last_app_activity a;
         app_activity_recorder :=
           if window_changed then
             {| last_switch_time := Some now;
                last_window := Some current_window |}
           else r |} ;;
  ret {| app_name := process_name wi;
         window_title := win_title wi;
         exe_path := win_exe_path wi;
         cmd_command := win_cmd_command wi;
         duration_seconds := duration;
         app_keywords :=
           extract_keywords (win_title wi ++ "" ++ process_name wi ++ ""
                             ++ win_cmd_command wi);
         app_activity_timestamp := now |}.

(** The test guarding the insert:
    [self.last_app_activity is None or activity.app_name != ... or
     activity.window_title != ...]. *)
Definition differs (last : option ApplicationActivity)
    (activity : ApplicationActivity) : bool :=
  match last with
  | None => true
  | Some l =>
      negb (String.eqb (app_name activity) (app_name l))
      || negb (String.eqb (window_title activity) (window_title l))
  end.

(** The [with self.index_lock:] block of [_record_app_activity]. *)
Definition insert_if_changed (activity : ApplicationActivity) (switched : Z)
    : M manager_state bool :=
  a ← get;
  if differs (last_app_activity a) activity then
    on_store (add_text vdim embed_text fs_write faiss_version
                (app_keywords activity)
                (activity_metadata (Application activity))) ;;
    acts ← on_store get_activities_metadata;
    modify (fun a =>
      {| faiss_index_manager := faiss_index_manager a;
         session_activites := acts;
         state := state a; stop_event := stop_event a;
         screen_thread := screen_thread a; app_thread := app_thread a;
         last_app_activity := Some activity;
         app_activity_recorder :=
           {| last_switch_time := Some switched;
              last_window := last_window (app_activity_recorder a) |} |}) ;;
    ret true
  else ret false.

(** The [try] body of one pass of [_record_app_activity]. *)
Definition app_pass (tk : tick) : M manager_state unit :=
  a ← get;
  if (app_poll_interval_seconds <=? current_time tk - last_app_time (state a))%Z
  then
    activity ← record_activity (observed tk) (record_time tk);
    _ ← insert_if_changed activity (switch_time tk);
    modify (fun a =>
      {| faiss_index_manager := faiss_index_manager a;
         session_activites := session_activites a;
         state := {| is_active := is_active (state a);
                     last_screen_time := last_screen_time (state a);
                     last_app_time := current_time tk |};
         stop_event := stop_event a;
         screen_thread := screen_thread a; app_thread := app_thread a;
         last_app_activity := last_app_activity a;
         app_activity_recorder := app_activity_recorder a |})
  else ret tt.

Definition thread_exits (a : manager_state) : manager_state :=
  {| faiss_index_manager := faiss_index_manager a;
     session_activites := session_activites a;
     state := state a; stop_event := stop_event a;
     screen_thread := screen_thread a;
     app_thread := (fun _ => false) <$> app_thread a;
     last_app_activity := last_app_activity a;
     app_activity_recorder := app_activity_recorder a |}.

(** [_record_app_activity] over the passes of [ticks]: the loop returns
    when the stop event is set, and breaks out on the first exception;
    when the ticks run out the thread is still looping. *)
Fixpoint _record_app_activity (ticks : list tick) (a : manager_state)
    : manager_state :=
  match ticks with
  | [] => a
  | tk :: tl =>
      if stop_event a then thread_exits a
      else
        match app_pass tk a with
        | (inr _, a') => _record_app_activity tl a'
        | (inl _, a') => thread_exits a'
        end
  end.

(** [__init__] *)
Definition new_activity_manager (w : world) : manager_state :=
  {| faiss_index_manager := w;
     session_activites := [];
     state := {| is_active := false; last_screen_time := 0; last_app_time := 0 |};
     stop_event := false;
     screen_thread := None; app_thread := None;
     last_app_activity := None;
     app_activity_recorder := {| last_switch_time := None; last_window := None |} |}.

End WithServices.

End Scheduler.

(** ** The region redactor ([utils.blur_regions_with_bboxs]) and the
    screenshot recorder ([ScreenshotActivityRecorder.record_activity])

    PIL images are mutable objects: [paste] and [ImageDraw] write into an
    existing image, [convert], [crop], [filter] and [Image.new] allocate a
    new one.  The heap is the list of all image objects, a reference is a
    position in it. *)

Module Redactor.
Import Schemas.

Inductive mode := L | RGB | RGBA.

(** A pixel is the list of its band values. *)
Definition pixel := list Z.

Record image := {
  im_mode : mode;
  im_width : Z;
  im_height : Z;
  px : Z -> Z -> pixel
}.

Definition heap := list image.

(** [schemas/ocr_schemas.py]: [TextOCRChunk].  Coordinates are the
    integers that [int(point[0])], [int(point[1])] produce. *)
Record TextOCRChunk := {
  text : string;
  text_bounding_box : list (Z * Z);
  ocr_confidence_score : Z
}.

Definition alloc (im : image) : M heap nat :=
  fun h => (inr (List.length h), (h ++ [im])%list).

Definition deref (l : nat) : M heap image :=
  fun h => match h !! l with
           | Some im => (inr im, h)
           | None => (inl (ValueError "no such image"), h)
           end.

Definition store (l : nat) (im : image) : M heap unit :=
  modify (fun h => <[l := im]> h).

Definition in_bounds (im : image) (x y : Z) : bool :=
  (0 <=? x)%Z && (x <? im_width im)%Z && (0 <=? y)%Z && (y <? im_height im)%Z.

(** [convert("RGBA")] on one pixel. *)
Definition to_rgba (m : mode) (p : pixel) : pixel :=
  match m with
  | RGBA => p
  | RGB => (p ++ [255%Z])%list
  | L => match p with
         | [v] => [v; v; v; 255%Z]
         | _ => p
         end
  end.

Definition blank (m : mode) : pixel :=
  match m with
  | L => [0%Z]
  | RGB => [0%Z; 0%Z; 0%Z]
  | RGBA => [0%Z; 0%Z; 0%Z; 0%Z]
  end.

(** [min(xs)] and [max(xs)]: [None] stands for the [ValueError] on an
    empty sequence. *)
Definition zmin (xs : list Z) : option Z :=
  match xs with
  | [] => None
  | x :: tl => Some (fold_left Z.min tl x)
  end.

Definition zmax (xs : list Z) : option Z :=
  match xs with
  | [] => None
  | x :: tl => Some (fold_left Z.max tl x)
  end.

Section WithPIL.

(** The library's blur, polygon rasteriser and mask blending.
    [polygon_covers pts u v] says that [ImageDraw.polygon(pts, fill)]
    paints pixel [(u, v)]. *)
Variable gaussian_blur : Z -> image -> image.
Variable polygon_covers : list (Z * Z) -> Z -> Z -> bool.
Variable blend : Z -> pixel -> pixel -> pixel.

(** [pil_img.convert("RGBA")] *)
Definition converted (im : image) : image :=
  {| im_mode := RGBA; im_width := im_width im; im_height := im_height im;
     px := fun x y => to_rgba (im_mode im) (px im x y) |}.

Definition convert_rgba (l : nat) : M heap nat :=
  im ← deref l;
  alloc (converted im).

(** [img.crop((x0, y0, x1, y1))]: pixels outside the source are blank. *)
Definition cropped (im : image) (x0 y0 x1 y1 : Z) : image :=
  {| im_mode := im_mode im;
     im_width := (x1 - x0)%Z; im_height := (y1 - y0)%Z;
     px := fun u v =>
             if in_bounds im (u + x0) (v + y0)
             then px im (u + x0)%Z (v + y0)%Z
             else blank (im_mode im) |}.

Definition crop (l : nat) (x0 y0 x1 y1 : Z) : M heap nat :=
  im ← deref l;
  alloc (cropped im x0 y0 x1 y1).

(** [region.filter(ImageFilter.GaussianBlur(radius))] *)
Definition filter_blur (l : nat) (radius : Z) : M heap nat :=
  im ← deref l;
  alloc (gaussian_blur radius im).

(** [Image.new("L", (w, h), 0)] *)
Definition blank_mask (w h : Z) : image :=
  {| im_mode := L; im_width := w; im_height := h; px := fun _ _ => [0%Z] |}.

Definition new_mask (w h : Z) : M heap nat := alloc (blank_mask w h).

(** [ImageDraw.Draw(mask).polygon(points, fill=255)] *)
Definition with_polygon (im : image) (points : list (Z * Z)) : image :=
  {| im_mode := im_mode im; im_width := im_width im;
     im_height := im_height im;
     px := fun u v =>
             if in_bounds im u v && polygon_covers points u v
             then [255%Z] else px im u v |}.

Definition draw_polygon (l : nat) (points : list (Z * Z)) : M heap unit :=
  im ← deref l;
  store l (with_polygon im points).

(** [img.paste(src, (x0, y0), mask)]: where the mask is 0 the target
    keeps its pixel, where it is 255 it takes the source's, in between
    the two are blended. *)
Definition pasted (d s m : image) (x0 y0 : Z) : image :=
  {| im_mode := im_mode d; im_width := im_width d; im_height := im_height d;
     px := fun x y =>
             let u := (x - x0)%Z in
             let v := (y - y0)%Z in
             if in_bounds d x y && in_bounds s u v then
               match px m u v with
               | [0%Z] => px d x y
               | [255%Z] => px s u v
               | [a] => blend a (px s u v) (px d x y)
               | _ => px d x y
               end
             else px d x y |}.

Definition paste (dst src : nat) (x0 y0 : Z) (mask : nat) : M heap unit :=
  d ← deref dst;
  s ← deref src;
  m ← deref mask;
  if negb ((im_width s =? im_width m)%Z && (im_height s =? im_height m)%Z)
  then raise (ValueError "images do not match")
  else store dst (pasted d s m x0 y0).

(** The body of the [for bbox in bboxes] loop, for the working copy
    [img]. *)
Definition blur_one (img : nat) (blur_radius : Z) (bbox : list (Z * Z))
    : M heap unit :=
  let xs := map fst bbox in
  let ys := map snd bbox in
  match zmin xs, zmax xs, zmin ys, zmax ys with
  | Some min_x, Some max_x, Some min_y, Some max_y =>
      if (max_x <=? min_x)%Z || (max_y <=? min_y)%Z then ret tt
      else
        region ← crop img min_x min_y max_x max_y;
        blurred_region ← filter_blur region blur_radius;
        b ← deref blurred_region;
        mask ← new_mask (im_width b) (im_height b);
        let polygon_points :=
          map (fun p : Z * Z => ((fst p - min_x)%Z, (snd p - min_y)%Z)) bbox in
        draw_polygon mask polygon_points ;;
        paste img blurred_region min_x min_y mask
  | _, _, _, _ => raise (ValueError "min() arg is an empty sequence")
  end.

Fixpoint blur_all (img : nat) (blur_radius : Z) (bboxes : list (list (Z * Z)))
    : M heap unit :=
  match bboxes with
  | [] => ret tt
  | bbox :: tl => blur_one img blur_radius bbox ;; blur_all img blur_radius tl
  end.

(** [blur_regions_with_bboxs] *)
Definition blur_regions_with_bboxs (pil_img : nat)
    (bboxes : list (list (Z * Z))) (blur_radius : Z) : M heap nat :=
  img ← convert_rgba pil_img;
  blur_all img blur_radius bboxes ;;
  ret img.

(** The nested loop of [record_activity] that collects the boxes to
    blur: one entry per (chunk, sequence) pair that matches. *)
Definition pii_bounding_boxes (text_ocr_chunks : list TextOCRChunk)
    (sequences : list string) : list (list (Z * Z)) :=
  flat_map (fun chunk =>
    flat_map (fun sequence =>
      if PyStr.contains sequence (PyStr.lower (text chunk))
      then [text_bounding_box chunk] else [])
      sequences)
    text_ocr_chunks.

(** The redaction step of [record_activity]: box selection followed by
    [blur_regions_with_bboxs] with its default radius. *)
Definition redact (screenshot : nat) (text_ocr_chunks : list TextOCRChunk)
    (sequences : list string) : M heap nat :=
  blur_regions_with_bboxs screenshot
    (pii_bounding_boxes text_ocr_chunks sequences) 8.

(** The OCR, tagger and keyword services. *)
Variable ocr_extract : image -> list TextOCRChunk.
Variable ner_extract : string -> Z -> list Merger.NEREntity.
Variable extract_keywords : string -> string.

(** [" ".join(parts)] *)
Fixpoint join_space (parts : list string) : string :=
  match parts with
  | [] => ""
  | [p] => p
  | p :: tl => p ++ " " ++ join_space tl
  end.

(** [ScreenshotActivityRecorder.record_activity] for an already grabbed
    [screenshot]; [new_id] and [now] are what [generate_timestamp_id()]
    and [datetime.now()] return. *)
Definition record_activity (screenshot : nat) (ner_confidence_threshold : Z)
    (hide_sensitive_info : bool) (new_id : string) (now : Z)
    : M heap ScreenshotActivity :=
  if negb hide_sensitive_info then
    ret {| screenshot_id := new_id;
           screenshot_ocr_text := "";
           keywords := "";
           original_screenshot_pil_image := screenshot;
           modified_screenshot_pil_image := screenshot;
           screenshot_timestamp := now |}
  else
    shot ← deref screenshot;
    let text_ocr_chunks := ocr_extract shot in
    let all_text :=
      join_space (map (fun c => PyStr.lower (text c)) text_ocr_chunks) in
    let ner_entities := ner_extract all_text ner_confidence_threshold in
    let common_pii_sequneces := Scanner.extract_common_pii_sequences all_text in
    let bilstm_crf_pii_sequences :=
      Merger.extract_sensitive_sequences ner_entities
        Merger.non_senstive_label2id in
    blurred_screenshot ←
      redact screenshot text_ocr_chunks
        (bilstm_crf_pii_sequences ++ common_pii_sequneces);
    ret {| screenshot_id := new_id;
           screenshot_ocr_text := all_text;
           keywords := extract_keywords all_text;
           original_screenshot_pil_image := screenshot;
           modified_screenshot_pil_image := blurred_screenshot;
           screenshot_timestamp := now |}.

(** Pixel [(x, y)] of the picture lies in the painted polygon of
    [bbox]. *)
Definition in_polygon (bbox : list (Z * Z)) (x y : Z) : bool :=
  match zmin (map fst bbox), zmin (map snd bbox) with
  | Some min_x, Some min_y =>
      polygon_covers
        (map (fun p : Z * Z => ((fst p - min_x)%Z, (snd p - min_y)%Z)) bbox)
        (x - min_x) (y - min_y)
  | _, _ => false
  end.

End WithPIL.

(** [fragment] occurs in [s] when case is ignored. *)
Definition contains_nocase (fragment s : string) : bool :=
  PyStr.contains (PyStr.lower fragment) (PyStr.lower s).

End Redactor.

(** * Vocabulary of the properties

    The predicates in which the properties below are stated, and the concrete
    services and states on which they are evaluated. *)

Module StrSpec.

(** [sub] occurs in [s]. *)
Definition is_substring (sub s : string) : Prop :=
  exists pre post, s = pre ++ sub ++ post.

End StrSpec.

Module StoreSpec.
Import Schemas Store.

(** The operations of the store, as a caller can issue them. *)
Inductive op :=
| OpCreateIndex (path : string)
| OpLoadIndex (path : string)
| OpSaveIndex
| OpAddText (text : string) (metadata : gmap string pyval)
| OpAddTexts (texts : list string) (metadatas : list (gmap string pyval))
| OpSearch (query : string) (k : nat).

Section WithServices.

Context {vector : Type}.
Variable vdim : vector -> nat.
Variable embed_text : string -> vector.
Variable fs_write : string -> io.
Variable faiss_version : string.
Variable knn : faiss_index (vector := vector) -> vector -> nat -> list Z.

Abbreviation world := (world (vector := vector)).
Abbreviation manager := (manager (vector := vector)).
Abbreviation add_text := (add_text vdim embed_text fs_write faiss_version).
Abbreviation add_texts := (add_texts vdim embed_text).
Abbreviation save_index := (save_index fs_write faiss_version).
Abbreviation create_index := (create_index fs_write faiss_version).
Abbreviation search_by_text := (search_by_text vdim embed_text knn).

(** The state an operation leaves behind, whether it returned or
    raised. *)
Definition exec (o : op) (w : world) : world :=
  match o with
  | OpCreateIndex p => snd (create_index p w)
  | OpLoadIndex p => snd (load_index p w)
  | OpSaveIndex => snd (save_index w)
  | OpAddText t md => snd (add_text t md w)
  | OpAddTexts ts mds => snd (add_texts ts mds w)
  | OpSearch q k => snd (search_by_text q k w)
  end.

Definition exec_all (ops : list op) (w : world) : world :=
  fold_left (fun w o => exec o w) ops w.

(** [index.ntotal], and 0 while no index is loaded. *)
Definition vector_count (m : manager) : nat :=
  match index m with
  | Some ix => ntotal ix
  | None => 0
  end.

(** The parallel-array invariant. *)
Definition in_step (m : manager) : Prop :=
  List.length (metadata_store m) = vector_count m.

(** A session file that loads into a state satisfying the invariant. *)
Definition file_in_step (f : file (vector := vector)) : Prop :=
  match f with
  | Unreadable => True
  | Pickle data =>
      match sd_index data with
      | None => True
      | Some ix => List.length (default [] (sd_metadata data)) = ntotal ix
      end
  end.

Definition disk_in_step (dk : gmap string (file (vector := vector))) : Prop :=
  forall p f, dk !! p = Some f -> file_in_step f.

Definition world_in_step (w : world) : Prop :=
  in_step (mgr w) /\ disk_in_step (disk w).

(** The persist step of an insert into [m] would raise. *)
Definition persist_fails (m : manager) : bool :=
  match current_index_file_path m with
  | None => true
  | Some path =>
      match fs_write path with
      | WriteOk => false
      | _ => true
      end
  end.

End WithServices.

End StoreSpec.

(** Concrete services and states. *)

Module Fixtures.
Import Schemas Store.

(** Two-dimensional integer vectors stand for embeddings. *)
Definition embed_const (text : string) : list Z := [0%Z; 0%Z].
Definition width (v : list Z) : nat := List.length v.

Definition always_ok (path : string) : io := WriteOk.
Definition always_denied (path : string) : io := WriteDenied.

(** The labels row of an exact search in an index of at most one vector:
    the positions of the stored vectors, then -1 for every neighbour that
    was asked for and does not exist. *)
Definition padded_labels (ix : faiss_index (vector := list Z)) (q : list Z)
    (k : nat) : list Z :=
  (map Z.of_nat (seq 0 (Nat.min k (ntotal ix)))
   ++ repeat (-1)%Z (k - ntotal ix))%list.

Definition editor : ApplicationActivity :=
  {| app_name := "code.exe"; window_title := "main.py";
     exe_path := "C:/code.exe"; cmd_command := "code main.py";
     duration_seconds := 0; app_keywords := "python editor";
     app_activity_timestamp := 1000 |}.

(** A loaded, empty session. *)
Definition empty_session : world (vector := list Z) :=
  {| mgr := {| index := Some {| d := 2; vectors := [] |};
               metadata_store := [];
               dim := 2;
               current_index_file_path := Some "s.joblib" |};
     disk := ∅ |}.

(** A loaded session holding one activity. *)
Definition one_entry_session : world (vector := list Z) :=
  {| mgr := {| index := Some {| d := 2; vectors := [[0%Z; 0%Z]] |};
               metadata_store := [activity_metadata (Application editor)];
               dim := 2;
               current_index_file_path := Some "s.joblib" |};
     disk := ∅ |}.

(** The chunk whose text is an e-mail address with a stray space after
    the at sign. *)
Definition mangled_chunk : Redactor.TextOCRChunk :=
  {| Redactor.text := "john@ gmail com";
     Redactor.text_bounding_box := [(0, 0); (90, 0); (90, 12); (0, 12)]%Z;
     Redactor.ocr_confidence_score := 900 |}.

(** A session file whose single metadata entry has no ['activity'] key,
    and the disk that holds it. *)
Definition keyless_session : session_data (vector := list Z) :=
  {| sd_index := Some {| d := 2; vectors := [[0%Z; 0%Z]] |};
     sd_metadata := Some [∅];
     sd_dim := Some 2;
     sd_faiss_version := Some "1.7.4" |}.

Definition disk_with_keyless : gmap string (file (vector := list Z)) :=
  {[ "bad.joblib" := Pickle keyless_session ]}.

(** An activity manager that is recording into a loaded session holding
    one activity. *)
Definition recording_manager : Scheduler.manager_state (vector := list Z) :=
  {| Scheduler.faiss_index_manager :=
       {| mgr := mgr one_entry_session; disk := disk_with_keyless |};
     Scheduler.session_activites := [Application editor];
     Scheduler.state :=
       {| Scheduler.is_active := true;
          Scheduler.last_screen_time := 100;
          Scheduler.last_app_time := 100 |};
     Scheduler.stop_event := false;
     Scheduler.screen_thread := Some true;
     Scheduler.app_thread := Some true;
     Scheduler.last_app_activity := Some editor;
     Scheduler.app_activity_recorder :=
       {| Scheduler.last_switch_time := Some 100%Z;
          Scheduler.last_window := Some ("code.exe", "main.py") |} |}.

(** Keywords are the text itself. *)
Definition keywords_id (text : string) : string := text.

(** A freshly started manager over an empty session. *)
Definition started_manager : Scheduler.manager_state (vector := list Z) :=
  {| Scheduler.faiss_index_manager := empty_session;
     Scheduler.session_activites := [];
     Scheduler.state :=
       {| Scheduler.is_active := true;
          Scheduler.last_screen_time := 0;
          Scheduler.last_app_time := 0 |};
     Scheduler.stop_event := false;
     Scheduler.screen_thread := Some true;
     Scheduler.app_thread := Some true;
     Scheduler.last_app_activity := None;
     Scheduler.app_activity_recorder :=
       {| Scheduler.last_switch_time := None;
          Scheduler.last_window := None |} |}.

Definition editor_window : Scheduler.window_info :=
  {| Scheduler.process_name := "code.exe";
     Scheduler.win_title := "main.py";
     Scheduler.win_exe_path := "C:/code.exe";
     Scheduler.win_cmd_command := "code main.py" |}.

(** A pass at time [t] that observes the editor window. *)
Definition editor_tick (t : Z) : Scheduler.tick :=
  {| Scheduler.current_time := t;
     Scheduler.observed := editor_window;
     Scheduler.record_time := t;
     Scheduler.switch_time := t |}.

(** A blur that paints everything mid-grey, a rasteriser that fills the
    bounding rectangle of the points, and a blend that takes the source. *)
Definition blur_grey (radius : Z) (im : Redactor.image) : Redactor.image :=
  {| Redactor.im_mode := Redactor.im_mode im;
     Redactor.im_width := Redactor.im_width im;
     Redactor.im_height := Redactor.im_height im;
     Redactor.px := fun _ _ => [128; 128; 128; 255]%Z |}.

Definition rect_covers (points : list (Z * Z)) (u v : Z) : bool :=
  match Redactor.zmin (map fst points), Redactor.zmax (map fst points),
        Redactor.zmin (map snd points), Redactor.zmax (map snd points) with
  | Some x0, Some x1, Some y0, Some y1 =>
      (x0 <=? u)%Z && (u <=? x1)%Z && (y0 <=? v)%Z && (v <=? y1)%Z
  | _, _, _, _ => false
  end.

Definition blend_source (a : Z) (s d : Redactor.pixel) : Redactor.pixel := s.

(** A 100 by 40 RGB screenshot of one colour, and two chunks read from it:
    the first contains a name, the second does not. *)
Definition shot : Redactor.image :=
  {| Redactor.im_mode := Redactor.RGB;
     Redactor.im_width := 100; Redactor.im_height := 40;
     Redactor.px := fun _ _ => [10; 20; 30]%Z |}.

Definition name_chunk : Redactor.TextOCRChunk :=
  {| Redactor.text := "Call John";
     Redactor.text_bounding_box := [(0, 0); (50, 0); (50, 10); (0, 10)]%Z;
     Redactor.ocr_confidence_score := 950 |}.

Definition plain_chunk : Redactor.TextOCRChunk :=
  {| Redactor.text := "hello";
     Redactor.text_bounding_box := [(0, 20); (50, 20); (50, 30); (0, 30)]%Z;
     Redactor.ocr_confidence_score := 950 |}.

End Fixtures.

(** The vocabulary of the scheduler's properties. *)

Module SchedulerSpec.
Import Schemas Scheduler.

(** The pair the poller compares: process name and window title. *)
Definition window_pair (tk : tick) : string * string :=
  (process_name (observed tk), win_title (observed tk)).

Definition activity_pair (a : ApplicationActivity) : string * string :=
  (app_name a, window_title a).

(** The activity that [record_activity] builds on pass [tk] when the
    recorder's state is [r]. *)
Definition observed_activity (extract_keywords : string -> string)
    (r : app_recorder) (tk : tick) : ApplicationActivity :=
  let wi := observed tk in
  {| app_name := process_name wi;
     window_title := win_title wi;
     exe_path := win_exe_path wi;
     cmd_command := win_cmd_command wi;
     duration_seconds :=
       match last_window r with
       | None => 0%Z
       | Some lw =>
           if bool_decide ((process_name wi, win_title wi) = lw) then 0%Z
           else (record_time tk - default 0%Z (last_switch_time r))%Z
       end;
     app_keywords :=
       extract_keywords (win_title wi ++ "" ++ process_name wi ++ ""
                         ++ win_cmd_command wi);
     app_activity_timestamp := record_time tk |}.

End SchedulerSpec.


(** * Further parts of the program *)

(** ** The screen poller ([ActivityManager._record_screen_activity]) *)

Module ScreenPoller.
Import Schemas Store Scheduler.

(** One pass through the body of the screen poller's [while] loop: the
    clock reading at its top and what
    [self.screen_activity_recorder.record_activity()] would return or
    raise. *)
Record screen_tick := {
  screen_time : Z;
  captured : exn + ScreenshotActivity
}.

Section WithServices.

Context {vector : Type}.
Variable vdim : vector -> nat.
Variable embed_text : string -> vector.
Variable fs_write : string -> io.
Variable faiss_version : string.
Variable screenshot_interval_seconds : Z.

(** The [try] body of one pass of [_record_screen_activity]. *)
Definition screen_pass (tk : screen_tick)
    : M (manager_state (vector := vector)) unit :=
  a ← get;
  if (screenshot_interval_seconds <=? screen_time tk - last_screen_time (state a))%Z
  then
    activity ← lift (captured tk);
    on_store (add_text vdim embed_text fs_write faiss_version
                (keywords activity)
                (activity_metadata (Screenshot activity))) ;;
    modify (fun a =>
      {| faiss_index_manager := faiss_index_manager a;
         session_activites := session_activites a;
         state := {| is_active := is_active (state a);
                     last_screen_time := screen_time tk;
                     last_app_time := last_app_time (state a) |};
         stop_event := stop_event a;
         screen_thread := screen_thread a; app_thread := app_thread a;
         last_app_activity := last_app_activity a;
         app_activity_recorder := app_activity_recorder a |})
  else ret tt.

Definition screen_thread_exits (a : manager_state (vector := vector))
    : manager_state :=
  {| faiss_index_manager := faiss_index_manager a;
     session_activites := session_activites a;
     state := state a; stop_event := stop_event a;
     screen_thread := (fun _ => false) <$> screen_thread a;
     app_thread := app_thread a;
     last_app_activity := last_app_activity a;
     app_activity_recorder := app_activity_recorder a |}.

(** [_record_screen_activity] over the passes of [ticks]: the loop returns
    when the stop event is set and breaks out on the first exception. *)
Fixpoint _record_screen_activity (ticks : list screen_tick)
    (a : manager_state (vector := vector)) : manager_state :=
  match ticks with
  | [] => a
  | tk :: tl =>
      if stop_event a then screen_thread_exits a
      else
        match screen_pass tk a with
        | (inr _, a') => _record_screen_activity tl a'
        | (inl _, a') => screen_thread_exits a'
        end
  end.

End WithServices.

(** Every pass of [ticks] is due: the first one [interval] after [last],
    each later one [interval] after the pass before it. *)
Fixpoint all_due (interval last : Z) (times : list Z) : Prop :=
  match times with
  | [] => True
  | t :: tl => (interval <= t - last)%Z /\ all_due interval t tl
  end.

End ScreenPoller.

(** The vocabulary of the application poller's properties over several
    windows. *)

Module PollerSpec.
Import Schemas Scheduler SchedulerSpec.

(** The recorder's attributes after a pass that inserted: the window
    observed on that pass and the switch time the manager wrote. *)
Definition recorder_after (tk : tick) : app_recorder :=
  {| last_switch_time := Some (switch_time tk);
     last_window := Some (window_pair tk) |}.

(** The activities that [record_activity] builds over passes that each end
    in an insert, starting from the recorder [r]. *)
Fixpoint observed_activities (extract_keywords : string -> string)
    (r : app_recorder) (ticks : list tick) : list ApplicationActivity :=
  match ticks with
  | [] => []
  | tk :: tl =>
      observed_activity extract_keywords r tk
      :: observed_activities extract_keywords (recorder_after tk) tl
  end.

(** Every pair differs from the one before it, the first from [last]. *)
Fixpoint all_switches (last : option (string * string))
    (pairs : list (string * string)) : Prop :=
  match pairs with
  | [] => True
  | p :: tl => last <> Some p /\ all_switches (Some p) tl
  end.

End PollerSpec.

(** ** The single-box blur ([utils.blur_region_with_bbox]) *)

Module SingleBlur.
Import Redactor.

Section WithPIL.

Variable gaussian_blur : Z -> image -> image.
Variable polygon_covers : list (Z * Z) -> Z -> Z -> bool.
Variable blend : Z -> pixel -> pixel -> pixel.

(** [image.copy()] *)
Definition copy (l : nat) : M heap nat :=
  im ← deref l;
  alloc im.

(** [Image.composite(image1, image2, mask)]: a copy of [image2] with
    [image1] pasted through the mask at the origin. *)
Definition composite (image1 image2 mask : nat) : M heap nat :=
  image ← copy image2;
  paste blend image image1 0 0 mask ;;
  ret image.

(** [blur_region_with_bbox]; the points are pairs, so only the number of
    points remains of the format check. *)
Definition blur_region_with_bbox (pil_img : nat) (bbox : list (Z * Z))
    : M heap nat :=
  if negb (List.length bbox =? 4)%nat then
    raise (ValueError "Bounding box must be a list of four [x, y] points.")
  else
    im ← deref pil_img;
    mask ← new_mask (im_width im) (im_height im);
    draw_polygon polygon_covers mask bbox ;;
    blurred_img ← filter_blur gaussian_blur pil_img 10;
    composite blurred_img pil_img mask.

End WithPIL.

End SingleBlur.

(** The vocabulary of the redactor's further properties. *)

Module RedactorSpec.
Import Redactor.

(** The integer rectangle [min_x, max_x) x [min_y, max_y) spanned by the
    points of a box is not empty. *)
Definition spans_area (bbox : list (Z * Z)) : bool :=
  match zmin (map fst bbox), zmax (map fst bbox),
        zmin (map snd bbox), zmax (map snd bbox) with
  | Some min_x, Some max_x, Some min_y, Some max_y =>
      negb ((max_x <=? min_x)%Z || (max_y <=? min_y)%Z)
  | _, _, _, _ => false
  end.

(** Pixel [(x, y)] lies in the rectangle of a box that spans an area, and
    in the polygon painted into the mask for it. *)
Definition blurred_by (polygon_covers : list (Z * Z) -> Z -> Z -> bool)
    (bbox : list (Z * Z)) (x y : Z) : bool :=
  match zmin (map fst bbox), zmax (map fst bbox),
        zmin (map snd bbox), zmax (map snd bbox) with
  | Some min_x, Some max_x, Some min_y, Some max_y =>
      spans_area bbox
      && (min_x <=? x)%Z && (x <? max_x)%Z
      && (min_y <=? y)%Z && (y <? max_y)%Z
      && polygon_covers
           (map (fun p : Z * Z => ((fst p - min_x)%Z, (snd p - min_y)%Z)) bbox)
           (x - min_x)%Z (y - min_y)%Z
  | _, _, _, _ => false
  end.

(** The crop of [im] to the rectangle of a box, blurred: what is pasted
    for the box. *)
Definition blurred_crop (gaussian_blur : Z -> image -> image) (radius : Z)
    (im : image) (bbox : list (Z * Z)) : image :=
  match zmin (map fst bbox), zmax (map fst bbox),
        zmin (map snd bbox), zmax (map snd bbox) with
  | Some min_x, Some max_x, Some min_y, Some max_y =>
      gaussian_blur radius (cropped im min_x min_y max_x max_y)
  | _, _, _, _ => im
  end.

(** The offset of the rectangle of a box. *)
Definition origin (bbox : list (Z * Z)) : Z * Z :=
  match zmin (map fst bbox), zmin (map snd bbox) with
  | Some min_x, Some min_y => (min_x, min_y)
  | _, _ => (0%Z, 0%Z)
  end.

(** The blur keeps the size of the image it is given, as PIL's filters
    do. *)
Definition keeps_size (gaussian_blur : Z -> image -> image) : Prop :=
  forall radius im,
    im_width (gaussian_blur radius im) = im_width im
    /\ im_height (gaussian_blur radius im) = im_height im.

End RedactorSpec.

(** ** The history window's time arithmetic ([ui/history_ui.py])

    The three helpers of [DualStreamlineWindow] that work on the activity
    list alone, and the choice made by [on_preview_time_changed]. *)

Module History.
Import Schemas.

Section WithClock.

(** [int(dt.timestamp())] and [int(seconds)]. *)
Variable unix : Z -> Z.
Variable whole : Z -> Z.

(** The [s] and [e] computed for an activity. *)
Definition starts_at (a : Activity) : Z :=
  match a with
  | Application a => unix (app_activity_timestamp a)
  | Screenshot a => unix (screenshot_timestamp a)
  end.

Definition ends_at (a : Activity) : Z :=
  match a with
  | Application a =>
      (unix (app_activity_timestamp a) + Z.max 1 (whole (duration_seconds a)))%Z
  | Screenshot a => unix (screenshot_timestamp a)
  end.

(** [_compute_global_time_range]: the pair [(min_t, max_t)].  [starts]
    and [ends] have the same length, so they are empty together. *)
Definition _compute_global_time_range (activities_list : list Activity)
    : Z * Z :=
  let starts := map starts_at activities_list in
  let ends := map ends_at activities_list in
  match Redactor.zmin starts, Redactor.zmax ends with
  | Some min_t, Some max_t =>
      if (max_t <=? min_t)%Z then (min_t, (min_t + 1)%Z) else (min_t, max_t)
  | _, _ => (0%Z, 1%Z)
  end.

(** One iteration of the loop of [_find_nearest_screenshot]; the state is
    [(nearest, best_d)] and [None] stands for [float('inf')]. *)
Definition nearest_step (t : Z)
    (st : option ScreenshotActivity * option Z) (a : Activity)
    : option ScreenshotActivity * option Z :=
  match a with
  | Screenshot s =>
      let d := Z.abs (unix (screenshot_timestamp s) - t) in
      let closer :=
        match snd st with
        | None => true
        | Some best_d => (d <? best_d)%Z
        end in
      if closer then (Some s, Some d) else st
  | Application _ => st
  end.

Definition _find_nearest_screenshot (activities_list : list Activity) (t : Z)
    : option ScreenshotActivity :=
  fst (fold_left (nearest_step t) activities_list (None, None)).

(** The test [s <= t <= e] of [_find_app_at_time]. *)
Definition contains_time (a : ApplicationActivity) (t : Z) : bool :=
  let s := unix (app_activity_timestamp a) in
  let e := (s + Z.max 1 (whole (duration_seconds a)))%Z in
  (s <=? t)%Z && (t <=? e)%Z.

Fixpoint _find_app_at_time (activities_list : list Activity) (t : Z)
    : option ApplicationActivity :=
  match activities_list with
  | [] => None
  | Application a :: tl =>
      if contains_time a t then Some a else _find_app_at_time tl t
  | Screenshot _ :: tl => _find_app_at_time tl t
  end.

(** What [on_preview_time_changed] puts on the canvas for the rounded
    time [t]. *)
Inductive preview :=
| ShowScreenshot (a : ScreenshotActivity)
| ShowApp (a : ApplicationActivity)
| ClearPreview.

Definition app_or_clear (activities_list : list Activity) (t : Z) : preview :=
  match _find_app_at_time activities_list t with
  | Some app => ShowApp app
  | None => ClearPreview
  end.

Definition on_preview_time_changed (activities_list : list Activity) (t : Z)
    : preview :=
  match _find_nearest_screenshot activities_list t with
  | Some nearest =>
      if (Z.abs (unix (screenshot_timestamp nearest) - t) <=? 10)%Z
      then ShowScreenshot nearest
      else app_or_clear activities_list t
  | None => app_or_clear activities_list t
  end.

End WithClock.

End History.

(** The vocabulary of the merger's further properties. *)

Module MergerSpec.
Import Merger.

(** The text before the first dash of a token's label, when the label is
    not listed as non-sensitive and has a dash. *)
Definition prefix_of (non_sensitive_labels : gmap string Z) (e : NEREntity)
    : option string :=
  if bool_decide (is_Some (non_sensitive_labels !! entity_label e)) then None
  else fst <$> PyStr.split_once "-" (entity_label e).

(** The token's text goes into a fragment: its prefix is B or I. *)
Definition taken (non_sensitive_labels : gmap string Z) (e : NEREntity) : bool :=
  match prefix_of non_sensitive_labels e with
  | Some p => String.eqb p "B" || String.eqb p "I"
  | None => false
  end.

(** The token's prefix is B. *)
Definition begins (non_sensitive_labels : gmap string Z) (e : NEREntity) : bool :=
  match prefix_of non_sensitive_labels e with
  | Some p => String.eqb p "B"
  | None => false
  end.

(** [entity.entity_text.replace("##", "")] *)
Definition clean_text (e : NEREntity) : string :=
  PyStr.replace "##" "" (entity_text e).

(** What the loop state holds: the closed fragments followed by the open
    one, and the number of fragments it stands for. *)
Definition content (st : mstate) : string :=
  PyStr.join_empty (sequences st) ++ PyStr.join_empty (current_sequence st).

Definition fragments (st : mstate) : nat :=
  List.length (sequences st) + (if nonempty (current_sequence st) then 1 else 0).

End MergerSpec.

(** The vocabulary of the scanner's further properties. *)

Module ScannerSpec.
Import Regex.

(** No character of the text is in the class. *)
Definition free_of (p : ascii -> bool) (text : string) : Prop :=
  Forall (fun c => p c = false) (list_ascii_of_string text).

Definition is_at (c : ascii) : bool := Ascii.eqb "@" c.

(** Every character of the text is an ASCII character.  On such text
    Python's [\d], [\w], [\s] and [\b] and [str.lower] are the classes
    and the lower-casing of [Regex] and [PyStr]. *)
Definition ascii_only (text : string) : Prop :=
  free_of (fun c => (128 <=? code c)%nat) text.

(** Every match of the pattern consumes a character of the class: the
    pattern has a mandatory part that accepts only such characters. *)
Fixpoint needs (p : ascii -> bool) (r : regex) : Prop :=
  match r with
  | Chr q => forall c, q c = true -> p c = true
  | Eps | WordB => False
  | Seq r1 r2 => needs p r1 \/ needs p r2
  | Alt r1 r2 => needs p r1 /\ needs p r2
  | Rep _ lo _ r' => 0 < lo /\ needs p r'
  | Group _ r' => needs p r'
  end.

End ScannerSpec.

(** The vocabulary of the screenshot recorder's properties. *)

Module RecorderSpec.
Import Redactor.

Section WithServices.

Variable ocr_extract : image -> list TextOCRChunk.
Variable ner_extract : string -> Z -> list Merger.NEREntity.

(** The text handed to the tagger and the scanner for a screenshot, and
    the sequences they give back. *)
Definition all_text_of (shot : image) : string :=
  join_space (map (fun c => PyStr.lower (text c)) (ocr_extract shot)).

Definition sequences_of (shot : image) (threshold : Z) : list string :=
  (Merger.extract_sensitive_sequences
     (ner_extract (all_text_of shot) threshold) Merger.non_senstive_label2id
   ++ Scanner.extract_common_pii_sequences (all_text_of shot))%list.

End WithServices.

End RecorderSpec.

(** Further concrete values. *)

Module MoreFixtures.
Import Schemas Store Scheduler ScreenPoller Fixtures.

Definition browser_window : window_info :=
  {| process_name := "firefox.exe";
     win_title := "Inbox";
     win_exe_path := "C:/firefox.exe";
     win_cmd_command := "firefox" |}.

(** A pass at time [t] that observes the browser window. *)
Definition browser_tick (t : Z) : tick :=
  {| current_time := t; observed := browser_window;
     record_time := t; switch_time := t |}.

Definition capture (name : string) (t : Z) : ScreenshotActivity :=
  {| screenshot_id := name;
     screenshot_ocr_text := "hello";
     keywords := "hello";
     original_screenshot_pil_image := 0;
     modified_screenshot_pil_image := 1;
     screenshot_timestamp := t |}.

(** A pass of the screen poller at time [t] whose capture succeeds. *)
Definition capture_tick (name : string) (t : Z) : screen_tick :=
  {| screen_time := t; captured := inr (capture name t) |}.

(** The session file of [one_entry_session], and a manager with no index
    loaded that has the file on its disk and remembers the editor as the
    last inserted activity. *)
Definition editor_session_data : session_data (vector := list Z) :=
  {| sd_index := Some {| d := 2; vectors := [[0%Z; 0%Z]] |};
     sd_metadata := Some [activity_metadata (Application editor)];
     sd_dim := Some 2;
     sd_faiss_version := Some "1.7.4" |}.

Definition manager_before_switch : manager_state (vector := list Z) :=
  {| faiss_index_manager :=
       {| mgr := new_manager 2;
          disk := {[ "s.joblib" := Pickle editor_session_data ]} |};
     session_activites := [];
     state := {| is_active := true; last_screen_time := 0; last_app_time := 0 |};
     stop_event := false;
     screen_thread := Some true; app_thread := Some true;
     last_app_activity := Some editor;
     app_activity_recorder :=
       {| last_switch_time := Some 100%Z;
          last_window := Some ("code.exe", "main.py") |} |}.

(** A text extractor that reads the two sample chunks off any picture and
    one that reads only the chunk without a name; a tagger that finds the
    name and one that finds nothing. *)
Definition ocr_two (im : Redactor.image) : list Redactor.TextOCRChunk :=
  [name_chunk; plain_chunk].

Definition ocr_plain (im : Redactor.image) : list Redactor.TextOCRChunk :=
  [plain_chunk].

Definition ner_john (text : string) (threshold : Z) : list Merger.NEREntity :=
  [Merger.tok "john" "B-PER"].

Definition ner_none (text : string) (threshold : Z) : list Merger.NEREntity :=
  [].

End MoreFixtures.

(** * Properties *)

(** ** Strings *)

Module PyStrFacts.
Import PyStr StrSpec.

Lemma app_empty_l (s : string) : "" ++ s = s.
Proof. reflexivity. Qed.

Lemma app_String (a : ascii) (s t : string) : String a s ++ t = String a (s ++ t).
Proof. reflexivity. Qed.

Lemma prefix_strip_Some p s r : prefix_strip p s = Some r <-> s = p ++ r.
Proof.
  revert s; induction p as [|a p IH]; intros s; simpl.
  - rewrite app_empty_l. split; congruence.
  - destruct s as [|b s]; [split; discriminate|].
    rewrite app_String.
    destruct (Ascii.eqb_spec a b) as [->|Hne].
    + rewrite IH. split; [intros ->; reflexivity | congruence].
    + split; [discriminate | congruence].
Qed.

Lemma contains_true sub s : contains sub s = true <-> is_substring sub s.
Proof.
  induction s as [|c s IH]; simpl.
  - destruct (prefix_strip sub "") as [r|] eqn:E.
    + apply prefix_strip_Some in E. split; [|reflexivity].
      intros _. exists "", r. exact E.
    + split; [discriminate|].
      intros (pre & post & H).
      destruct pre; [|discriminate]. rewrite app_empty_l in H.
      apply prefix_strip_Some in H. congruence.
  - destruct (prefix_strip sub (String c s)) as [r|] eqn:E.
    + apply prefix_strip_Some in E. split; [|reflexivity].
      intros _. exists "", r. exact E.
    + rewrite IH. split.
      * intros (pre & post & ->). exists (String c pre), post. reflexivity.
      * intros (pre & post & H). destruct pre as [|c' pre].
        -- rewrite app_empty_l in H. apply prefix_strip_Some in H. congruence.
        -- rewrite app_String in H. injection H as _ ->. exists pre, post. reflexivity.
Qed.

Lemma lower_ascii_idem c : lower_ascii (lower_ascii c) = lower_ascii c.
Proof. destruct c as [[] [] [] [] [] [] [] []]; reflexivity. Qed.

Lemma lower_idem s : lower (lower s) = lower s.
Proof. induction s; simpl; [|rewrite lower_ascii_idem, IHs]; reflexivity. Qed.

Lemma lower_app s t : lower (s ++ t) = lower s ++ lower t.
Proof.
  induction s as [|c s IH]; [reflexivity|].
  rewrite app_String. simpl. rewrite IH. reflexivity.
Qed.

(** Splitting a lower-cased string splits the original. *)
Lemma lower_eq_app t : forall a b,
  lower t = a ++ b -> exists a' b', t = a' ++ b' /\ lower a' = a /\ lower b' = b.
Proof.
  induction t as [|c t IH]; intros a b H; simpl in H.
  - destruct a; [|discriminate]. destruct b; [|discriminate].
    exists "", "". repeat split.
  - destruct a as [|x a].
    + rewrite app_empty_l in H. exists "", (String c t). subst b. repeat split.
    + rewrite app_String in H. injection H as <- H.
      destruct (IH _ _ H) as (a' & b' & -> & <- & <-).
      exists (String c a'), b'. repeat split.
Qed.

(** What occurs in a lower-cased text occurs in the text when case is
    ignored. *)
Lemma contains_lower_nocase sub s :
  contains sub (lower s) = true -> contains (lower sub) (lower s) = true.
Proof.
  rewrite !contains_true. intros (pre & post & H).
  apply lower_eq_app in H as (pre' & rest & -> & <- & H).
  apply lower_eq_app in H as (sub' & post' & -> & <- & <-).
  exists (lower pre'), (lower post'). rewrite lower_idem, !lower_app. reflexivity.
Qed.

End PyStrFacts.

(** ** The merger *)

Module MergerFacts.
Import Merger.

(** A label without a dash that is not listed as non-sensitive closes and
    clears the open fragment, exactly as a non-sensitive label does. *)
Lemma step_no_dash_closes nsl st e :
  nsl !! entity_label e = None ->
  PyStr.split_once "-" (entity_label e) = None ->
  step nsl st e = close_and_clear st.
Proof.
  intros Hn Hd. unfold step. rewrite Hd.
  destruct (bool_decide _); reflexivity.
Qed.

(** A label with a dash whose prefix is neither [B] nor [I] falls through
    both branches: the state, open fragment included, is left as it is. *)
Lemma step_other_prefix_ignored nsl st e prefix label_type :
  nsl !! entity_label e = None ->
  PyStr.split_once "-" (entity_label e) = Some (prefix, label_type) ->
  prefix <> "B" -> prefix <> "I" ->
  step nsl st e = st.
Proof.
  intros Hn Hd HB HI. unfold step. rewrite Hd.
  rewrite bool_decide_eq_false_2 by (rewrite Hn; intros [? ?]; discriminate).
  destruct (String.eqb_spec prefix "B"); [contradiction|].
  destruct (String.eqb_spec prefix "I"); [contradiction|].
  reflexivity.
Qed.

(** C7. The merger's reference case: on the tokens John/B-FIRSTNAME,
    ##son/I-FIRSTNAME, is/O, 30/B-AGE with non-sensitive labels {O}, the
    fragments are exactly Johnson and 30, in this order. *)
Theorem merger_reference_case :
  extract_sensitive_sequences
    [tok "John" "B-FIRSTNAME"; tok "##son" "I-FIRSTNAME"; tok "is" "O";
     tok "30" "B-AGE"]
    non_senstive_label2id
  = ["Johnson"; "30"].
Proof. vm_compute. reflexivity. Qed.

(** C8. An unknown label with a dash does not close the open fragment:
    on John/B-NAME, x/X-NAME, ##son/I-NAME the label X-NAME is ignored and
    the fragment opened by John goes on with son, giving the single
    fragment Johnson, whereas a label without a dash in the same place
    closes it and gives John and son. *)
Theorem merger_unknown_dash_label_keeps_fragment_open :
  extract_sensitive_sequences
    [tok "John" "B-NAME"; tok "x" "X-NAME"; tok "##son" "I-NAME"]
    non_senstive_label2id
  = ["Johnson"]
  /\ extract_sensitive_sequences
       [tok "John" "B-NAME"; tok "x" "MISC"; tok "##son" "I-NAME"]
       non_senstive_label2id
     = ["John"; "son"].
Proof. split; vm_compute; reflexivity. Qed.

End MergerFacts.

(** ** The scanner *)

Module ScannerFacts.
Import Regex Scanner StrSpec PyStrFacts Fixtures.

Lemma string_of_list_ascii_app a b :
  string_of_list_ascii (a ++ b) = string_of_list_ascii a ++ string_of_list_ascii b.
Proof.
  induction a as [|c a IH]; [reflexivity|].
  simpl. rewrite IH. reflexivity.
Qed.

(** Every slice of a text occurs in it. *)
Lemma slice_is_substring text i j :
  is_substring (string_of_list_ascii (slice (list_ascii_of_string text) i j)) text.
Proof.
  unfold slice. set (t := list_ascii_of_string text).
  exists (string_of_list_ascii (firstn i t)),
         (string_of_list_ascii (skipn (j - i) (skipn i t))).
  rewrite <- !string_of_list_ascii_app, firstn_skipn, firstn_skipn.
  subst t. symmetry. apply string_of_list_ascii_of_string.
Qed.

Lemma empty_is_substring text : is_substring "" text.
Proof. exists "", text. reflexivity. Qed.

Lemma findall_substring r text s :
  In s (findall r text) -> is_substring s text.
Proof.
  unfold findall. rewrite in_map_iff. intros ([i fin] & <- & _). simpl.
  destruct (ngroups r =? 0)%nat.
  - apply slice_is_substring.
  - unfold group_text. destruct (lookup_group 1 (caps fin)) as [[a b]|].
    + apply slice_is_substring.
    + apply empty_is_substring.
Qed.

Lemma extract_substring_of_normalized text s :
  In s (extract_common_pii_sequences text) -> is_substring s (normalize text).
Proof.
  unfold extract_common_pii_sequences. rewrite in_flat_map.
  intros (r & _ & H). eapply findall_substring; eassumption.
Qed.

(** C10, counterexample: the text
    john @ gmail com is normalized to john@gmail com, in which no pattern
    matches, so the scanner returns nothing for it. *)
Lemma scanner_spaced_at_example_returns_nothing :
  ~ exists s, In s (extract_common_pii_sequences "john @ gmail com")
              /\ ~ is_substring s "john @ gmail com".
Proof.
  assert (E : extract_common_pii_sequences "john @ gmail com" = [])
    by (vm_compute; reflexivity).
  rewrite E. intros (s & [] & _).
Qed.

(** C10, amended. Every string the scanner returns occurs in the
    normalized text; for the input john@ gmail com the returned string
    john@gmail.com does not occur in the input, and the substring test
    of the recorder against the chunk's text selects no box for it. *)
Theorem scanner_results_occur_in_normalized_text :
  (forall text s,
      In s (extract_common_pii_sequences text) -> is_substring s (normalize text))
  /\ (exists s, In s (extract_common_pii_sequences "john@ gmail com")
                /\ ~ is_substring s "john@ gmail com")
  /\ Redactor.pii_bounding_boxes [mangled_chunk]
       (extract_common_pii_sequences
          (PyStr.lower (Redactor.text mangled_chunk))) = [].
Proof.
  split; [exact extract_substring_of_normalized|]. split.
  - exists "john@gmail.com". split.
    + vm_compute. left. reflexivity.
    + rewrite <- contains_true. vm_compute. discriminate.
  - vm_compute. reflexivity.
Qed.

Lemma scanner_results_occur_in_normalized_text_witness :
  In "555-1234" (extract_common_pii_sequences "john  @ gmail.com 555-1234")
  /\ is_substring "555-1234" (normalize "john  @ gmail.com 555-1234").
Proof.
  assert (H : In "555-1234"
                (extract_common_pii_sequences "john  @ gmail.com 555-1234"))
    by (vm_compute; right; left; reflexivity).
  split; [exact H|].
  apply (proj1 scanner_results_occur_in_normalized_text _ _ H).
Defined.

End ScannerFacts.


(** ** The vector index store *)

Module StoreFacts.
Import Schemas Store StoreSpec.
Local Open Scope list_scope.

(** Reduce the plumbing of the state-and-exception monad. *)
Ltac run_m :=
  cbv [mbind mret M_bind M_ret bind ret raise raise_str get put modify
       set_mgr lift] in *.

Section WithServices.

Context {vector : Type}.
Variable vdim : vector -> nat.
Variable embed_text : string -> vector.
Variable fs_write : string -> io.
Variable faiss_version : string.
Variable knn : faiss_index (vector := vector) -> vector -> nat -> list Z.

Abbreviation world := (world (vector := vector)).
Abbreviation manager := (manager (vector := vector)).
Abbreviation add_text := (add_text vdim embed_text fs_write faiss_version).
Abbreviation add_texts := (add_texts vdim embed_text).
Abbreviation save_index := (save_index fs_write faiss_version).
Abbreviation create_index := (create_index fs_write faiss_version).
Abbreviation search_by_text := (search_by_text vdim embed_text knn).
Abbreviation exec := (exec vdim embed_text fs_write faiss_version knn).
Abbreviation exec_all := (exec_all vdim embed_text fs_write faiss_version knn).
Abbreviation persist_fails := (persist_fails fs_write).

Lemma disk_in_step_insert (dk : gmap string (file (vector := vector))) p f :
  disk_in_step dk -> file_in_step f -> disk_in_step (<[p := f]> dk).
Proof.
  intros Hd Hf q g. destruct (decide (p = q)) as [->|Hne].
  - rewrite lookup_insert_eq. congruence.
  - rewrite lookup_insert_ne by done. apply Hd.
Qed.

Lemma save_index_in_step (w : world) : world_in_step w -> world_in_step (snd (save_index w)).
Proof.
  destruct w as [[ix mds dm path] dk]. intros [Hm Hd]. simpl in Hm, Hd.
  unfold Store.save_index. run_m. simpl.
  destruct ix as [ix|]; [|split; simpl; assumption].
  destruct path as [path|]; [|split; simpl; assumption].
  destruct (fs_write path); simpl; split; try assumption.
  - apply disk_in_step_insert; [assumption|]. exact Hm.
  - apply disk_in_step_insert; [assumption|]. exact I.
Qed.

Lemma add_text_in_step t md (w : world) : world_in_step w -> world_in_step (snd (add_text t md w)).
Proof.
  destruct w as [[ix mds dm path] dk]. intros [Hm Hd]. simpl in Hm, Hd.
  unfold Store.add_text, index_add. run_m. simpl.
  destruct ix as [ix|]; [|split; simpl; assumption]. simpl.
  case_bool_decide; simpl; [|split; simpl; assumption].
  apply save_index_in_step. split; [|assumption].
  unfold in_step, vector_count, ntotal in *. simpl in *.
  rewrite !length_app. simpl. lia.
Qed.

(** The two inserts keep the manager in step whatever the disk holds and
    however they end. *)
Lemma add_text_keeps_in_step t md (w : world) :
  in_step (mgr w) -> in_step (mgr (snd (add_text t md w))).
Proof.
  destruct w as [[ix mds dm path] dk]. simpl. intros Hm.
  unfold Store.add_text, index_add, Store.save_index. run_m. simpl.
  destruct ix as [ix|]; [|exact Hm]. simpl.
  case_bool_decide; simpl; [|exact Hm].
  assert (H' : in_step {| index := Some {| d := d ix; vectors := vectors ix ++ [embed_text t] |};
                          metadata_store := mds ++ [md]; dim := dm;
                          current_index_file_path := path |}).
  { unfold in_step, vector_count, ntotal in *. simpl in *.
    rewrite !length_app. simpl. lia. }
  destruct path as [path|]; [|exact H'].
  destruct (fs_write path); exact H'.
Qed.

Lemma add_texts_keeps_in_step ts mds (w : world) :
  in_step (mgr w) -> in_step (mgr (snd (add_texts ts mds w))).
Proof.
  destruct w as [[ix ms dm path] dk]. simpl. intros Hm.
  unfold Store.add_texts, index_add. run_m.
  destruct (List.length ts =? List.length mds)%nat eqn:El; simpl; [|exact Hm].
  destruct (same_width vdim (map embed_text ts)); simpl; [|exact Hm].
  destruct ix as [ix|]; [|exact Hm].
  destruct (map embed_text ts) as [|e es] eqn:Ee; simpl; [exact Hm|].
  case_bool_decide; simpl; [|exact Hm].
  unfold in_step, vector_count, ntotal in *. simpl in *.
  apply Nat.eqb_eq in El.
  rewrite !length_app, <- El, <- (length_map embed_text ts), Ee. simpl. lia.
Qed.

Lemma add_texts_in_step ts mds (w : world) :
  world_in_step w -> world_in_step (snd (add_texts ts mds w)).
Proof.
  destruct w as [[ix ms dm path] dk]. intros [Hm Hd]. simpl in Hm, Hd.
  unfold Store.add_texts, index_add. run_m.
  destruct (List.length ts =? List.length mds)%nat eqn:El; simpl;
    [|split; simpl; assumption].
  destruct (same_width vdim (map embed_text ts)); simpl; [|split; simpl; assumption].
  destruct ix as [ix|]; [|split; simpl; assumption].
  destruct (map embed_text ts) as [|e es] eqn:Ee; simpl; [split; simpl; assumption|].
  case_bool_decide; simpl; [|split; simpl; assumption].
  split; [|assumption].
  unfold in_step, vector_count, ntotal in *. simpl in *.
  apply Nat.eqb_eq in El.
  rewrite !length_app, <- El, <- (length_map embed_text ts), Ee. simpl. lia.
Qed.

Lemma load_index_in_step p (w : world) :
  world_in_step w -> world_in_step (snd (load_index p w)).
Proof.
  destruct w as [[ix ms dm path] dk]. intros [Hm Hd]. simpl in Hm, Hd.
  unfold load_index, get_activities_metadata. run_m. simpl.
  destruct (dk !! with_joblib p) as [[|data]|] eqn:E; simpl;
    [split; simpl; assumption| |split; simpl; assumption].
  destruct (sd_index data) as [ix'|] eqn:Ei; simpl; [|split; simpl; assumption].
  assert (in_step {| index := Some ix'; metadata_store := default [] (sd_metadata data);
                     dim := default dm (sd_dim data);
                     current_index_file_path := Some (with_joblib p) |}).
  { specialize (Hd _ _ E). simpl in Hd. rewrite Ei in Hd. exact Hd. }
  destruct (activities_of _); split; simpl; assumption.
Qed.

Lemma create_index_in_step p (w : world) :
  world_in_step w -> world_in_step (snd (create_index p w)).
Proof.
  intros Hw. unfold Store.create_index.
  assert (Hl := load_index_in_step (with_joblib p) w Hw).
  destruct w as [[ix ms dm path] dk]. destruct Hw as [Hm Hd]. simpl in Hm, Hd.
  unfold get_activities_metadata. run_m. simpl in *.
  destruct (dk !! with_joblib p) as [f|] eqn:E.
  - destruct (load_index (with_joblib p) _) as [[e|acts] [m' dk']]; simpl in *;
      [assumption|].
    destruct Hl as [Hm' Hd'].
    destruct (activities_of _); split; simpl; assumption.
  - unfold Store.save_index. run_m. simpl.
    destruct (fs_write (with_joblib p)); simpl; split; simpl;
      try assumption; try reflexivity.
    + apply disk_in_step_insert; [assumption|]. reflexivity.
    + apply disk_in_step_insert; [assumption|]. exact I.
Qed.

Lemma search_by_text_unchanged q k (w : world) : snd (search_by_text q k w) = w.
Proof.
  unfold Store.search_by_text. run_m.
  destruct (index (mgr w)); [|reflexivity].
  case_bool_decide; [|reflexivity].
  destruct (k =? 0)%nat; [reflexivity|].
  destruct (collect_results _ _); simpl; [reflexivity|].
  destruct (validate_activities _); reflexivity.
Qed.

Lemma exec_in_step o (w : world) : world_in_step w -> world_in_step (exec o w).
Proof.
  destruct o; simpl.
  - apply create_index_in_step.
  - apply load_index_in_step.
  - apply save_index_in_step.
  - apply add_text_in_step.
  - apply add_texts_in_step.
  - rewrite search_by_text_unchanged. exact id.
Qed.

Lemma exec_all_in_step ops : forall w : world, world_in_step w -> world_in_step (exec_all ops w).
Proof.
  induction ops as [|o ops IH]; intros w Hw; [exact Hw|].
  apply IH, exec_in_step, Hw.
Qed.

(** What a successful [add_text] did. *)
Lemma add_text_ok t md (w w' : world) :
  add_text t md w = (inr tt, w') ->
  exists ix,
    index (mgr w) = Some ix
    /\ index (mgr w') = Some {| d := d ix; vectors := vectors ix ++ [embed_text t] |}
    /\ metadata_store (mgr w') = metadata_store (mgr w) ++ [md].
Proof.
  destruct w as [[ix ms dm path] dk].
  unfold Store.add_text, index_add, Store.save_index. run_m. simpl.
  destruct ix as [ix|]; [|discriminate]. simpl.
  case_bool_decide; simpl; [|discriminate].
  destruct path as [path|]; [|discriminate].
  destruct (fs_write path); simpl; try discriminate.
  intros [= <-]. exists ix. simpl. repeat split.
Qed.

(** What [add_texts] did, on each of its outcomes. *)
Lemma add_texts_outcome ts mds (w : world) r (w' : world) :
  add_texts ts mds w = (r, w') ->
  (List.length ts <> List.length mds ->
     r = inl (ValueError "texts and metadatas must have the same length.")
     /\ w' = w)
  /\ (exists n,
        vector_count (mgr w') = vector_count (mgr w) + n
        /\ List.length (metadata_store (mgr w'))
           = List.length (metadata_store (mgr w)) + n)
  /\ (r = inr tt ->
        exists ix,
          index (mgr w) = Some ix
          /\ index (mgr w')
             = Some {| d := d ix; vectors := vectors ix ++ map embed_text ts |}
          /\ metadata_store (mgr w') = metadata_store (mgr w) ++ mds).
Proof.
  destruct w as [[ix ms dm path] dk].
  unfold Store.add_texts, index_add. run_m.
  destruct (List.length ts =? List.length mds)%nat eqn:El; simpl.
  2:{ intros [= <- <-]. apply Nat.eqb_neq in El.
      split; [intros _; split; reflexivity|]. split; [|discriminate].
      exists 0. simpl. lia. }
  apply Nat.eqb_eq in El.
  assert (Hsame : forall e, (inl e, {| mgr := Build_manager ix ms dm path; disk := dk |})
                            = (r, w') ->
            ((List.length ts <> List.length mds ->
                r = inl (ValueError "texts and metadatas must have the same length.")
                /\ w' = {| mgr := Build_manager ix ms dm path; disk := dk |})
             /\ (exists n,
                   vector_count (mgr w') = vector_count (Build_manager ix ms dm path) + n
                   /\ List.length (metadata_store (mgr w')) = List.length ms + n)
             /\ (r = inr tt -> exists ix0,
                   ix = Some ix0
                   /\ index (mgr w')
                      = Some {| d := d ix0; vectors := vectors ix0 ++ map embed_text ts |}
                   /\ metadata_store (mgr w') = ms ++ mds))).
  { intros e [= <- <-]. split; [contradiction|]. split; [|discriminate].
    exists 0. simpl. lia. }
  destruct (same_width vdim (map embed_text ts)); simpl; [|apply Hsame].
  destruct ix as [ix|]; [|apply Hsame].
  destruct (map embed_text ts) as [|e es] eqn:Ee; simpl; [apply Hsame|].
  case_bool_decide; simpl; [|apply Hsame].
  intros [= <- <-]. split; [contradiction|]. split.
  - exists (List.length mds). unfold vector_count, ntotal. simpl.
    rewrite !length_app, <- El, <- (length_map embed_text ts), Ee. simpl. lia.
  - intros _. exists ix. repeat split.
Qed.

(** Labels at or beyond the end of the metadata are skipped. *)
Lemma collect_results_skips_beyond (mds : list (gmap string pyval)) idx tl :
  (Z.of_nat (List.length mds) <= idx)%Z ->
  collect_results mds (idx :: tl) = collect_results mds tl.
Proof.
  intros H. simpl. destruct (Z.ltb_spec idx (Z.of_nat (List.length mds))); [lia|].
  reflexivity.
Qed.

(** A negative label passes the bound test and is then read from the
    end of the list. *)
Lemma collect_results_reads_negative (mds : list (gmap string pyval)) idx tl :
  (idx < 0)%Z ->
  collect_results mds (idx :: tl)
  = match py_index mds idx with
    | None => inl IndexError
    | Some md =>
        match md !! "activity" with
        | None => inl (KeyError "activity")
        | Some v =>
            match collect_results mds tl with
            | inl e => inl e
            | inr vs => inr (v :: vs)
            end
        end
    end.
Proof.
  intros H. simpl. destruct (Z.ltb_spec idx (Z.of_nat (List.length mds))); [|lia].
  reflexivity.
Qed.

(** C1. The parallel arrays stay in step.  add_text and add_texts keep
    the metadata list as long as the index has vectors, however they end;
    so does every sequence of store operations, failed ones included, from
    a fresh manager over a disk whose session files are themselves in
    step.  A successful add_text has appended exactly its one vector and
    its one metadata entry; add_texts has appended equally many of each,
    all of them when it returns, and on a length mismatch it raises with
    nothing changed. *)
Theorem parallel_arrays_stay_in_step :
  (forall (w : world) t md,
      in_step (mgr w) -> in_step (mgr (snd (add_text t md w))))
  /\ (forall (w : world) ts mds,
        in_step (mgr w) -> in_step (mgr (snd (add_texts ts mds w))))
  /\ (forall dim0 (dk0 : gmap string (file (vector := vector))) ops,
        disk_in_step dk0 ->
        in_step (mgr (exec_all ops {| mgr := new_manager dim0; disk := dk0 |})))
  /\ (forall (w : world) t md w',
        add_text t md w = (inr tt, w') ->
        exists ix,
          index (mgr w) = Some ix
          /\ index (mgr w')
             = Some {| d := d ix; vectors := vectors ix ++ [embed_text t] |}
          /\ metadata_store (mgr w') = metadata_store (mgr w) ++ [md])
  /\ (forall (w : world) ts mds r w',
        add_texts ts mds w = (r, w') ->
        (List.length ts <> List.length mds ->
           r = inl (ValueError "texts and metadatas must have the same length.")
           /\ w' = w)
        /\ (exists n,
              vector_count (mgr w') = vector_count (mgr w) + n
              /\ List.length (metadata_store (mgr w'))
                 = List.length (metadata_store (mgr w)) + n)
        /\ (r = inr tt ->
              exists ix,
                index (mgr w) = Some ix
                /\ index (mgr w')
                   = Some {| d := d ix;
                             vectors := vectors ix ++ map embed_text ts |}
                /\ metadata_store (mgr w') = metadata_store (mgr w) ++ mds)).
Proof.
  split; [|split; [|split; [|split]]].
  - intros w t md. apply add_text_keeps_in_step.
  - intros w ts mds. apply add_texts_keeps_in_step.
  - intros dim0 dk0 ops Hd. apply exec_all_in_step. split; [reflexivity|exact Hd].
  - intros w t md w'. apply add_text_ok.
  - intros w ts mds r w'. apply add_texts_outcome.
Qed.

(** C3, amended. When the persist step of add_text fails, the error is
    raised and the insert stays in memory: the vector and the metadata
    entry are both appended, nothing is rolled back.  The session file
    does not receive the insert: a write that fails part way leaves a
    truncated file at the session's path, any other failure leaves the
    disk as it was. *)
Theorem add_text_persist_failure_keeps_insert (w : world) t md ix :
  index (mgr w) = Some ix ->
  vdim (embed_text t) = d ix ->
  persist_fails (mgr w) = true ->
  exists e w',
    add_text t md w = (inl e, w')
    /\ index (mgr w')
       = Some {| d := d ix; vectors := vectors ix ++ [embed_text t] |}
    /\ metadata_store (mgr w') = metadata_store (mgr w) ++ [md]
    /\ (forall p, current_index_file_path (mgr w) = Some p ->
                  fs_write p = WriteTorn ->
                  disk w' = <[p := Unreadable]> (disk w))
    /\ ((forall p, current_index_file_path (mgr w) = Some p ->
                   fs_write p <> WriteTorn) ->
        disk w' = disk w).
Proof.
  destruct w as [[ix0 ms dm path] dk]. simpl. intros -> Hdim Hp.
  unfold Store.add_text, index_add, Store.save_index. run_m. simpl.
  rewrite bool_decide_eq_true_2 by exact Hdim. simpl.
  unfold StoreSpec.persist_fails in Hp. simpl in Hp.
  destruct path as [path|].
  2:{ eexists _, _. split; [reflexivity|]. split; [reflexivity|].
      split; [reflexivity|]. split; [intros p [=]|reflexivity]. }
  destruct (fs_write path) eqn:Ew; [discriminate| |]; simpl;
    eexists _, _; (split; [reflexivity|]); (split; [reflexivity|]);
    (split; [reflexivity|]); split; simpl.
  - intros p [= <-] Hp'. rewrite Ew in Hp'. discriminate.
  - reflexivity.
  - intros p [= <-] _. reflexivity.
  - intros Hno. destruct (Hno path eq_refl Ew).
Qed.

(** C4. Without a loaded index add_text raises (the TypeError that
    Python raises for a [raise] of a string, which is what the source
    writes at this guard) and leaves the manager, its metadata store
    included, and the disk as they were. *)
Theorem add_text_without_index_raises (w : world) t md :
  index (mgr w) = None ->
  add_text t md w
  = (inl (TypeError "exceptions must derive from BaseException"), w)
  /\ metadata_store (mgr (snd (add_text t md w))) = metadata_store (mgr w).
Proof.
  intros H. unfold Store.add_text. run_m. rewrite H. split; reflexivity.
Qed.

End WithServices.

Import Fixtures.

(** A disk without files is well-formed. *)
Lemma empty_disk_in_step : disk_in_step (vector := list Z) ∅.
Proof. intros p f H. rewrite lookup_empty in H. discriminate. Qed.

Lemma parallel_arrays_stay_in_step_witness :
  disk_in_step (vector := list Z) ∅
  /\ in_step (mgr (StoreSpec.exec_all width embed_const always_ok "1.7.4" padded_labels
                     [OpCreateIndex "s";
                      OpAddText "editor" (activity_metadata (Application editor));
                      OpAddTexts ["a"; "b"] [∅];
                      OpAddTexts ["a"; "b"] [∅; ∅];
                      OpLoadIndex "missing"]
                     {| mgr := new_manager 2; disk := ∅ |}))
  /\ in_step (mgr (snd (Store.add_text width embed_const always_denied "1.7.4"
                          "editor" (activity_metadata (Application editor))
                          empty_session))).
Proof.
  destruct (parallel_arrays_stay_in_step width embed_const always_ok "1.7.4"
              padded_labels) as (_ & _ & Hall & _).
  destruct (parallel_arrays_stay_in_step width embed_const always_denied "1.7.4"
              padded_labels) as (Hadd & _).
  split; [exact empty_disk_in_step|]. split.
  - apply Hall. exact empty_disk_in_step.
  - apply Hadd. reflexivity.
Defined.

(** C3, counterexample: with a disk that refuses the write, add_text on a
    loaded empty session raises and the manager is not what it was
    before the call. *)
Lemma add_text_persist_failure_not_rolled_back :
  ~ (forall e w',
       Store.add_text width embed_const always_denied "1.7.4" "editor"
         (activity_metadata (Application editor)) empty_session = (inl e, w') ->
       mgr w' = mgr empty_session).
Proof.
  intros H.
  specialize (H (OSError "s.joblib")
                {| mgr := {| index := Some {| d := 2; vectors := [[0%Z; 0%Z]] |};
                             metadata_store := [activity_metadata (Application editor)];
                             dim := 2;
                             current_index_file_path := Some "s.joblib" |};
                   disk := ∅ |} eq_refl).
  apply (f_equal (fun m => List.length (metadata_store m))) in H.
  discriminate H.
Qed.

Lemma add_text_persist_failure_keeps_insert_witness :
  exists e w',
    Store.add_text width embed_const always_denied "1.7.4" "editor"
      (activity_metadata (Application editor)) empty_session = (inl e, w')
    /\ index (mgr w') = Some {| d := 2; vectors := [] ++ [embed_const "editor"] |}
    /\ metadata_store (mgr w') = [] ++ [activity_metadata (Application editor)]
    /\ disk w' = disk empty_session.
Proof.
  destruct (add_text_persist_failure_keeps_insert width embed_const always_denied
              "1.7.4" empty_session "editor"
              (activity_metadata (Application editor))
              {| d := 2; vectors := [] |} eq_refl eq_refl eq_refl)
    as (e & w' & E & Hi & Hm & _ & Hd).
  exists e, w'. split; [exact E|]. split; [exact Hi|]. split; [exact Hm|].
  apply Hd. intros p _. discriminate.
Defined.

Lemma add_text_without_index_raises_witness :
  Store.add_text width embed_const always_ok "1.7.4" "editor"
    (activity_metadata (Application editor))
    {| mgr := new_manager 2; disk := ∅ |}
  = (inl (TypeError "exceptions must derive from BaseException"),
     {| mgr := new_manager 2; disk := ∅ |}).
Proof.
  apply (add_text_without_index_raises width embed_const always_ok "1.7.4"
           {| mgr := new_manager 2; disk := ∅ |}). reflexivity.
Defined.

(** C5. A label of -1, which the search returns for a neighbour that does
    not exist, is not skipped.  With one stored activity and two
    neighbours asked for, the labels are 0 and -1 and the activity is
    returned twice, the second time read from the end of the list; in an
    empty session the same label raises IndexError. *)
Theorem search_negative_label_not_skipped :
  Store.search_by_text width embed_const padded_labels "editor" 2 one_entry_session
  = (inr [Application editor; Application editor], one_entry_session)
  /\ Store.search_by_text width embed_const padded_labels "editor" 1 empty_session
     = (inl IndexError, empty_session).
Proof. split; vm_compute; reflexivity. Qed.

End StoreFacts.

(** ** The scheduler *)

Module SchedulerFacts.
Import Schemas Store Scheduler SchedulerSpec.
Local Open Scope list_scope.

Ltac run_s :=
  cbv [mbind mret M_bind M_ret bind ret raise raise_str get put modify
       set_mgr lift on_store try_reraise set_session_activites
       start_recording stop_recording] in *.

Section WithServices.

Context {vector : Type}.
Variable vdim : vector -> nat.
Variable embed_text : string -> vector.
Variable fs_write : string -> io.
Variable faiss_version : string.
Variable extract_keywords : string -> string.
Variable app_poll_interval_seconds : Z.

Abbreviation manager_state := (manager_state (vector := vector)).
Abbreviation app_pass :=
  (app_pass vdim embed_text fs_write faiss_version extract_keywords
     app_poll_interval_seconds).
Abbreviation _record_app_activity :=
  (_record_app_activity vdim embed_text fs_write faiss_version extract_keywords
     app_poll_interval_seconds).
Abbreviation observed_activity := (observed_activity extract_keywords).

(** A failed switch away from an active recording ends with the
    recording active again, both threads running. *)
Lemma load_session_failure_resumes_recording (a : manager_state) p e a' :
  is_active (state a) = true ->
  load_session p a = (inl e, a') ->
  is_active (state a') = true
  /\ stop_event a' = false
  /\ screen_thread a' = Some true
  /\ app_thread a' = Some true.
Proof.
  intros Ha. unfold load_session. run_s. repeat (rewrite Ha; simpl).
  match goal with
  | |- context [load_index ?q ?w] => destruct (load_index q w) as [[e0|acts] w']
  end; simpl.
  - intros [= <- <-]. simpl. repeat split.
  - discriminate.
Qed.

(** When the file is missing, unreadable or has no index, the store is
    left as it was. *)
Lemma load_index_early_failure_unchanged p (w : world (vector := vector)) :
  match disk w !! with_joblib p with
  | None | Some Unreadable => True
  | Some (Pickle data) => sd_index data = None
  end ->
  exists e, load_index p w = (inl e, w).
Proof.
  unfold load_index. run_s.
  destruct (disk w !! with_joblib p) as [[|data]|]; intros H;
    [eexists; reflexivity| |eexists; reflexivity].
  rewrite H. eexists; reflexivity.
Qed.

(** A pass that observes the window of the last inserted activity
    inserts nothing. *)
Lemma app_pass_same_window (a : manager_state) tk l :
  last_app_activity a = Some l ->
  window_pair tk = activity_pair l ->
  exists a',
    app_pass tk a = (inr tt, a')
    /\ faiss_index_manager a' = faiss_index_manager a
    /\ last_app_activity a' = Some l
    /\ stop_event a' = stop_event a.
Proof.
  intros Hl [= Hn Ht].
  unfold Scheduler.app_pass, record_activity, insert_if_changed. run_s.
  destruct (_ <=? _)%Z.
  - simpl. rewrite Hl. unfold differs. simpl. rewrite Hn, Ht, !String.eqb_refl.
    simpl. eexists. repeat split; simpl; try assumption; reflexivity.
  - eexists. repeat split; simpl; try assumption; reflexivity.
Qed.

(** Passes that all observe the window of the last inserted activity
    leave the store as it is. *)
Lemma same_window_run_unchanged ticks : forall (a : manager_state) l,
  last_app_activity a = Some l ->
  (forall tk, In tk ticks -> window_pair tk = activity_pair l) ->
  faiss_index_manager (_record_app_activity ticks a) = faiss_index_manager a.
Proof.
  induction ticks as [|tk ticks IH]; intros a l Hl Hall; [reflexivity|].
  simpl. destruct (stop_event a); [reflexivity|].
  destruct (app_pass_same_window a tk l Hl (Hall tk (or_introl eq_refl)))
    as (a' & -> & Hf & Hl' & _).
  rewrite <- Hf. apply (IH a' l Hl').
  intros tk' Hin. apply Hall. right. exact Hin.
Qed.

(** Once the index accepts the vector, [add_text] has appended both
    the vector and the metadata entry, whatever the persist step
    does. *)
Lemma add_text_appends (w : world (vector := vector)) t md ix r w' :
  index (mgr w) = Some ix ->
  vdim (embed_text t) = d ix ->
  add_text vdim embed_text fs_write faiss_version t md w = (r, w') ->
  index (mgr w') = Some {| d := d ix; vectors := vectors ix ++ [embed_text t] |}
  /\ metadata_store (mgr w') = metadata_store (mgr w) ++ [md].
Proof.
  destruct w as [[ix0 ms dm path] dk]. simpl. intros -> Hdim.
  unfold add_text, index_add, save_index. run_s. simpl.
  rewrite bool_decide_eq_true_2 by exact Hdim. simpl.
  destruct path as [path|]; [|intros [= <- <-]; split; reflexivity].
  destruct (fs_write path); simpl; intros [= <- <-]; split; reflexivity.
Qed.

(** The test of the poller is the comparison of the two pairs. *)
Lemma differs_true last (act : ApplicationActivity) :
  (forall l, last = Some l -> activity_pair act <> activity_pair l) ->
  differs last act = true.
Proof.
  intros H. destruct last as [l|]; [|reflexivity]. simpl.
  specialize (H l eq_refl). unfold activity_pair in H.
  destruct (String.eqb_spec (app_name act) (app_name l)) as [En|]; [|reflexivity].
  destruct (String.eqb_spec (window_title act) (window_title l)) as [Et|];
    [|reflexivity].
  exfalso. apply H. congruence.
Qed.

(** [record_activity] returns the observed activity and touches only
    the recorder's own attributes. *)
Lemma record_activity_returns (a : manager_state) tk :
  exists a1,
    record_activity extract_keywords (observed tk) (record_time tk) a
    = (inr (observed_activity (app_activity_recorder a) tk), a1)
    /\ faiss_index_manager a1 = faiss_index_manager a
    /\ last_app_activity a1 = last_app_activity a
    /\ state a1 = state a
    /\ app_thread a1 = app_thread a
    /\ screen_thread a1 = screen_thread a.
Proof.
  unfold record_activity. run_s. eexists. split.
  - apply f_equal2; [apply f_equal|reflexivity].
    unfold SchedulerSpec.observed_activity. f_equal.
    destruct (last_window (app_activity_recorder a)) as [lw|]; [|reflexivity].
    destruct (bool_decide _); reflexivity.
  - repeat split.
Qed.

(** The locked block, for an activity that passes the test. *)
Lemma insert_if_changed_new (a : manager_state) act sw ix :
  differs (last_app_activity a) act = true ->
  index (mgr (faiss_index_manager a)) = Some ix ->
  vdim (embed_text (app_keywords act)) = d ix ->
  exists r a',
    insert_if_changed vdim embed_text fs_write faiss_version act sw a = (r, a')
    /\ index (mgr (faiss_index_manager a'))
       = Some {| d := d ix;
                 vectors := vectors ix ++ [embed_text (app_keywords act)] |}
    /\ metadata_store (mgr (faiss_index_manager a'))
       = metadata_store (mgr (faiss_index_manager a)) ++
         [activity_metadata (Application act)]
    /\ state a' = state a
    /\ (forall b, r = inr b -> last_app_activity a' = Some act).
Proof.
  intros Hd Hix Hdim.
  unfold insert_if_changed, get_activities_metadata. run_s. rewrite Hd.
  destruct (add_text vdim embed_text fs_write faiss_version (app_keywords act)
              (activity_metadata (Application act)) (faiss_index_manager a))
    as [[e|[]] w'] eqn:E;
    destruct (add_text_appends _ _ _ _ _ _ Hix Hdim E) as [Hi Hm]; simpl.
  - eexists _, _. split; [reflexivity|]. simpl. repeat split; try assumption.
    discriminate.
  - destruct (activities_of (metadata_store (mgr w'))); simpl.
    + eexists _, _. split; [reflexivity|]. simpl. repeat split; try assumption.
      discriminate.
    + eexists _, _. split; [reflexivity|]. simpl. repeat split; assumption.
Qed.

(** A due pass that observes a window other than the last inserted one
    appends one entry; when the pass returns, that activity is the last
    inserted one. *)
Lemma app_pass_new_window (a : manager_state) tk ix :
  (app_poll_interval_seconds <= current_time tk - last_app_time (state a))%Z ->
  (forall l, last_app_activity a = Some l -> window_pair tk <> activity_pair l) ->
  index (mgr (faiss_index_manager a)) = Some ix ->
  vdim (embed_text (app_keywords (observed_activity (app_activity_recorder a) tk)))
  = d ix ->
  exists r a',
    app_pass tk a = (r, a')
    /\ index (mgr (faiss_index_manager a'))
       = Some {| d := d ix;
                 vectors := vectors ix ++
                   [embed_text (app_keywords
                      (observed_activity (app_activity_recorder a) tk))] |}
    /\ metadata_store (mgr (faiss_index_manager a'))
       = metadata_store (mgr (faiss_index_manager a)) ++
         [activity_metadata
            (Application (observed_activity (app_activity_recorder a) tk))]
    /\ (r = inr tt ->
        last_app_activity a'
        = Some (observed_activity (app_activity_recorder a) tk)).
Proof.
  intros Hgate Hnew Hix Hdim.
  destruct (record_activity_returns a tk) as (a1 & E1 & Hf1 & Hl1 & Hs1 & Ha1 & Hc1).
  assert (Hd : differs (last_app_activity a1)
                 (observed_activity (app_activity_recorder a) tk) = true).
  { rewrite Hl1. apply differs_true. intros l Hl. apply (Hnew l Hl). }
  rewrite <- Hf1 in Hix.
  destruct (insert_if_changed_new a1 _ (switch_time tk) ix Hd Hix Hdim)
    as (r2 & a2 & E2 & Hi & Hm & Hs2 & Hlast).
  unfold Scheduler.app_pass. run_s.
  destruct (Z.leb_spec app_poll_interval_seconds
              (current_time tk - last_app_time (state a))) as [_|]; [|lia].
  rewrite E1, E2. rewrite Hf1 in Hm.
  destruct r2 as [e|b]; eexists _, _; (split; [reflexivity|]); simpl;
    repeat split; try assumption.
  - discriminate.
  - intros _. apply (Hlast b). reflexivity.
Qed.

(** While no index is loaded, a due pass that observes a new window
    fails in [add_text]; the loop catches the exception and only this
    thread ends: the store is as it was and the recording state is still
    active. *)
Lemma app_poller_stops_without_index (a : manager_state) tk ticks :
  stop_event a = false ->
  last_app_activity a = None ->
  (app_poll_interval_seconds <= current_time tk - last_app_time (state a))%Z ->
  index (mgr (faiss_index_manager a)) = None ->
  let a' := _record_app_activity (tk :: ticks) a in
  faiss_index_manager a' = faiss_index_manager a
  /\ app_thread a' = (fun _ => false) <$> app_thread a
  /\ screen_thread a' = screen_thread a
  /\ state a' = state a.
Proof.
  intros Hstop Hlast Hgate Hix. simpl. rewrite Hstop.
  destruct (record_activity_returns a tk) as (a1 & E1 & Hf1 & Hl1 & Hs1 & Ha1 & Hc1).
  unfold Scheduler.app_pass, insert_if_changed, add_text. run_s.
  destruct (Z.leb_spec app_poll_interval_seconds
              (current_time tk - last_app_time (state a))) as [_|]; [|lia].
  rewrite E1, Hl1, Hlast. simpl. rewrite Hf1, Hix. simpl.
  destruct a1; simpl in *. subst. repeat split.
Qed.

(** C9. Duplicate suppression in the application poller.  Over a run of
    passes that all observe the same window: if that window is the one
    of the last inserted activity, nothing is inserted; if it is not,
    and the first pass is due and the index takes the vector, exactly
    one activity is appended, the one recorded on the first pass. *)
Theorem app_poller_inserts_once_per_window (a : manager_state) tk ticks :
  stop_event a = false ->
  (forall t, In t ticks -> window_pair t = window_pair tk) ->
  let act := observed_activity (app_activity_recorder a) tk in
  let a' := _record_app_activity (tk :: ticks) a in
  (forall l,
      last_app_activity a = Some l -> window_pair tk = activity_pair l ->
      faiss_index_manager a' = faiss_index_manager a)
  /\ (forall ix,
        (forall l, last_app_activity a = Some l ->
                   window_pair tk <> activity_pair l) ->
        (app_poll_interval_seconds
         <= current_time tk - last_app_time (state a))%Z ->
        index (mgr (faiss_index_manager a)) = Some ix ->
        vdim (embed_text (app_keywords act)) = d ix ->
        metadata_store (mgr (faiss_index_manager a'))
        = metadata_store (mgr (faiss_index_manager a)) ++
          [activity_metadata (Application act)]
        /\ index (mgr (faiss_index_manager a'))
           = Some {| d := d ix;
                     vectors := vectors ix ++ [embed_text (app_keywords act)] |}).
Proof.
  intros Hstop Hrun act a'. split.
  - intros l Hl Hsame. subst a'.
    apply (same_window_run_unchanged (tk :: ticks) a l Hl).
    intros t [<-|Hin]; [exact Hsame|]. rewrite (Hrun t Hin). exact Hsame.
  - intros ix Hnew Hgate Hix Hdim. subst a'. simpl. rewrite Hstop.
    destruct (app_pass_new_window a tk ix Hgate Hnew Hix Hdim)
      as (r & a1 & -> & Hi & Hm & Hlast).
    destruct r as [e|[]].
    + simpl. split; assumption.
    + specialize (Hlast eq_refl).
      rewrite (same_window_run_unchanged ticks a1 act Hlast).
      * split; assumption.
      * intros t Hin. rewrite (Hrun t Hin). reflexivity.
Qed.

End WithServices.

Import Fixtures StoreSpec.

Lemma app_poller_inserts_once_per_window_witness :
  stop_event started_manager = false
  /\ metadata_store
       (mgr (faiss_index_manager
          (Scheduler._record_app_activity width embed_const always_ok "1.7.4"
             keywords_id 1
             [editor_tick 50; editor_tick 51; editor_tick 52] started_manager)))
     = [] ++ [activity_metadata
                (Application (SchedulerSpec.observed_activity keywords_id
                   (app_activity_recorder started_manager) (editor_tick 50)))].
Proof.
  split; [reflexivity|].
  apply (app_poller_inserts_once_per_window width embed_const always_ok "1.7.4"
           keywords_id 1 started_manager (editor_tick 50)
           [editor_tick 51; editor_tick 52] eq_refl)
    with (ix := {| d := 2; vectors := [] |}).
  - intros t [<-|[<-|[]]]; reflexivity.
  - intros l Hl. discriminate Hl.
  - vm_compute. discriminate.
  - reflexivity.
  - reflexivity.
Defined.

(** The session file without its ['activity'] key is one that the store
    itself writes: a batch insert of a bare dict followed by a save. *)
Lemma keyless_session_written_by_store :
  disk (exec_all width embed_const always_ok "1.7.4" padded_labels
          [OpCreateIndex "bad"; OpAddTexts ["x"] [∅]; OpSaveIndex]
          {| mgr := new_manager 2; disk := ∅ |})
  = disk_with_keyless.
Proof. vm_compute. reflexivity. Qed.

(** C2. A switch that fails after the file was read does not keep the
    previous session.  Loading the session whose metadata entry lacks the
    ['activity'] key raises KeyError from [get_activities_metadata], after
    [load_index] has already replaced index, metadata and path; recording
    is resumed, but over the newly loaded index, while the snapshot of
    the session's activities is still the old one. *)
Theorem failed_switch_leaves_new_session_loaded :
  let before := recording_manager in
  let out := load_session "bad" before in
  fst out = inl (KeyError "activity")
  /\ is_active (state (snd out)) = true
  /\ mgr (faiss_index_manager (snd out))
     = {| index := sd_index keyless_session;
          metadata_store := [∅];
          dim := 2;
          current_index_file_path := Some "bad.joblib" |}
  /\ mgr (faiss_index_manager (snd out)) <> mgr (faiss_index_manager before)
  /\ session_activites (snd out) = session_activites before.
Proof.
  cbv zeta. repeat split; try (vm_compute; reflexivity).
  intros H. apply (f_equal current_index_file_path) in H.
  vm_compute in H. discriminate H.
Qed.

End SchedulerFacts.

(** ** The redactor *)

Module RedactorFacts.
Import Redactor PyStrFacts.
Local Open Scope list_scope.

Lemma zmin_nonempty (xs : list Z) : xs <> [] -> exists m, zmin xs = Some m.
Proof. destruct xs; [contradiction|]. intros _. eexists. reflexivity. Qed.

Lemma zmax_nonempty (xs : list Z) : xs <> [] -> exists m, zmax xs = Some m.
Proof. destruct xs; [contradiction|]. intros _. eexists. reflexivity. Qed.

Lemma map_nonempty {A B} (f : A -> B) (l : list A) : l <> [] -> map f l <> [].
Proof. destruct l; [intros H; exfalso; apply H; reflexivity|discriminate]. Qed.

Lemma deref_found (h : heap) l im : h !! l = Some im -> deref l h = (inr im, h).
Proof. intros H. unfold deref. rewrite H. reflexivity. Qed.

Lemma lookup_fresh (h : heap) im : (h ++ [im]) !! List.length h = Some im.
Proof. apply list_lookup_middle. reflexivity. Qed.

Lemma lookup_old (h : heap) im k x : h !! k = Some x -> (h ++ [im]) !! k = Some x.
Proof. intros H. apply lookup_app_l_Some. exact H. Qed.

(** Every box selected for blurring belongs to a chunk whose text
    contains one of the sequences when case is ignored. *)
Lemma pii_bounding_boxes_selected chunks sequences bbox :
  In bbox (pii_bounding_boxes chunks sequences) ->
  exists c f,
    In c chunks /\ In f sequences
    /\ contains_nocase f (text c) = true
    /\ text_bounding_box c = bbox.
Proof.
  unfold pii_bounding_boxes. rewrite in_flat_map.
  intros (c & Hc & H). rewrite in_flat_map in H. destruct H as (f & Hf & H).
  destruct (PyStr.contains f (PyStr.lower (text c))) eqn:E; [|destruct H].
  destruct H as [<-|[]]. exists c, f. repeat split; try assumption.
  apply contains_lower_nocase. exact E.
Qed.

Lemma bind_step {S A B} (m : M S A) (f : A -> M S B) s a s' :
  m s = (inr a, s') -> (m ≫= f) s = f a s'.
Proof. intros H. unfold mbind, M_bind, bind. rewrite H. reflexivity. Qed.

Lemma alloc_runs (h : heap) im : alloc im h = (inr (List.length h), h ++ [im]).
Proof. reflexivity. Qed.

Lemma crop_runs (h : heap) l im x0 y0 x1 y1 :
  h !! l = Some im ->
  crop l x0 y0 x1 y1 h = (inr (List.length h), h ++ [cropped im x0 y0 x1 y1]).
Proof.
  intros H. unfold crop. rewrite (bind_step _ _ _ _ _ (deref_found _ _ _ H)).
  reflexivity.
Qed.

Lemma convert_rgba_runs (h : heap) l im :
  h !! l = Some im ->
  convert_rgba l h = (inr (List.length h), h ++ [converted im]).
Proof.
  intros H. unfold convert_rgba.
  rewrite (bind_step _ _ _ _ _ (deref_found _ _ _ H)). reflexivity.
Qed.

Section WithPIL.

Variable gaussian_blur : Z -> image -> image.
Variable polygon_covers : list (Z * Z) -> Z -> Z -> bool.
Variable blend : Z -> pixel -> pixel -> pixel.

Abbreviation blur_one := (blur_one gaussian_blur polygon_covers blend).
Abbreviation blur_all := (blur_all gaussian_blur polygon_covers blend).
Abbreviation blur_regions_with_bboxs :=
  (blur_regions_with_bboxs gaussian_blur polygon_covers blend).
Abbreviation redact := (redact gaussian_blur polygon_covers blend).
Abbreviation in_polygon := (in_polygon polygon_covers).

Lemma filter_blur_runs (h : heap) l im r :
  h !! l = Some im ->
  filter_blur gaussian_blur l r h
  = (inr (List.length h), h ++ [gaussian_blur r im]).
Proof.
  intros H. unfold filter_blur.
  rewrite (bind_step _ _ _ _ _ (deref_found _ _ _ H)). reflexivity.
Qed.

Lemma draw_polygon_runs (h : heap) l im pts :
  h !! l = Some im ->
  draw_polygon polygon_covers l pts h
  = (inr tt, <[l := with_polygon polygon_covers im pts]> h).
Proof.
  intros H. unfold draw_polygon.
  rewrite (bind_step _ _ _ _ _ (deref_found _ _ _ H)). reflexivity.
Qed.

Lemma paste_runs (h : heap) dst src mask d s m x0 y0 :
  h !! dst = Some d -> h !! src = Some s -> h !! mask = Some m ->
  im_width s = im_width m /\ im_height s = im_height m ->
  paste blend dst src x0 y0 mask h
  = (inr tt, <[dst := pasted blend d s m x0 y0]> h).
Proof.
  intros Hd Hs Hm [Ew Eh]. unfold paste.
  rewrite (bind_step _ _ _ _ _ (deref_found _ _ _ Hd)).
  rewrite (bind_step _ _ _ _ _ (deref_found _ _ _ Hs)).
  rewrite (bind_step _ _ _ _ _ (deref_found _ _ _ Hm)).
  rewrite Ew, Eh, !Z.eqb_refl. reflexivity.
Qed.

(** One box: the working copy changes only inside the painted polygon,
    every other image that existed stays as it was, and images are only
    ever added. *)
Lemma blur_one_frame (h : heap) img cur r bbox :
  h !! img = Some cur ->
  bbox <> [] ->
  exists h' cur',
    blur_one img r bbox h = (inr tt, h')
    /\ h' !! img = Some cur'
    /\ im_mode cur' = im_mode cur
    /\ im_width cur' = im_width cur
    /\ im_height cur' = im_height cur
    /\ (forall k x, k <> img -> h !! k = Some x -> h' !! k = Some x)
    /\ (forall x y, px cur' x y <> px cur x y -> in_polygon bbox x y = true).
Proof.
  intros Himg Hne.
  destruct (zmin_nonempty (map fst bbox)) as [min_x Exn];
    [apply map_nonempty, Hne|].
  destruct (zmax_nonempty (map fst bbox)) as [max_x Exx];
    [apply map_nonempty, Hne|].
  destruct (zmin_nonempty (map snd bbox)) as [min_y Eyn];
    [apply map_nonempty, Hne|].
  destruct (zmax_nonempty (map snd bbox)) as [max_y Eyx];
    [apply map_nonempty, Hne|].
  unfold Redactor.blur_one. rewrite Exn, Exx, Eyn, Eyx.
  destruct ((max_x <=? min_x)%Z || (max_y <=? min_y)%Z).
  { exists h, cur. repeat split; auto; intros; congruence. }
  set (pts := map (fun p : Z * Z => ((p.1 - min_x)%Z, (p.2 - min_y)%Z)) bbox).
  set (c := cropped cur min_x min_y max_x max_y).
  set (b := gaussian_blur r c).
  set (m0 := blank_mask (im_width b) (im_height b)).
  set (m1 := with_polygon polygon_covers m0 pts).
  set (h1 := h ++ [c]). set (h2 := h1 ++ [b]). set (h3 := h2 ++ [m0]).
  set (h4 := <[List.length h2 := m1]> h3).
  set (cur' := pasted blend cur b m1 min_x min_y).
  assert (Li : img < List.length h) by (eapply lookup_lt_Some; exact Himg).
  assert (L1 : List.length h1 = S (List.length h))
    by (subst h1; rewrite length_app; simpl; lia).
  assert (L2 : List.length h2 = S (List.length h1))
    by (subst h2; rewrite length_app; simpl; lia).
  assert (L3 : List.length h3 = S (List.length h2))
    by (subst h3; rewrite length_app; simpl; lia).
  assert (Hold : forall k x, h !! k = Some x -> h4 !! k = Some x).
  { intros k x Hk. assert (k < List.length h) by (eapply lookup_lt_Some; exact Hk).
    subst h4. rewrite list_lookup_insert_ne by lia.
    subst h3 h2 h1. do 3 apply lookup_old. exact Hk. }
  assert (Hb : h4 !! List.length h1 = Some b).
  { subst h4. rewrite list_lookup_insert_ne by lia.
    subst h3. apply lookup_old. subst h2. apply lookup_fresh. }
  assert (Hm : h4 !! List.length h2 = Some m1).
  { subst h4. apply list_lookup_insert_eq. lia. }
  exists (<[img := cur']> h4), cur'.
  split; [|split; [|split; [|split; [|split; [|split]]]]].
  - rewrite (bind_step _ _ _ _ _ (crop_runs _ _ _ _ _ _ _ Himg)).
    fold c h1.
    rewrite (bind_step _ _ _ _ _ (filter_blur_runs _ _ _ r (lookup_fresh h c))).
    fold b h1 h2.
    rewrite (bind_step _ _ _ _ _ (deref_found _ _ _ (lookup_fresh h1 b))).
    fold h2. unfold new_mask.
    rewrite (bind_step _ _ _ _ _ (alloc_runs _ _)). fold m0 h3.
    rewrite (bind_step _ _ _ _ _
               (draw_polygon_runs _ _ _ pts (lookup_fresh h2 m0))).
    fold pts m1 h4.
    apply paste_runs; try assumption.
    + apply Hold. exact Himg.
    + split; reflexivity.
  - apply list_lookup_insert_eq. subst h4. rewrite length_insert. lia.
  - reflexivity.
  - reflexivity.
  - reflexivity.
  - intros k x Hk Hx. unfold heap.
    rewrite list_lookup_insert_ne by (intros E; apply Hk; symmetry; exact E).
    apply Hold. exact Hx.
  - intros x y Hpx. unfold Redactor.in_polygon. rewrite Exn, Eyn. fold pts.
    destruct (polygon_covers pts (x - min_x) (y - min_y)) eqn:Ec; [reflexivity|].
    exfalso. apply Hpx. subst cur'. unfold pasted. simpl.
    rewrite Ec, andb_false_r.
    destruct (in_bounds cur x y && in_bounds b (x - min_x) (y - min_y));
      reflexivity.
Qed.

(** All boxes: a pixel of the working copy that changed lies in the
    painted polygon of one of them. *)
Lemma blur_all_frame r bboxes : forall (h : heap) img cur,
  h !! img = Some cur ->
  (forall bbox, In bbox bboxes -> bbox <> []) ->
  exists h' cur',
    blur_all img r bboxes h = (inr tt, h')
    /\ h' !! img = Some cur'
    /\ im_mode cur' = im_mode cur
    /\ im_width cur' = im_width cur
    /\ im_height cur' = im_height cur
    /\ (forall k x, k <> img -> h !! k = Some x -> h' !! k = Some x)
    /\ (forall x y, px cur' x y <> px cur x y ->
          exists bbox, In bbox bboxes /\ in_polygon bbox x y = true).
Proof.
  induction bboxes as [|bbox tl IH]; intros h img cur Himg Hne.
  - exists h, cur. repeat split; auto. intros x y H. congruence.
  - destruct (blur_one_frame h img cur r bbox Himg (Hne bbox (or_introl eq_refl)))
      as (h1 & cur1 & E1 & Himg1 & Hm1 & Hw1 & Hh1 & Hold1 & Hpx1).
    destruct (IH h1 img cur1 Himg1 (fun b Hb => Hne b (or_intror Hb)))
      as (h2 & cur2 & E2 & Himg2 & Hm2 & Hw2 & Hh2 & Hold2 & Hpx2).
    exists h2, cur2. split; [|split; [|split; [|split; [|split; [|split]]]]].
    + simpl. rewrite (bind_step _ _ _ _ _ E1). exact E2.
    + exact Himg2.
    + congruence.
    + congruence.
    + congruence.
    + intros k x Hk Hx. apply Hold2; [exact Hk|]. apply Hold1; assumption.
    + intros x y Hpx.
      destruct (decide (px cur2 x y = px cur1 x y)) as [Eq|Hd].
      * exists bbox. split; [left; reflexivity|]. apply Hpx1. congruence.
      * destruct (Hpx2 x y Hd) as (b' & Hin & Hp). exists b'.
        split; [right; exact Hin|exact Hp].
Qed.

(** C6. The frame of the redaction step.  For a screenshot [l] in the heap
    and chunks with non-empty boxes, the step returns a new image object:
    every image that existed before, the screenshot included, is left as
    it was; the new image has the screenshot's size, and each of its pixels
    that is not the screenshot's pixel (in RGBA) lies in the painted polygon
    of a chunk whose text contains one of the fragments, case ignored. *)
Theorem redaction_changes_only_flagged_polygons (h : heap) l orig chunks fragments :
  h !! l = Some orig ->
  (forall c, In c chunks -> text_bounding_box c <> []) ->
  exists l' out h',
    redact l chunks fragments h = (inr l', h')
    /\ l' <> l
    /\ (forall k im, h !! k = Some im -> h' !! k = Some im)
    /\ h' !! l' = Some out
    /\ im_width out = im_width orig
    /\ im_height out = im_height orig
    /\ (forall x y,
          px out x y <> to_rgba (im_mode orig) (px orig x y) ->
          exists c f,
            In c chunks /\ In f fragments
            /\ contains_nocase f (text c) = true
            /\ in_polygon (text_bounding_box c) x y = true).
Proof.
  intros Hl Hne.
  assert (Ll : l < List.length h) by (eapply lookup_lt_Some; exact Hl).
  set (bboxes := pii_bounding_boxes chunks fragments).
  assert (Hb : forall bbox, In bbox bboxes -> bbox <> []).
  { intros bbox Hin.
    destruct (pii_bounding_boxes_selected _ _ _ Hin) as (c & f & Hc & _ & _ & <-).
    apply Hne, Hc. }
  destruct (blur_all_frame 8 bboxes (h ++ [converted orig]) (List.length h)
              (converted orig) (lookup_fresh h _) Hb)
    as (h' & out & E & Hout & _ & Hw & Hh & Hold & Hpx).
  exists (List.length h), out, h'.
  split; [|split; [|split; [|split; [|split; [|split]]]]].
  - unfold Redactor.redact, Redactor.blur_regions_with_bboxs. fold bboxes.
    rewrite (bind_step _ _ _ _ _ (convert_rgba_runs _ _ _ Hl)).
    rewrite (bind_step _ _ _ _ _ E). reflexivity.
  - lia.
  - intros k im Hk.
    assert (k < List.length h) by (eapply lookup_lt_Some; exact Hk).
    apply Hold; [lia|]. apply lookup_old. exact Hk.
  - exact Hout.
  - exact Hw.
  - exact Hh.
  - intros x y Hd. destruct (Hpx x y Hd) as (bbox & Hin & Hp).
    destruct (pii_bounding_boxes_selected _ _ _ Hin) as (c & f & Hc & Hf & Hm & <-).
    exists c, f. repeat split; assumption.
Qed.

End WithPIL.

Import Fixtures.

Lemma redaction_changes_only_flagged_polygons_witness :
  [shot] !! 0 = Some shot
  /\ (forall c, In c [name_chunk; plain_chunk] -> text_bounding_box c <> [])
  /\ exists l' out h',
       Redactor.redact blur_grey rect_covers blend_source 0
         [name_chunk; plain_chunk] ["john"] [shot] = (inr l', h')
       /\ l' <> 0
       /\ h' !! 0 = Some shot
       /\ h' !! l' = Some out
       /\ im_width out = 100%Z.
Proof.
  assert (H1 : [shot] !! 0 = Some shot) by reflexivity.
  assert (H2 : forall c, In c [name_chunk; plain_chunk] -> text_bounding_box c <> []).
  { intros c [<-|[<-|[]]]; discriminate. }
  split; [exact H1|]. split; [exact H2|].
  destruct (redaction_changes_only_flagged_polygons blur_grey rect_covers
              blend_source [shot] 0 shot [name_chunk; plain_chunk] ["john"] H1 H2)
    as (l' & out & h' & E & Hn & Hold & Hout & Hw & _).
  exists l', out, h'. repeat split; try assumption. apply Hold. exact H1.
Defined.

(** On the two sample chunks the step blurs the box of the chunk with the
    name and leaves the box of the other chunk, and the screenshot itself,
    as they were. *)
Lemma redaction_blurs_the_matching_chunk :
  match Redactor.redact blur_grey rect_covers blend_source 0
          [name_chunk; plain_chunk] ["john"] [shot] with
  | (inr l', h') =>
      match h' !! l', h' !! 0 with
      | Some out, Some kept =>
          px out 5 5 = [128; 128; 128; 255]%Z
          /\ px out 5 25 = [10; 20; 30; 255]%Z
          /\ px kept 5 5 = [10; 20; 30]%Z
      | _, _ => False
      end
  | (inl _, _) => False
  end.
Proof. vm_compute. repeat split. Qed.

End RedactorFacts.

(** ** The store: persistence, session files and search results *)

Module StoreMore.
Import Schemas Store StoreSpec PyStrFacts.
Local Open Scope list_scope.

Ltac run_store :=
  cbv [mbind mret M_bind M_ret bind ret raise raise_str get put modify
       set_mgr lift] in *.

Lemma string_length_app (s t : string) :
  String.length (s +:+ t) = String.length s + String.length t.
Proof.
  induction s as [|c s IH]; [reflexivity|].
  rewrite app_String. simpl. rewrite IH. reflexivity.
Qed.

Lemma substring_whole (s : string) : String.substring 0 (String.length s) s = s.
Proof. induction s as [|c s IH]; [reflexivity|]. simpl. rewrite IH. reflexivity. Qed.

Lemma substring_after (s t : string) :
  String.substring (String.length s) (String.length t) (s +:+ t) = t.
Proof.
  induction s as [|c s IH].
  - rewrite app_empty_l. apply substring_whole.
  - rewrite app_String. simpl. exact IH.
Qed.

Lemma endswith_app (s suffix : string) : endswith (s +:+ suffix) suffix = true.
Proof.
  unfold endswith. rewrite string_length_app.
  replace (String.length s + String.length suffix - String.length suffix)
    with (String.length s) by lia.
  rewrite substring_after, String.eqb_refl.
  rewrite andb_true_r. apply Nat.leb_le. lia.
Qed.

(** Normalising a path twice is normalising it once. *)
Lemma with_joblib_idem p : with_joblib (with_joblib p) = with_joblib p.
Proof.
  unfold with_joblib at 2 3. destruct (endswith p ".joblib") eqn:E.
  - unfold with_joblib. rewrite E. reflexivity.
  - unfold with_joblib. rewrite endswith_app. reflexivity.
Qed.

Lemma with_joblib_fixed p : endswith p ".joblib" = true -> with_joblib p = p.
Proof. intros E. unfold with_joblib. rewrite E. reflexivity. Qed.

Lemma activity_metadata_lookup a :
  activity_metadata a !! "activity" = Some (PyActivity a).
Proof.
  unfold activity_metadata. rewrite lookup_insert_ne by discriminate.
  apply lookup_singleton_eq.
Qed.

Lemma collect_activities_valid acts :
  collect_activities (map activity_metadata acts) = inr (map PyActivity acts).
Proof.
  induction acts as [|a acts IH]; [reflexivity|].
  simpl. rewrite activity_metadata_lookup, IH. reflexivity.
Qed.

Lemma validate_activities_valid acts :
  validate_activities (map PyActivity acts) = inr acts.
Proof. induction acts as [|a acts IH]; [reflexivity|]. simpl. rewrite IH. reflexivity. Qed.

(** Metadata written by the pollers reads back as its activities, in
    order. *)
Lemma activities_of_valid acts :
  activities_of (map activity_metadata acts) = inr acts.
Proof.
  unfold activities_of. rewrite collect_activities_valid.
  apply validate_activities_valid.
Qed.

(** The result loop on metadata written by the pollers and labels that
    are not negative: the activities at the labels inside the list, in the
    order of the labels. *)
Lemma collect_results_valid acts labels :
  Forall (fun i => (0 <= i)%Z) labels ->
  collect_results (map activity_metadata acts) labels
  = inr (map PyActivity (omap (fun i => acts !! Z.to_nat i) labels)).
Proof.
  induction 1 as [|i labels Hi _ IH]; [reflexivity|].
  simpl. rewrite length_map.
  destruct (Z.ltb_spec i (Z.of_nat (List.length acts))) as [Hlt|Hge].
  - unfold py_index. destruct (Z.leb_spec 0 i) as [_|]; [|lia].
    rewrite list_lookup_fmap.
    destruct (acts !! Z.to_nat i) as [a|] eqn:Ea.
    + simpl. rewrite activity_metadata_lookup, IH. reflexivity.
    + apply lookup_ge_None in Ea. lia.
  - rewrite IH.
    destruct (acts !! Z.to_nat i) as [a|] eqn:Ea; [|reflexivity].
    apply lookup_lt_Some in Ea. lia.
Qed.

Section WithServices.

Context {vector : Type}.
Variable vdim : vector -> nat.
Variable embed_text : string -> vector.
Variable fs_write : string -> io.
Variable faiss_version : string.
Variable knn : faiss_index (vector := vector) -> vector -> nat -> list Z.

Abbreviation world := (world (vector := vector)).
Abbreviation manager := (manager (vector := vector)).
Abbreviation add_text := (add_text vdim embed_text fs_write faiss_version).
Abbreviation add_texts := (add_texts vdim embed_text).
Abbreviation save_index := (save_index fs_write faiss_version).
Abbreviation create_index := (create_index fs_write faiss_version).
Abbreviation search_by_text := (search_by_text vdim embed_text knn).

(** What [load_index] does with a readable session file. *)
Lemma load_index_reads p (w : world) data ix :
  disk w !! with_joblib p = Some (Pickle data) ->
  sd_index data = Some ix ->
  load_index p w
  = (activities_of (default [] (sd_metadata data)),
     {| mgr := {| index := Some ix;
                  metadata_store := default [] (sd_metadata data);
                  dim := default (dim (mgr w)) (sd_dim data);
                  current_index_file_path := Some (with_joblib p) |};
        disk := disk w |}).
Proof.
  intros Hf Hi. unfold load_index, get_activities_metadata. run_store.
  rewrite Hf, Hi. simpl.
  destruct (activities_of (default [] (sd_metadata data))); reflexivity.
Qed.

(** What a successful [save_index] writes. *)
Lemma save_index_writes (w : world) ix p :
  index (mgr w) = Some ix ->
  current_index_file_path (mgr w) = Some p ->
  fs_write p = WriteOk ->
  save_index w
  = (inr tt,
     {| mgr := mgr w;
        disk := <[p := Pickle {| sd_index := Some ix;
                                 sd_metadata := Some (metadata_store (mgr w));
                                 sd_dim := Some (dim (mgr w));
                                 sd_faiss_version := Some faiss_version |}]>
                  (disk w) |}).
Proof.
  intros Hi Hp Hw. unfold Store.save_index. run_store. rewrite Hi, Hp, Hw.
  reflexivity.
Qed.

(** What a successful [add_text] leaves behind. *)
Lemma add_text_succeeds (w : world) ix p t md :
  index (mgr w) = Some ix ->
  vdim (embed_text t) = d ix ->
  current_index_file_path (mgr w) = Some p ->
  fs_write p = WriteOk ->
  add_text t md w
  = (inr tt,
     {| mgr := {| index := Some {| d := d ix;
                                   vectors := vectors ix ++ [embed_text t] |};
                  metadata_store := metadata_store (mgr w) ++ [md];
                  dim := dim (mgr w);
                  current_index_file_path := Some p |};
        disk := <[p := Pickle
                    {| sd_index := Some {| d := d ix;
                                           vectors := vectors ix ++ [embed_text t] |};
                       sd_metadata := Some (metadata_store (mgr w) ++ [md]);
                       sd_dim := Some (dim (mgr w));
                       sd_faiss_version := Some faiss_version |}]>
                  (disk w) |}).
Proof.
  destruct w as [[i ms dm pa] dk]. simpl. intros -> Hd -> Hw.
  unfold Store.add_text, index_add, Store.save_index. run_store. simpl.
  rewrite bool_decide_eq_true_2 by exact Hd. simpl. rewrite Hw. reflexivity.
Qed.

(** X1. Round trip of a session: after a successful save_index, load_index
    of the saved path, from whatever the manager holds by then, brings back
    exactly the saved manager (index, metadata in the same order,
    dimension, path) and returns the saved metadata's activities. *)
Theorem save_then_load_restores_session (w : world) ix p (later : manager) :
  index (mgr w) = Some ix ->
  current_index_file_path (mgr w) = Some p ->
  endswith p ".joblib" = true ->
  fs_write p = WriteOk ->
  exists w1,
    save_index w = (inr tt, w1)
    /\ mgr w1 = mgr w
    /\ load_index p {| mgr := later; disk := disk w1 |}
       = (activities_of (metadata_store (mgr w)),
          {| mgr := mgr w; disk := disk w1 |}).
Proof.
  intros Hi Hp He Hw. eexists. split; [apply (save_index_writes w ix p Hi Hp Hw)|].
  split; [reflexivity|]. simpl.
  erewrite load_index_reads;
    [|simpl; rewrite (with_joblib_fixed p He); apply lookup_insert_eq|reflexivity].
  simpl. rewrite (with_joblib_fixed p He).
  destruct w as [[i ms dm pa] dk]. simpl in *. subst. reflexivity.
Qed.

(** X2. An insert is durable: after a successful add_text, load_index of
    the session's path brings back the manager as add_text left it, the new
    vector and metadata entry included. *)
Theorem add_text_is_durable (w w' : world) t md p (later : manager) :
  add_text t md w = (inr tt, w') ->
  current_index_file_path (mgr w) = Some p ->
  endswith p ".joblib" = true ->
  load_index p {| mgr := later; disk := disk w' |}
  = (activities_of (metadata_store (mgr w') ),
     {| mgr := mgr w'; disk := disk w' |})
  /\ metadata_store (mgr w') = metadata_store (mgr w) ++ [md].
Proof.
  destruct w as [[ix ms dm path] dk]. simpl. intros H -> He.
  unfold Store.add_text, index_add, Store.save_index in H. run_store. simpl in H.
  destruct ix as [ix|]; [|discriminate]. simpl in H.
  case_bool_decide; simpl in H; [|discriminate].
  destruct (fs_write p); simpl in H; try discriminate.
  injection H as <-. simpl. split; [|reflexivity].
  erewrite load_index_reads;
    [|simpl; rewrite (with_joblib_fixed p He); apply lookup_insert_eq|reflexivity].
  simpl. rewrite (with_joblib_fixed p He). reflexivity.
Qed.

(** X3. A batch insert is not persisted: add_texts leaves the disk as it
    is on every outcome, so after a successful batch the session file, if
    there is one, still holds what it held before. *)
Theorem add_texts_does_not_persist (w : world) ts mds :
  disk (snd (add_texts ts mds w)) = disk w.
Proof.
  destruct w as [[ix ms dm path] dk].
  unfold Store.add_texts, index_add. run_store.
  destruct (List.length ts =? List.length mds)%nat; simpl; [|reflexivity].
  destruct (same_width vdim (map embed_text ts)); simpl; [|reflexivity].
  destruct ix as [ix|]; [|reflexivity].
  destruct (map embed_text ts) as [|e es]; simpl; [reflexivity|].
  case_bool_decide; reflexivity.
Qed.

(** X4. Creating a session at a path that has no file: the manager gets an
    empty index of its dimension and an empty metadata list, the file is
    written at the path with the extension, and no activities are
    returned. *)
Theorem create_index_makes_empty_session (w : world) p :
  disk w !! with_joblib p = None ->
  fs_write (with_joblib p) = WriteOk ->
  create_index p w
  = (inr [],
     {| mgr := {| index := Some {| d := dim (mgr w); vectors := [] |};
                  metadata_store := [];
                  dim := dim (mgr w);
                  current_index_file_path := Some (with_joblib p) |};
        disk := <[with_joblib p :=
                    Pickle {| sd_index := Some {| d := dim (mgr w); vectors := [] |};
                              sd_metadata := Some [];
                              sd_dim := Some (dim (mgr w));
                              sd_faiss_version := Some faiss_version |}]>
                  (disk w) |}).
Proof.
  intros Hf Hw. unfold Store.create_index, Store.save_index,
    get_activities_metadata. run_store.
  rewrite Hf. simpl. rewrite Hw. reflexivity.
Qed.

(** X5. When the first save of a new session fails, create_index raises,
    but the manager has already been switched to the new empty index: the
    session that was loaded before is no longer in memory. *)
Theorem create_index_failed_write_drops_session (w : world) p :
  disk w !! with_joblib p = None ->
  fs_write (with_joblib p) <> WriteOk ->
  exists w',
    create_index p w = (inl (OSError (with_joblib p)), w')
    /\ mgr w' = {| index := Some {| d := dim (mgr w); vectors := [] |};
                   metadata_store := [];
                   dim := dim (mgr w);
                   current_index_file_path := Some (with_joblib p) |}.
Proof.
  intros Hf Hw. unfold Store.create_index, Store.save_index,
    get_activities_metadata. run_store.
  rewrite Hf. simpl.
  destruct (fs_write (with_joblib p)); [contradiction| |]; simpl;
    eexists; split; reflexivity.
Qed.

(** X6. Creating a session at a path that already has a file does not
    overwrite it: create_index is then load_index, with the same result
    and the same state afterwards. *)
Theorem create_index_of_existing_is_load (w : world) p f :
  disk w !! with_joblib p = Some f ->
  create_index p w = load_index p w.
Proof.
  intros Hf. unfold Store.create_index, load_index, get_activities_metadata.
  run_store. rewrite with_joblib_idem, Hf. simpl. rewrite Hf.
  destruct f as [|data]; [reflexivity|].
  destruct (sd_index data) as [ix|]; [|reflexivity]. simpl.
  destruct (activities_of (default [] (sd_metadata data))) eqn:E; simpl;
    [reflexivity|]. rewrite E. reflexivity.
Qed.

(** X7. The extension may be left out: for a path that does not end in
    .joblib, load_index and create_index do what they do for the path with
    the extension appended. *)
Theorem session_path_extension_is_optional (w : world) p :
  endswith p ".joblib" = false ->
  load_index p w = load_index (p +:+ ".joblib") w
  /\ create_index p w = create_index (p +:+ ".joblib") w.
Proof.
  intros Ee.
  assert (E : with_joblib (p +:+ ".joblib") = with_joblib p).
  { unfold with_joblib. rewrite Ee, endswith_app. reflexivity. }
  unfold Store.create_index, load_index. rewrite !E. split; reflexivity.
Qed.

(** X8. Search results: on a store whose metadata was written by the
    pollers, for a positive k and labels that are not negative,
    search_by_text returns the activities stored at the labels that lie
    inside the metadata list, in the order of the labels (nearest first),
    skips the others, and changes nothing; for k = 0 it raises
    AssertionError. *)
Theorem search_returns_activities_at_labels (w : world) ix acts q :
  index (mgr w) = Some ix ->
  vdim (embed_text q) = d ix ->
  metadata_store (mgr w) = map activity_metadata acts ->
  (forall k,
      0 < k ->
      Forall (fun i => (0 <= i)%Z) (knn ix (embed_text q) k) ->
      search_by_text q k w
      = (inr (omap (fun i => acts !! Z.to_nat i) (knn ix (embed_text q) k)), w))
  /\ search_by_text q 0 w = (inl AssertionError, w).
Proof.
  intros Hi Hd Hm. split.
  - intros k Hk Hl. unfold Store.search_by_text. run_store.
    rewrite Hi, bool_decide_eq_true_2 by exact Hd.
    destruct k as [|k]; [lia|]. cbn [Nat.eqb].
    rewrite Hm, (collect_results_valid acts _ Hl). simpl.
    rewrite validate_activities_valid. reflexivity.
  - unfold Store.search_by_text. run_store.
    rewrite Hi, bool_decide_eq_true_2 by exact Hd. reflexivity.
Qed.

(** X9. A search never changes the manager or the disk, whatever its
    outcome; without a loaded index it raises ValueError, and with a query
    vector of another width than the index it raises AssertionError. *)
Theorem search_is_read_only (w : world) q k :
  snd (search_by_text q k w) = w
  /\ (index (mgr w) = None ->
      fst (search_by_text q k w) = inl (ValueError "Index is empty. Add texts first."))
  /\ (forall ix, index (mgr w) = Some ix -> vdim (embed_text q) <> d ix ->
      fst (search_by_text q k w) = inl AssertionError).
Proof.
  split; [apply StoreFacts.search_by_text_unchanged|]. split.
  - intros Hi. unfold Store.search_by_text. run_store. rewrite Hi. reflexivity.
  - intros ix Hi Hd. unfold Store.search_by_text. run_store.
    rewrite Hi, bool_decide_eq_false_2 by exact Hd. reflexivity.
Qed.

(** X10. A vector of another width than the index is rejected before
    anything is changed: add_text and add_texts raise AssertionError and
    leave index, metadata and disk as they were. *)
Theorem inserts_reject_wrong_width (w : world) ix :
  index (mgr w) = Some ix ->
  (forall t md,
      vdim (embed_text t) <> d ix ->
      add_text t md w = (inl AssertionError, w))
  /\ (forall t ts mds,
        List.length (t :: ts) = List.length mds ->
        same_width vdim (map embed_text (t :: ts)) = true ->
        vdim (embed_text t) <> d ix ->
        add_texts (t :: ts) mds w = (inl AssertionError, w)).
Proof.
  intros Hi. split.
  - intros t md Hd. unfold Store.add_text, index_add. run_store.
    rewrite Hi. simpl. rewrite Hi, bool_decide_eq_false_2 by exact Hd.
    reflexivity.
  - intros t ts mds Hl Hs Hd. unfold Store.add_texts, index_add. run_store.
    rewrite Hl, Nat.eqb_refl, Hs. simpl. rewrite Hi. simpl.
    rewrite Hi, bool_decide_eq_false_2 by exact Hd. reflexivity.
Qed.

End WithServices.

Import Fixtures.

Lemma save_then_load_restores_session_witness :
  fst (load_index "s.joblib"
         {| mgr := new_manager 7;
            disk := disk (snd (Store.save_index always_ok "1.7.4" one_entry_session)) |})
  = inr [Application editor].
Proof.
  destruct (save_then_load_restores_session always_ok "1.7.4" one_entry_session
              {| d := 2; vectors := [[0%Z; 0%Z]] |} "s.joblib" (new_manager 7)
              eq_refl eq_refl eq_refl eq_refl) as (w1 & Hs & _ & Hl).
  rewrite Hs. simpl. rewrite Hl. reflexivity.
Defined.

Lemma add_text_is_durable_witness :
  let w' := snd (Store.add_text width embed_const always_ok "1.7.4" "editor"
                   (activity_metadata (Application editor)) empty_session) in
  load_index "s.joblib" {| mgr := new_manager 7; disk := disk w' |}
  = (activities_of (metadata_store (mgr w')), {| mgr := mgr w'; disk := disk w' |}).
Proof.
  intros w'.
  assert (H : Store.add_text width embed_const always_ok "1.7.4" "editor"
                (activity_metadata (Application editor)) empty_session
              = (inr tt, w')) by reflexivity.
  apply (proj1 (add_text_is_durable width embed_const always_ok "1.7.4"
                  empty_session w' "editor" _ "s.joblib" (new_manager 7)
                  H eq_refl eq_refl)).
Defined.

Lemma create_index_makes_empty_session_witness :
  fst (Store.create_index always_ok "1.7.4" "notes"
         {| mgr := new_manager (vector := list Z) 2; disk := ∅ |})
  = inr [].
Proof.
  rewrite (create_index_makes_empty_session always_ok "1.7.4"
             {| mgr := new_manager (vector := list Z) 2; disk := ∅ |} "notes");
    reflexivity.
Defined.

Lemma create_index_failed_write_drops_session_witness :
  exists w',
    Store.create_index always_denied "1.7.4" "notes" one_entry_session
    = (inl (OSError "notes.joblib"), w')
    /\ metadata_store (mgr w') = [].
Proof.
  destruct (create_index_failed_write_drops_session always_denied "1.7.4"
              one_entry_session "notes" eq_refl) as (w' & E & Hm).
  - discriminate.
  - exists w'. split; [exact E|]. rewrite Hm. reflexivity.
Defined.

Lemma create_index_of_existing_is_load_witness :
  Store.create_index always_ok "1.7.4" "bad"
    {| mgr := new_manager 2; disk := disk_with_keyless |}
  = load_index "bad" {| mgr := new_manager 2; disk := disk_with_keyless |}.
Proof.
  apply (create_index_of_existing_is_load always_ok "1.7.4"
           {| mgr := new_manager 2; disk := disk_with_keyless |} "bad"
           (Pickle keyless_session)).
  reflexivity.
Defined.

Lemma session_path_extension_is_optional_witness :
  load_index "bad" {| mgr := new_manager 2; disk := disk_with_keyless |}
  = load_index "bad.joblib" {| mgr := new_manager 2; disk := disk_with_keyless |}.
Proof.
  apply (proj1 (session_path_extension_is_optional always_ok "1.7.4"
                  {| mgr := new_manager 2; disk := disk_with_keyless |} "bad"
                  eq_refl)).
Defined.

Lemma search_returns_activities_at_labels_witness :
  Store.search_by_text width embed_const padded_labels "editor" 1 one_entry_session
  = (inr [Application editor], one_entry_session)
  /\ Store.search_by_text width embed_const padded_labels "editor" 0
       one_entry_session
     = (inl AssertionError, one_entry_session).
Proof.
  destruct (search_returns_activities_at_labels width embed_const padded_labels
              one_entry_session {| d := 2; vectors := [[0%Z; 0%Z]] |}
              [Application editor] "editor" eq_refl eq_refl eq_refl)
    as [Hpos Hzero].
  split; [|exact Hzero].
  apply (Hpos 1); [lia|].
  change (Forall (fun i => (0 <= i)%Z) [0%Z]). constructor; [lia|constructor].
Defined.

Lemma search_is_read_only_witness :
  fst (Store.search_by_text width embed_const padded_labels "editor" 3
         {| mgr := new_manager 2; disk := ∅ |})
  = inl (ValueError "Index is empty. Add texts first.").
Proof.
  apply (proj1 (proj2 (search_is_read_only width embed_const padded_labels
                         {| mgr := new_manager 2; disk := ∅ |} "editor" 3))).
  reflexivity.
Defined.

Lemma inserts_reject_wrong_width_witness :
  Store.add_text width embed_const always_ok "1.7.4" "editor" ∅
    {| mgr := {| index := Some {| d := 3; vectors := [] |}; metadata_store := [];
                 dim := 3; current_index_file_path := Some "s.joblib" |};
       disk := ∅ |}
  = (inl AssertionError,
     {| mgr := {| index := Some {| d := 3; vectors := [] |}; metadata_store := [];
                  dim := 3; current_index_file_path := Some "s.joblib" |};
        disk := ∅ |}).
Proof.
  apply (proj1 (inserts_reject_wrong_width width embed_const always_ok "1.7.4"
                  {| mgr := {| index := Some {| d := 3; vectors := [] |};
                               metadata_store := []; dim := 3;
                               current_index_file_path := Some "s.joblib" |};
                     disk := ∅ |}
                  {| d := 3; vectors := [] |} eq_refl)).
  vm_compute. discriminate.
Defined.

End StoreMore.

(** ** The scheduler: session switches, start and stop, the screen poller *)

Module SchedulerMore.
Import Schemas Store Scheduler SchedulerSpec ScreenPoller PollerSpec.
Local Open Scope list_scope.

Ltac run_sched :=
  cbv [mbind mret M_bind M_ret bind ret raise raise_str get put modify
       set_mgr lift on_store try_reraise set_session_activites
       start_recording stop_recording] in *.

Section WithServices.

Context {vector : Type}.
Variable vdim : vector -> nat.
Variable embed_text : string -> vector.
Variable fs_write : string -> io.
Variable faiss_version : string.
Variable extract_keywords : string -> string.
Variable app_poll_interval_seconds : Z.
Variable screenshot_interval_seconds : Z.

Abbreviation manager_state := (manager_state (vector := vector)).
Abbreviation create_session := (create_session fs_write faiss_version).
Abbreviation _record_app_activity :=
  (_record_app_activity vdim embed_text fs_write faiss_version extract_keywords
     app_poll_interval_seconds).
Abbreviation app_pass :=
  (app_pass vdim embed_text fs_write faiss_version extract_keywords
     app_poll_interval_seconds).
Abbreviation observed_activity := (observed_activity extract_keywords).
Abbreviation observed_activities := (observed_activities extract_keywords).
Abbreviation screen_pass :=
  (screen_pass vdim embed_text fs_write faiss_version screenshot_interval_seconds).
Abbreviation _record_screen_activity :=
  (_record_screen_activity vdim embed_text fs_write faiss_version
     screenshot_interval_seconds).

(** X11. A session switch never changes whether recording is on:
    load_session and create_session end, whether they return or raise,
    with is_active as it was before the call. *)
Theorem session_switch_keeps_recording_flag (a : manager_state) p :
  is_active (state (snd (load_session p a))) = is_active (state a)
  /\ is_active (state (snd (create_session p a))) = is_active (state a).
Proof.
  split.
  - unfold load_session. run_sched.
    destruct (is_active (state a)) eqn:Ha; simpl; repeat (rewrite Ha; simpl).
    + match goal with
      | |- context [load_index ?q ?w] => destruct (load_index q w) as [[e|acts] w']
      end; reflexivity.
    + match goal with
      | |- context [load_index ?q ?w] => destruct (load_index q w) as [[e|acts] w']
      end; simpl; rewrite ?Ha; reflexivity.
  - unfold Scheduler.create_session. run_sched.
    destruct (is_active (state a)) eqn:Ha; simpl; repeat (rewrite Ha; simpl).
    + match goal with
      | |- context [create_index ?fw ?fv ?q ?w] =>
          destruct (create_index fw fv q w) as [[e|acts] w']
      end; reflexivity.
    + match goal with
      | |- context [create_index ?fw ?fv ?q ?w] =>
          destruct (create_index fw fv q w) as [[e|acts] w']
      end; simpl; rewrite ?Ha; reflexivity.
Qed.

(** What a successful [load_session] leaves behind. *)
Lemma load_session_loads (a : manager_state) p data ix acts :
  disk (faiss_index_manager a) !! with_joblib p = Some (Pickle data) ->
  sd_index data = Some ix ->
  activities_of (default [] (sd_metadata data)) = inr acts ->
  exists a',
    load_session p a = (inr tt, a')
    /\ session_activites a' = acts
    /\ faiss_index_manager a'
       = {| mgr := {| index := Some ix;
                      metadata_store := default [] (sd_metadata data);
                      dim := default (dim (mgr (faiss_index_manager a))) (sd_dim data);
                      current_index_file_path := Some (with_joblib p) |};
            disk := disk (faiss_index_manager a) |}
    /\ last_app_activity a' = last_app_activity a
    /\ is_active (state a') = is_active (state a).
Proof.
  intros Hf Hi Ha.
  assert (Hl : forall w : world (vector := vector),
             disk w = disk (faiss_index_manager a) ->
             dim (mgr w) = dim (mgr (faiss_index_manager a)) ->
             load_index (with_joblib p) w
             = (inr acts,
                {| mgr := {| index := Some ix;
                             metadata_store := default [] (sd_metadata data);
                             dim := default (dim (mgr (faiss_index_manager a)))
                                      (sd_dim data);
                             current_index_file_path := Some (with_joblib p) |};
                   disk := disk (faiss_index_manager a) |})).
  { intros w Hd Hm.
    rewrite (StoreMore.load_index_reads (with_joblib p) w data ix);
      [|rewrite StoreMore.with_joblib_idem, Hd; exact Hf|exact Hi].
    rewrite Ha, StoreMore.with_joblib_idem, Hd, Hm. reflexivity. }
  unfold load_session. run_sched.
  destruct (is_active (state a)) eqn:Hact; simpl; repeat (rewrite Hact; simpl);
    rewrite Hl by reflexivity; simpl; eexists; (split; [reflexivity|]);
    simpl; repeat split; try assumption.
Qed.

(** X12. A session switch does not reset the poller's memory of the last
    inserted activity.  After a successful load_session the store holds
    the file's session and the snapshot its activities, while
    last_app_activity is still the one from before; passes that observe
    that same window therefore insert nothing into the new session. *)
Theorem switch_keeps_duplicate_memory (a : manager_state) p data ix acts l ticks :
  disk (faiss_index_manager a) !! with_joblib p = Some (Pickle data) ->
  sd_index data = Some ix ->
  activities_of (default [] (sd_metadata data)) = inr acts ->
  last_app_activity a = Some l ->
  (forall tk, In tk ticks -> window_pair tk = activity_pair l) ->
  exists a',
    load_session p a = (inr tt, a')
    /\ session_activites a' = acts
    /\ metadata_store (mgr (faiss_index_manager a')) = default [] (sd_metadata data)
    /\ index (mgr (faiss_index_manager a')) = Some ix
    /\ last_app_activity a' = Some l
    /\ faiss_index_manager (_record_app_activity ticks a') = faiss_index_manager a'.
Proof.
  intros Hf Hi Ha Hl Hrun.
  destruct (load_session_loads a p data ix acts Hf Hi Ha)
    as (a' & E & Hs & Hw & Hlast & _).
  exists a'. rewrite Hw. simpl. rewrite <- Hw.
  repeat split; try assumption; try congruence.
  apply (SchedulerFacts.same_window_run_unchanged vdim embed_text fs_write
           faiss_version extract_keywords app_poll_interval_seconds ticks a' l);
    [congruence|exact Hrun].
Qed.

(** X13. Starting and stopping are idempotent and never raise: a second
    start_recording while recording changes nothing (the timers are not
    reset again), and a second stop_recording changes nothing. *)
Theorem start_and_stop_are_idempotent (a : manager_state) :
  start_recording (snd (start_recording a)) = (inr tt, snd (start_recording a))
  /\ stop_recording (snd (stop_recording a)) = (inr tt, snd (stop_recording a))
  /\ is_active (state (snd (start_recording a))) = true
  /\ is_active (state (snd (stop_recording a))) = false.
Proof.
  run_sched. destruct (is_active (state a)) eqn:Ha; simpl; rewrite ?Ha; simpl;
    repeat split; assumption.
Qed.

(** A due pass with a capture, on a loaded session that can be saved,
    appends the capture and moves the screen timer. *)
Lemma screen_pass_inserts (a : manager_state) tk s ix p :
  (screenshot_interval_seconds <= screen_time tk - last_screen_time (state a))%Z ->
  captured tk = inr s ->
  index (mgr (faiss_index_manager a)) = Some ix ->
  vdim (embed_text (keywords s)) = d ix ->
  current_index_file_path (mgr (faiss_index_manager a)) = Some p ->
  fs_write p = WriteOk ->
  exists a',
    screen_pass tk a = (inr tt, a')
    /\ index (mgr (faiss_index_manager a'))
       = Some {| d := d ix; vectors := vectors ix ++ [embed_text (keywords s)] |}
    /\ metadata_store (mgr (faiss_index_manager a'))
       = metadata_store (mgr (faiss_index_manager a))
         ++ [activity_metadata (Screenshot s)]
    /\ current_index_file_path (mgr (faiss_index_manager a')) = Some p
    /\ last_screen_time (state a') = screen_time tk
    /\ stop_event a' = stop_event a
    /\ session_activites a' = session_activites a
    /\ screen_thread a' = screen_thread a.
Proof.
  intros Hdue Hc Hi Hd Hp Hw.
  unfold ScreenPoller.screen_pass. run_sched.
  destruct (Z.leb_spec screenshot_interval_seconds
              (screen_time tk - last_screen_time (state a))) as [_|]; [|lia].
  rewrite Hc.
  rewrite (StoreMore.add_text_succeeds vdim embed_text fs_write faiss_version
             (faiss_index_manager a) ix p _ _ Hi Hd Hp Hw).
  eexists. split; [reflexivity|]. simpl. repeat split.
Qed.

(** X14. The screen poller inserts every capture.  Over passes that are
    all due and whose captures succeed, on a loaded session that can be
    saved, the store grows by one entry per pass, in order, with no
    comparison against earlier captures; the snapshot of the session's
    activities is not refreshed by these inserts. *)
Theorem screen_poller_appends_each_capture ticks :
  forall (a : manager_state) ix p shots,
  stop_event a = false ->
  index (mgr (faiss_index_manager a)) = Some ix ->
  current_index_file_path (mgr (faiss_index_manager a)) = Some p ->
  fs_write p = WriteOk ->
  map captured ticks = map inr shots ->
  Forall (fun s => vdim (embed_text (keywords s)) = d ix) shots ->
  all_due screenshot_interval_seconds (last_screen_time (state a))
    (map screen_time ticks) ->
  let a' := _record_screen_activity ticks a in
  metadata_store (mgr (faiss_index_manager a'))
  = metadata_store (mgr (faiss_index_manager a))
    ++ map (fun s => activity_metadata (Screenshot s)) shots
  /\ index (mgr (faiss_index_manager a'))
     = Some {| d := d ix;
               vectors := vectors ix ++ map (fun s => embed_text (keywords s)) shots |}
  /\ session_activites a' = session_activites a
  /\ screen_thread a' = screen_thread a.
Proof.
  induction ticks as [|tk ticks IH]; intros a ix p shots Hstop Hi Hp Hw Hc Hd Hdue.
  - destruct shots; [|discriminate]. simpl. rewrite !app_nil_r.
    destruct ix. repeat split. exact Hi.
  - destruct shots as [|s shots]; [discriminate|].
    injection Hc as Hc Hcs. inversion Hd as [|? ? Hd1 Hds]; subst.
    destruct Hdue as [Hdue1 Hdues].
    destruct (screen_pass_inserts a tk s ix p Hdue1 Hc Hi Hd1 Hp Hw)
      as (a1 & E & Hi1 & Hm1 & Hp1 & Ht1 & Hs1 & Hsa1 & Hth1).
    cbn [ScreenPoller._record_screen_activity]. rewrite Hstop, E.
    rewrite <- Ht1 in Hdues.
    specialize (IH a1 _ p shots (eq_trans Hs1 Hstop) Hi1 Hp1 Hw Hcs Hds Hdues).
    simpl in IH. destruct IH as (IHm & IHi & IHs & IHt).
    rewrite IHm, IHi, IHs, IHt, Hm1, Hsa1, Hth1. simpl.
    rewrite <- !app_assoc. repeat split.
Qed.

(** A due pass that observes a new window, on a loaded session that can
    be saved and whose metadata is the pollers', inserts the observed
    activity, refreshes the snapshot and remembers the activity. *)
Lemma app_pass_inserts (a : manager_state) tk ix p acts :
  (app_poll_interval_seconds <= current_time tk - last_app_time (state a))%Z ->
  activity_pair <$> last_app_activity a <> Some (window_pair tk) ->
  index (mgr (faiss_index_manager a)) = Some ix ->
  vdim (embed_text (app_keywords (observed_activity (app_activity_recorder a) tk)))
  = d ix ->
  current_index_file_path (mgr (faiss_index_manager a)) = Some p ->
  fs_write p = WriteOk ->
  metadata_store (mgr (faiss_index_manager a)) = map activity_metadata acts ->
  let act := observed_activity (app_activity_recorder a) tk in
  exists a',
    app_pass tk a = (inr tt, a')
    /\ index (mgr (faiss_index_manager a'))
       = Some {| d := d ix; vectors := vectors ix ++ [embed_text (app_keywords act)] |}
    /\ metadata_store (mgr (faiss_index_manager a'))
       = map activity_metadata (acts ++ [Application act])
    /\ current_index_file_path (mgr (faiss_index_manager a')) = Some p
    /\ session_activites a' = acts ++ [Application act]
    /\ last_app_activity a' = Some act
    /\ app_activity_recorder a' = recorder_after tk
    /\ last_app_time (state a') = current_time tk
    /\ stop_event a' = stop_event a.
Proof.
  intros Hdue Hnew Hi Hd Hp Hw Hm act.
  assert (Hdiff : differs (last_app_activity a) act = true).
  { apply SchedulerFacts.differs_true. intros l Hl E. apply Hnew.
    rewrite Hl. simpl. f_equal. symmetry. exact E. }
  unfold Scheduler.app_pass, record_activity, insert_if_changed,
    get_activities_metadata. run_sched.
  destruct (Z.leb_spec app_poll_interval_seconds
              (current_time tk - last_app_time (state a))) as [_|]; [|lia].
  simpl.
  match goal with
  | |- context [differs _ ?x] => replace x with act
  end.
  2:{ subst act. unfold SchedulerSpec.observed_activity. f_equal.
      destruct (last_window (app_activity_recorder a)) as [lw|]; [|reflexivity].
      destruct (bool_decide _); reflexivity. }
  rewrite Hdiff.
  rewrite (StoreMore.add_text_succeeds vdim embed_text fs_write faiss_version
             (faiss_index_manager a) ix p _ _ Hi Hd Hp Hw).
  simpl. rewrite Hm.
  replace (map activity_metadata acts ++ [activity_metadata (Application act)])
    with (map activity_metadata (acts ++ [Application act]))
    by (rewrite map_app; reflexivity).
  rewrite StoreMore.activities_of_valid. simpl.
  eexists. split; [reflexivity|]. simpl. repeat split.
  unfold recorder_after, window_pair. f_equal.
  destruct (last_window (app_activity_recorder a)) as [lw|] eqn:El; [|reflexivity].
  case_bool_decide; simpl; [|reflexivity]. rewrite El. congruence.
Qed.

(** A run of the application poller over passes that are all due and
    all observe another window than the pass before. *)
Lemma app_poller_run_of_switches ticks :
  forall (a : manager_state) ix p acts,
  stop_event a = false ->
  index (mgr (faiss_index_manager a)) = Some ix ->
  current_index_file_path (mgr (faiss_index_manager a)) = Some p ->
  fs_write p = WriteOk ->
  metadata_store (mgr (faiss_index_manager a)) = map activity_metadata acts ->
  all_due app_poll_interval_seconds (last_app_time (state a))
    (map current_time ticks) ->
  all_switches (activity_pair <$> last_app_activity a) (map window_pair ticks) ->
  Forall (fun act => vdim (embed_text (app_keywords act)) = d ix)
    (observed_activities (app_activity_recorder a) ticks) ->
  let a' := _record_app_activity ticks a in
  let recorded :=
    map Application (observed_activities (app_activity_recorder a) ticks) in
  metadata_store (mgr (faiss_index_manager a'))
  = map activity_metadata (acts ++ recorded)
  /\ (ticks <> [] -> session_activites a' = acts ++ recorded).
Proof.
  induction ticks as [|tk ticks IH];
    intros a ix p acts Hstop Hi Hp Hw Hm Hdue Hsw Hd.
  - simpl. rewrite app_nil_r. split; [exact Hm|]. intros H. contradiction.
  - destruct Hdue as [Hdue1 Hdues]. destruct Hsw as [Hsw1 Hsws].
    simpl in Hd. inversion Hd as [|? ? Hd1 Hds]; subst.
    destruct (app_pass_inserts a tk ix p acts Hdue1 Hsw1 Hi Hd1 Hp Hw Hm)
      as (a1 & E & Hi1 & Hm1 & Hp1 & Hsa1 & Hl1 & Hr1 & Ht1 & Hs1).
    cbn [Scheduler._record_app_activity]. rewrite Hstop, E.
    rewrite <- Ht1 in Hdues. rewrite <- Hr1 in Hds.
    assert (Hsws' : all_switches (activity_pair <$> last_app_activity a1)
                      (map window_pair ticks)).
    { rewrite Hl1. exact Hsws. }
    specialize (IH a1 _ p _ (eq_trans Hs1 Hstop) Hi1 Hp1 Hw Hm1 Hdues Hsws' Hds).
    simpl in IH. destruct IH as [IHm IHs].
    cbn [PollerSpec.observed_activities map]. rewrite <- Hr1.
    rewrite IHm, <- app_assoc. split; [reflexivity|]. intros _.
    destruct ticks as [|tk2 ticks].
    + simpl. exact Hsa1.
    + rewrite IHs by discriminate. rewrite <- app_assoc. reflexivity.
Qed.

(** X15. The application poller records every switch.  Over passes that
    are all due and of which each observes another window than the one
    before (the first another than the last inserted one), on a loaded
    session that can be saved, one activity per pass is appended, in order,
    also when a window comes back that was recorded earlier; after the
    last pass the snapshot of the session's activities is the whole
    list. *)
Theorem app_poller_records_each_switch ticks :
  forall (a : manager_state) ix p acts,
  stop_event a = false ->
  index (mgr (faiss_index_manager a)) = Some ix ->
  current_index_file_path (mgr (faiss_index_manager a)) = Some p ->
  fs_write p = WriteOk ->
  metadata_store (mgr (faiss_index_manager a)) = map activity_metadata acts ->
  all_due app_poll_interval_seconds (last_app_time (state a))
    (map current_time ticks) ->
  all_switches (activity_pair <$> last_app_activity a) (map window_pair ticks) ->
  Forall (fun act => vdim (embed_text (app_keywords act)) = d ix)
    (observed_activities (app_activity_recorder a) ticks) ->
  let a' := _record_app_activity ticks a in
  let recorded :=
    map Application (observed_activities (app_activity_recorder a) ticks) in
  metadata_store (mgr (faiss_index_manager a'))
  = map activity_metadata (acts ++ recorded)
  /\ (ticks <> [] -> session_activites a' = acts ++ recorded).
Proof. exact (app_poller_run_of_switches ticks). Qed.

(** X16. The duration stored at a switch is the dwell time of the window
    before it: over two due passes that observe two different windows,
    the second inserted activity is the second window's, and its
    duration_seconds is the time from the moment the manager finished the
    first insert to the second observation. *)
Theorem switch_duration_is_dwell_time (a : manager_state) tk1 tk2 ix p acts :
  stop_event a = false ->
  index (mgr (faiss_index_manager a)) = Some ix ->
  current_index_file_path (mgr (faiss_index_manager a)) = Some p ->
  fs_write p = WriteOk ->
  metadata_store (mgr (faiss_index_manager a)) = map activity_metadata acts ->
  all_due app_poll_interval_seconds (last_app_time (state a))
    [current_time tk1; current_time tk2] ->
  all_switches (activity_pair <$> last_app_activity a)
    [window_pair tk1; window_pair tk2] ->
  Forall (fun act => vdim (embed_text (app_keywords act)) = d ix)
    (observed_activities (app_activity_recorder a) [tk1; tk2]) ->
  exists first second,
    session_activites (_record_app_activity [tk1; tk2] a)
    = acts ++ [Application first; Application second]
    /\ activity_pair first = window_pair tk1
    /\ activity_pair second = window_pair tk2
    /\ duration_seconds second = (record_time tk2 - switch_time tk1)%Z.
Proof.
  intros Hstop Hi Hp Hw Hm Hdue Hsw Hd.
  destruct (app_poller_run_of_switches [tk1; tk2] a ix p acts
              Hstop Hi Hp Hw Hm Hdue Hsw Hd) as [_ Hs].
  eexists _, _. split; [apply Hs; discriminate|].
  split; [reflexivity|]. split; [reflexivity|].
  destruct Hsw as (_ & Hne & _). simpl.
  rewrite bool_decide_eq_false_2; [reflexivity|].
  intros E. apply Hne. unfold window_pair at 2. rewrite E. reflexivity.
Qed.

End WithServices.

Import Fixtures MoreFixtures StoreSpec.

Lemma switch_keeps_duplicate_memory_witness :
  exists a',
    load_session "s" manager_before_switch = (inr tt, a')
    /\ session_activites a' = [Application editor]
    /\ faiss_index_manager
         (Scheduler._record_app_activity width embed_const always_ok "1.7.4"
            keywords_id 1 [editor_tick 50; editor_tick 60] a')
       = faiss_index_manager a'.
Proof.
  destruct (switch_keeps_duplicate_memory width embed_const always_ok "1.7.4"
              keywords_id 1 manager_before_switch "s" editor_session_data
              {| d := 2; vectors := [[0%Z; 0%Z]] |} [Application editor] editor
              [editor_tick 50; editor_tick 60]
              eq_refl eq_refl eq_refl eq_refl)
    as (a' & E & Hs & _ & _ & _ & Hrun).
  - intros tk [<-|[<-|[]]]; reflexivity.
  - exists a'. repeat split; assumption.
Defined.

Lemma screen_poller_appends_each_capture_witness :
  metadata_store
    (mgr (faiss_index_manager
       (ScreenPoller._record_screen_activity width embed_const always_ok "1.7.4" 5
          [capture_tick "a" 10; capture_tick "b" 20] started_manager)))
  = [] ++ [activity_metadata (Screenshot (capture "a" 10));
           activity_metadata (Screenshot (capture "b" 20))].
Proof.
  apply (screen_poller_appends_each_capture width embed_const always_ok "1.7.4" 5
           [capture_tick "a" 10; capture_tick "b" 20] started_manager
           {| d := 2; vectors := [] |} "s.joblib"
           [capture "a" 10; capture "b" 20]
           eq_refl eq_refl eq_refl eq_refl eq_refl).
  - repeat constructor.
  - simpl. lia.
Defined.

Lemma app_poller_records_each_switch_witness :
  metadata_store
    (mgr (faiss_index_manager
       (Scheduler._record_app_activity width embed_const always_ok "1.7.4"
          keywords_id 1
          [editor_tick 50; browser_tick 60; editor_tick 70] started_manager)))
  = map activity_metadata
      ([] ++ map Application
               (PollerSpec.observed_activities keywords_id
                  (app_activity_recorder started_manager)
                  [editor_tick 50; browser_tick 60; editor_tick 70])).
Proof.
  apply (app_poller_records_each_switch width embed_const always_ok "1.7.4"
           keywords_id 1
           [editor_tick 50; browser_tick 60; editor_tick 70] started_manager
           {| d := 2; vectors := [] |} "s.joblib" []
           eq_refl eq_refl eq_refl eq_refl eq_refl).
  - simpl. lia.
  - simpl. repeat split; discriminate.
  - repeat constructor.
Defined.

Lemma switch_duration_is_dwell_time_witness :
  exists first second,
    session_activites
      (Scheduler._record_app_activity width embed_const always_ok "1.7.4"
         keywords_id 1 [editor_tick 50; browser_tick 60] started_manager)
    = [] ++ [Application first; Application second]
    /\ duration_seconds second = 10%Z.
Proof.
  destruct (switch_duration_is_dwell_time width embed_const always_ok "1.7.4"
              keywords_id 1 started_manager (editor_tick 50) (browser_tick 60)
              {| d := 2; vectors := [] |} "s.joblib" []
              eq_refl eq_refl eq_refl eq_refl eq_refl)
    as (f & s & Hs & _ & _ & Hd).
  - simpl. lia.
  - simpl. repeat split; discriminate.
  - repeat constructor.
  - exists f, s. split; [exact Hs|exact Hd].
Defined.

End SchedulerMore.

(** ** The redactor: what is blurred, degenerate and empty boxes *)

Module RedactorMore.
Import Redactor RedactorSpec Fixtures PyStrFacts RedactorFacts.
Local Open Scope list_scope.

Lemma leb_shift (a x : Z) : (0 <=? x - a)%Z = (a <=? x)%Z.
Proof. destruct (Z.leb_spec 0 (x - a)), (Z.leb_spec a x); reflexivity || lia. Qed.

Lemma ltb_shift (a b x : Z) : (x - a <? b - a)%Z = (x <? b)%Z.
Proof. destruct (Z.ltb_spec (x - a) (b - a)), (Z.ltb_spec x b); reflexivity || lia. Qed.

Section WithPIL.

Variable gaussian_blur : Z -> image -> image.
Variable polygon_covers : list (Z * Z) -> Z -> Z -> bool.
Variable blend : Z -> pixel -> pixel -> pixel.
Hypothesis blur_keeps_size : keeps_size gaussian_blur.

Abbreviation blur_one := (blur_one gaussian_blur polygon_covers blend).
Abbreviation blur_all := (blur_all gaussian_blur polygon_covers blend).
Abbreviation blur_regions_with_bboxs :=
  (blur_regions_with_bboxs gaussian_blur polygon_covers blend).
Abbreviation blurred_by := (blurred_by polygon_covers).
Abbreviation blurred_crop := (blurred_crop gaussian_blur).

(** One box, pixel by pixel: inside the image, the rectangle and the
    painted polygon the working copy takes the pixel of the blurred crop;
    everywhere else it keeps its own. *)
Lemma blur_one_pixels (h : heap) img cur r bbox :
  h !! img = Some cur ->
  bbox <> [] ->
  exists h' cur',
    blur_one img r bbox h = (inr tt, h')
    /\ h' !! img = Some cur'
    /\ im_width cur' = im_width cur
    /\ im_height cur' = im_height cur
    /\ (forall k x, k <> img -> h !! k = Some x -> h' !! k = Some x)
    /\ (forall x y,
          px cur' x y
          = if in_bounds cur x y && blurred_by bbox x y
            then px (blurred_crop r cur bbox)
                   (x - fst (origin bbox)) (y - snd (origin bbox))
            else px cur x y).
Proof.
  intros Himg Hne.
  destruct (zmin_nonempty (map fst bbox)) as [min_x Exn];
    [apply map_nonempty, Hne|].
  destruct (zmax_nonempty (map fst bbox)) as [max_x Exx];
    [apply map_nonempty, Hne|].
  destruct (zmin_nonempty (map snd bbox)) as [min_y Eyn];
    [apply map_nonempty, Hne|].
  destruct (zmax_nonempty (map snd bbox)) as [max_y Eyx];
    [apply map_nonempty, Hne|].
  unfold Redactor.blur_one, RedactorSpec.blurred_by, RedactorSpec.blurred_crop,
    origin, spans_area.
  rewrite Exn, Exx, Eyn, Eyx. simpl fst. simpl snd.
  destruct ((max_x <=? min_x)%Z || (max_y <=? min_y)%Z) eqn:Edeg.
  { exists h, cur. repeat split; auto. intros x y. simpl.
    rewrite andb_false_r. reflexivity. }
  set (pts := map (fun p : Z * Z => ((p.1 - min_x)%Z, (p.2 - min_y)%Z)) bbox).
  set (c := cropped cur min_x min_y max_x max_y).
  set (b := gaussian_blur r c).
  set (m0 := blank_mask (im_width b) (im_height b)).
  set (m1 := with_polygon polygon_covers m0 pts).
  set (h1 := h ++ [c]). set (h2 := h1 ++ [b]). set (h3 := h2 ++ [m0]).
  set (h4 := <[List.length h2 := m1]> h3).
  set (cur' := pasted blend cur b m1 min_x min_y).
  assert (Li : img < List.length h) by (eapply lookup_lt_Some; exact Himg).
  assert (L1 : List.length h1 = S (List.length h))
    by (subst h1; rewrite length_app; simpl; lia).
  assert (L2 : List.length h2 = S (List.length h1))
    by (subst h2; rewrite length_app; simpl; lia).
  assert (L3 : List.length h3 = S (List.length h2))
    by (subst h3; rewrite length_app; simpl; lia).
  assert (Hold : forall k x, h !! k = Some x -> h4 !! k = Some x).
  { intros k x Hk. assert (k < List.length h) by (eapply lookup_lt_Some; exact Hk).
    subst h4. rewrite list_lookup_insert_ne by lia.
    subst h3 h2 h1. do 3 apply lookup_old. exact Hk. }
  assert (Hb : h4 !! List.length h1 = Some b).
  { subst h4. rewrite list_lookup_insert_ne by lia.
    subst h3. apply lookup_old. subst h2. apply lookup_fresh. }
  assert (Hm : h4 !! List.length h2 = Some m1).
  { subst h4. apply list_lookup_insert_eq. lia. }
  exists (<[img := cur']> h4), cur'.
  split; [|split; [|split; [|split; [|split]]]].
  - rewrite (bind_step _ _ _ _ _ (crop_runs _ _ _ _ _ _ _ Himg)).
    fold c h1.
    rewrite (bind_step _ _ _ _ _
               (filter_blur_runs gaussian_blur _ _ _ r (lookup_fresh h c))).
    fold b h1 h2.
    rewrite (bind_step _ _ _ _ _ (deref_found _ _ _ (lookup_fresh h1 b))).
    fold h2. unfold new_mask.
    rewrite (bind_step _ _ _ _ _ (alloc_runs _ _)). fold m0 h3.
    rewrite (bind_step _ _ _ _ _
               (draw_polygon_runs polygon_covers _ _ _ pts (lookup_fresh h2 m0))).
    fold pts m1 h4.
    apply paste_runs; try assumption.
    + apply Hold. exact Himg.
    + split; reflexivity.
  - apply list_lookup_insert_eq. subst h4. rewrite length_insert. lia.
  - reflexivity.
  - reflexivity.
  - intros k x Hk Hx. unfold heap.
    rewrite list_lookup_insert_ne by (intros E; apply Hk; symmetry; exact E).
    apply Hold. exact Hx.
  - intros x y. subst cur'. unfold pasted. cbn [px].
    assert (Eb : in_bounds b (x - min_x) (y - min_y)
                 = (min_x <=? x)%Z && (x <? max_x)%Z
                   && (min_y <=? y)%Z && (y <? max_y)%Z).
    { unfold in_bounds, b. destruct (blur_keeps_size r c) as [-> ->].
      unfold c. cbn [im_width im_height cropped].
      rewrite !leb_shift, !ltb_shift. reflexivity. }
    assert (Em : px m1 (x - min_x) (y - min_y)
                 = if in_bounds b (x - min_x) (y - min_y)
                      && polygon_covers pts (x - min_x) (y - min_y)
                   then [255%Z] else [0%Z]).
    { reflexivity. }
    rewrite Em, Eb. cbn [negb].
    destruct (in_bounds cur x y); [|reflexivity].
    destruct (min_x <=? x)%Z, (x <? max_x)%Z, (min_y <=? y)%Z, (y <? max_y)%Z;
      cbn [andb]; try reflexivity.
    destruct (polygon_covers pts (x - min_x) (y - min_y)); reflexivity.
Qed.

Lemma in_bounds_same_size (a b : image) x y :
  im_width a = im_width b -> im_height a = im_height b ->
  in_bounds a x y = in_bounds b x y.
Proof. intros Hw Hh. unfold in_bounds. rewrite Hw, Hh. reflexivity. Qed.

(** All boxes: a pixel that no box blurs is kept; a pixel inside the image
    that some box blurs ends as a pixel of a blurred crop. *)
Lemma blur_all_pixels r bboxes : forall (h : heap) img cur,
  h !! img = Some cur ->
  (forall bbox, In bbox bboxes -> bbox <> []) ->
  exists h' cur',
    blur_all img r bboxes h = (inr tt, h')
    /\ h' !! img = Some cur'
    /\ im_width cur' = im_width cur
    /\ im_height cur' = im_height cur
    /\ (forall k x, k <> img -> h !! k = Some x -> h' !! k = Some x)
    /\ (forall x y,
          (forall bbox, In bbox bboxes -> blurred_by bbox x y = false) ->
          px cur' x y = px cur x y)
    /\ (forall x y,
          in_bounds cur x y = true ->
          (exists bbox, In bbox bboxes /\ blurred_by bbox x y = true) ->
          exists src bbox,
            In bbox bboxes
            /\ px cur' x y
               = px (blurred_crop r src bbox)
                   (x - fst (origin bbox)) (y - snd (origin bbox))).
Proof.
  induction bboxes as [|bbox tl IH]; intros h img cur Himg Hne.
  - exists h, cur. repeat split; auto. intros x y _ (b & [] & _).
  - destruct (blur_one_pixels h img cur r bbox Himg (Hne bbox (or_introl eq_refl)))
      as (h1 & cur1 & E1 & Himg1 & Hw1 & Hh1 & Hold1 & Hpx1).
    destruct (IH h1 img cur1 Himg1 (fun b Hb => Hne b (or_intror Hb)))
      as (h2 & cur2 & E2 & Himg2 & Hw2 & Hh2 & Hold2 & Hkeep2 & Hblur2).
    exists h2, cur2. split; [|split; [|split; [|split; [|split; [|split]]]]].
    + simpl. rewrite (bind_step _ _ _ _ _ E1). exact E2.
    + exact Himg2.
    + congruence.
    + congruence.
    + intros k x Hk Hx. apply Hold2; [exact Hk|]. apply Hold1; assumption.
    + intros x y Hno. rewrite Hkeep2 by (intros b Hb; apply Hno; right; exact Hb).
      rewrite Hpx1, (Hno bbox (or_introl eq_refl)), andb_false_r. reflexivity.
    + intros x y Hin Hex.
      destruct (existsb (fun b => blurred_by b x y) tl) eqn:Et.
      * apply existsb_exists in Et. destruct Et as (b & Hb & Hbb).
        destruct (Hblur2 x y) as (src & b' & Hb' & Hp).
        -- rewrite (in_bounds_same_size cur1 cur) by assumption. exact Hin.
        -- exists b. split; assumption.
        -- exists src, b'. split; [right; exact Hb'|exact Hp].
      * assert (Hno : forall b, In b tl -> blurred_by b x y = false).
        { intros b Hb. destruct (blurred_by b x y) eqn:Eb; [|reflexivity].
          assert (existsb (fun b => blurred_by b x y) tl = true)
            by (apply existsb_exists; exists b; split; assumption).
          congruence. }
        destruct Hex as (b & [<-|Hb] & Hbb); [|rewrite (Hno b Hb) in Hbb; discriminate].
        exists cur, bbox. split; [left; reflexivity|].
        rewrite (Hkeep2 x y Hno), Hpx1, Hin, Hbb. reflexivity.
Qed.

(** Running the boxes [pre] first and the remaining ones from the heap
    they leave is running them all. *)
Lemma blur_all_split r pre rest : forall (h : heap) img cur,
  h !! img = Some cur ->
  (forall bbox, In bbox pre -> bbox <> []) ->
  exists h1 mid,
    blur_all img r pre h = (inr tt, h1)
    /\ h1 !! img = Some mid
    /\ im_width mid = im_width cur
    /\ im_height mid = im_height cur
    /\ blur_all img r (pre ++ rest) h = blur_all img r rest h1.
Proof.
  induction pre as [|bbox pre IH]; intros h img cur Himg Hne.
  - exists h, cur. repeat split; auto.
  - destruct (blur_one_pixels h img cur r bbox Himg (Hne bbox (or_introl eq_refl)))
      as (h0 & cur0 & E0 & Himg0 & Hw0 & Hh0 & _ & _).
    destruct (IH h0 img cur0 Himg0 (fun b Hb => Hne b (or_intror Hb)))
      as (h1 & mid & E1 & Himg1 & Hw1 & Hh1 & Eapp).
    exists h1, mid. split; [|split; [|split; [|split]]].
    + simpl. rewrite (bind_step _ _ _ _ _ E0). exact E1.
    + exact Himg1.
    + congruence.
    + congruence.
    + simpl. rewrite !(bind_step _ _ _ _ _ E0). exact Eapp.
Qed.

(** Among the boxes that blur a pixel there is a last one. *)
Lemma last_blurring_box bboxes x y :
  (exists bbox, In bbox bboxes /\ blurred_by bbox x y = true) ->
  exists pre bbox post,
    bboxes = pre ++ bbox :: post
    /\ blurred_by bbox x y = true
    /\ (forall b, In b post -> blurred_by b x y = false).
Proof.
  induction bboxes as [|a tl IH]; intros (b & Hb & Hbb); [destruct Hb|].
  destruct (existsb (fun b => blurred_by b x y) tl) eqn:Et.
  - apply existsb_exists in Et. destruct (IH Et) as (pre & bbox & post & -> & H1 & H2).
    exists (a :: pre), bbox, post. repeat split; assumption.
  - assert (Hno : forall b, In b tl -> blurred_by b x y = false).
    { intros b' Hb'. destruct (blurred_by b' x y) eqn:Eb; [|reflexivity].
      assert (existsb (fun b => blurred_by b x y) tl = true)
        by (apply existsb_exists; exists b'; split; assumption).
      congruence. }
    destruct Hb as [<-|Hb]; [|rewrite (Hno b Hb) in Hbb; discriminate].
    exists [], a, tl. repeat split; assumption.
Qed.

(** The whole call: the result is a new object and the existing ones are
    kept.  A pixel of the screenshot's area takes its value from the last
    box that blurs it: it is the pixel of the blurred crop, for that box,
    of the picture that the call gives for the boxes before it. *)
Lemma blur_regions_last_box (h : heap) l orig bboxes r :
  h !! l = Some orig ->
  (forall bbox, In bbox bboxes -> bbox <> []) ->
  exists out h',
    blur_regions_with_bboxs l bboxes r h = (inr (List.length h), h')
    /\ h' !! List.length h = Some out
    /\ (forall k im, h !! k = Some im -> h' !! k = Some im)
    /\ (forall pre bbox post x y,
          bboxes = pre ++ bbox :: post ->
          in_bounds orig x y = true ->
          blurred_by bbox x y = true ->
          (forall b, In b post -> blurred_by b x y = false) ->
          exists mid h1,
            blur_regions_with_bboxs l pre r h = (inr (List.length h), h1)
            /\ h1 !! List.length h = Some mid
            /\ px out x y
               = px (blurred_crop r mid bbox)
                   (x - fst (origin bbox)) (y - snd (origin bbox))).
Proof.
  intros Hl Hne.
  assert (Ll : l < List.length h) by (eapply lookup_lt_Some; exact Hl).
  set (h0 := h ++ [converted orig]).
  assert (H0 : h0 !! List.length h = Some (converted orig))
    by (apply lookup_fresh).
  destruct (blur_all_pixels r bboxes h0 (List.length h) (converted orig) H0 Hne)
    as (h' & out & E & Hout & _ & _ & Hold & _ & _).
  assert (Erun : forall bs h2,
             blur_all (List.length h) r bs h0 = (inr tt, h2) ->
             blur_regions_with_bboxs l bs r h = (inr (List.length h), h2)).
  { intros bs h2 E2. unfold Redactor.blur_regions_with_bboxs.
    rewrite (bind_step _ _ _ _ _ (convert_rgba_runs _ _ _ Hl)).
    fold h0. rewrite (bind_step _ _ _ _ _ E2). reflexivity. }
  exists out, h'. split; [|split; [|split]].
  - apply Erun, E.
  - exact Hout.
  - intros k im Hk.
    assert (k < List.length h) by (eapply lookup_lt_Some; exact Hk).
    apply Hold; [lia|]. apply lookup_old. exact Hk.
  - intros pre bbox post x y -> Hin Hb Hpost.
    destruct (blur_all_split r pre (bbox :: post) h0 (List.length h)
                (converted orig) H0)
      as (h1 & mid & E1 & Hmid & Hw1 & Hh1 & Eapp).
    { intros b Hb'. apply Hne, in_or_app. left. exact Hb'. }
    destruct (blur_one_pixels h1 (List.length h) mid r bbox Hmid)
      as (h2 & cur2 & E2 & Hcur2 & _ & _ & _ & Hpx2).
    { apply Hne, in_or_app. right. left. reflexivity. }
    destruct (blur_all_pixels r post h2 (List.length h) cur2 Hcur2)
      as (h3 & cur3 & E3 & Hcur3 & _ & _ & _ & Hkeep3 & _).
    { intros b Hb'. apply Hne, in_or_app. right. right. exact Hb'. }
    assert (Eall : blur_all (List.length h) r (pre ++ bbox :: post) h0
                   = (inr tt, h3)).
    { rewrite Eapp. cbn [Redactor.blur_all].
      rewrite (bind_step _ _ _ _ _ E2). exact E3. }
    rewrite E in Eall. injection Eall as <-.
    rewrite Hout in Hcur3. injection Hcur3 as <-.
    exists mid, h1. split; [apply Erun, E1|]. split; [exact Hmid|].
    rewrite (Hkeep3 x y Hpost), Hpx2.
    rewrite (in_bounds_same_size mid orig) by (rewrite ?Hw1, ?Hh1; reflexivity).
    rewrite Hin, Hb. reflexivity.
Qed.

(** X17. What is flagged is blurred.  When blur_regions_with_bboxs
    returns, a pixel of the screenshot's area that lies in the rectangle
    and the painted polygon of a box, and of no later box, is in the
    result the pixel of the blurred crop for that box, cut from the
    picture that the same call gives for the boxes before it (the RGBA
    copy of the screenshot when the box is the first). *)
Theorem flagged_pixels_are_blurred (h : heap) l orig bboxes r :
  h !! l = Some orig ->
  (forall bbox, In bbox bboxes -> bbox <> []) ->
  exists out h',
    blur_regions_with_bboxs l bboxes r h = (inr (List.length h), h')
    /\ h' !! List.length h = Some out
    /\ blur_regions_with_bboxs l [] r h
       = (inr (List.length h), h ++ [converted orig])
    /\ (forall pre bbox post x y,
          bboxes = pre ++ bbox :: post ->
          in_bounds orig x y = true ->
          blurred_by bbox x y = true ->
          (forall b, In b post -> blurred_by b x y = false) ->
          exists mid h1,
            blur_regions_with_bboxs l pre r h = (inr (List.length h), h1)
            /\ h1 !! List.length h = Some mid
            /\ px out x y
               = px (blurred_crop r mid bbox)
                   (x - fst (origin bbox)) (y - snd (origin bbox))).
Proof.
  intros Hl Hne.
  destruct (blur_regions_last_box h l orig bboxes r Hl Hne)
    as (out & h' & E & Hout & _ & Hlast).
  exists out, h'. split; [exact E|]. split; [exact Hout|]. split; [|exact Hlast].
  unfold Redactor.blur_regions_with_bboxs.
  rewrite (bind_step _ _ _ _ _ (convert_rgba_runs _ _ _ Hl)). reflexivity.
Qed.

End WithPIL.

Lemma blur_grey_keeps_size : keeps_size blur_grey.
Proof. intros radius im. split; reflexivity. Qed.

Lemma flagged_pixels_are_blurred_witness :
  [shot] !! 0 = Some shot
  /\ exists out h',
       Redactor.blur_regions_with_bboxs blur_grey rect_covers blend_source 0
         [text_bounding_box name_chunk] 8 [shot] = (inr 1, h')
       /\ h' !! 1 = Some out
       /\ px out 5 5 = [128; 128; 128; 255]%Z.
Proof.
  assert (H1 : [shot] !! 0 = Some shot) by reflexivity.
  assert (H2 : forall bbox, In bbox [text_bounding_box name_chunk] -> bbox <> []).
  { intros bbox [<-|[]]; discriminate. }
  split; [exact H1|].
  destruct (flagged_pixels_are_blurred blur_grey rect_covers blend_source
              blur_grey_keeps_size [shot] 0 shot [text_bounding_box name_chunk]
              8 H1 H2)
    as (out & h' & E & Hout & _ & Hlast).
  exists out, h'. split; [exact E|]. split; [exact Hout|].
  destruct (Hlast [] (text_bounding_box name_chunk) [] 5%Z 5%Z eq_refl eq_refl)
    as (mid & h1 & _ & _ & Hp).
  - vm_compute. reflexivity.
  - intros b [].
  - rewrite Hp. reflexivity.
Defined.

Section WithAnyBlur.

Variable gaussian_blur : Z -> image -> image.
Variable polygon_covers : list (Z * Z) -> Z -> Z -> bool.
Variable blend : Z -> pixel -> pixel -> pixel.

Abbreviation blur_one' := (Redactor.blur_one gaussian_blur polygon_covers blend).
Abbreviation blur_all' := (Redactor.blur_all gaussian_blur polygon_covers blend).
Abbreviation blur_regions' :=
  (Redactor.blur_regions_with_bboxs gaussian_blur polygon_covers blend).

Lemma blur_one_skips (h : heap) img r bbox :
  bbox <> [] -> spans_area bbox = false -> blur_one' img r bbox h = (inr tt, h).
Proof.
  intros Hne Hs.
  destruct (zmin_nonempty (map fst bbox)) as [min_x Exn];
    [apply map_nonempty, Hne|].
  destruct (zmax_nonempty (map fst bbox)) as [max_x Exx];
    [apply map_nonempty, Hne|].
  destruct (zmin_nonempty (map snd bbox)) as [min_y Eyn];
    [apply map_nonempty, Hne|].
  destruct (zmax_nonempty (map snd bbox)) as [max_y Eyx];
    [apply map_nonempty, Hne|].
  unfold spans_area in Hs. unfold Redactor.blur_one.
  rewrite Exn, Exx, Eyn, Eyx in *.
  apply negb_false_iff in Hs. rewrite Hs. reflexivity.
Qed.

(** X18. Degenerate boxes are skipped.  When every box has points but
    spans no area (its rectangle has no width or no height), nothing is
    cropped, blurred or pasted: the result is exactly the RGBA copy of the
    screenshot, the only object added to the heap. *)
Theorem degenerate_boxes_are_skipped (h : heap) l orig bboxes r :
  h !! l = Some orig ->
  (forall bbox, In bbox bboxes -> bbox <> [] /\ spans_area bbox = false) ->
  blur_regions' l bboxes r h = (inr (List.length h), h ++ [converted orig]).
Proof.
  intros Hl Hdeg. unfold Redactor.blur_regions_with_bboxs.
  rewrite (bind_step _ _ _ _ _ (convert_rgba_runs _ _ _ Hl)).
  assert (Hall : forall h0 : heap,
             blur_all' (List.length h) r bboxes h0 = (inr tt, h0)).
  { induction bboxes as [|bbox tl IH]; intros h0; [reflexivity|].
    simpl. destruct (Hdeg bbox (or_introl eq_refl)) as [Hne Hs].
    rewrite (bind_step _ _ _ _ _ (blur_one_skips h0 _ r bbox Hne Hs)).
    apply IH. intros b Hb. apply Hdeg. right. exact Hb. }
  rewrite (bind_step _ _ _ _ _ (Hall _)). reflexivity.
Qed.

(** X19. A box without points is an error.  If some box is an empty list
    of points, blur_regions_with_bboxs raises the ValueError of min() on an
    empty sequence; the image objects that existed before the call, the
    screenshot included, are as they were. *)
Theorem empty_box_raises (h : heap) l orig bboxes r :
  h !! l = Some orig ->
  In [] bboxes ->
  exists h',
    blur_regions' l bboxes r h
    = (inl (ValueError "min() arg is an empty sequence"), h')
    /\ (forall k im, h !! k = Some im -> h' !! k = Some im).
Proof.
  intros Hl Hin. unfold Redactor.blur_regions_with_bboxs.
  rewrite (bind_step _ _ _ _ _ (convert_rgba_runs _ _ _ Hl)).
  assert (Hall : forall (h0 : heap) cur,
             h0 !! List.length h = Some cur ->
             exists h',
               blur_all' (List.length h) r bboxes h0
               = (inl (ValueError "min() arg is an empty sequence"), h')
               /\ (forall k x, k <> List.length h -> h0 !! k = Some x ->
                               h' !! k = Some x)).
  { induction bboxes as [|bbox tl IH]; intros h0 cur Hc; [destruct Hin|].
    destruct bbox as [|pt bbox].
    - exists h0. split; [reflexivity|]. auto.
    - destruct Hin as [Hin|Hin]; [discriminate|].
      destruct (blur_one_frame gaussian_blur polygon_covers blend h0
                  (List.length h) cur r (pt :: bbox) Hc)
        as (h1 & cur1 & E1 & Hc1 & _ & _ & _ & Hold1 & _); [discriminate|].
      destruct (IH Hin h1 cur1 Hc1) as (h' & E & Hold).
      exists h'. split.
      + cbn [Redactor.blur_all]. rewrite (bind_step _ _ _ _ _ E1). exact E.
      + intros k x Hk Hx. apply Hold; [exact Hk|]. apply Hold1; assumption. }
  destruct (Hall (h ++ [converted orig]) _ (lookup_fresh h _)) as (h' & E & Hold).
  exists h'. split.
  - unfold mbind, M_bind, bind in *. rewrite E. reflexivity.
  - intros k im Hk.
    assert (k < List.length h) by (eapply lookup_lt_Some; exact Hk).
    apply Hold; [lia|]. apply lookup_old. exact Hk.
Qed.

End WithAnyBlur.

Lemma degenerate_boxes_are_skipped_witness :
  [shot] !! 0 = Some shot
  /\ Redactor.blur_regions_with_bboxs blur_grey rect_covers blend_source 0
       [[(3, 3); (3, 9)]%Z] 8 [shot]
     = (inr 1, [shot; converted shot]).
Proof.
  assert (H1 : [shot] !! 0 = Some shot) by reflexivity.
  split; [exact H1|].
  apply (degenerate_boxes_are_skipped blur_grey rect_covers blend_source
           [shot] 0 shot [[(3, 3); (3, 9)]%Z] 8 H1).
  intros bbox [<-|[]]. split; [discriminate|reflexivity].
Defined.

Lemma empty_box_raises_witness :
  [shot] !! 0 = Some shot
  /\ In [] [text_bounding_box name_chunk; []]
  /\ exists h',
       Redactor.blur_regions_with_bboxs blur_grey rect_covers blend_source 0
         [text_bounding_box name_chunk; []] 8 [shot]
       = (inl (ValueError "min() arg is an empty sequence"), h')
       /\ h' !! 0 = Some shot.
Proof.
  assert (H1 : [shot] !! 0 = Some shot) by reflexivity.
  assert (H2 : In [] [text_bounding_box name_chunk; []])
    by (right; left; reflexivity).
  split; [exact H1|]. split; [exact H2|].
  destruct (empty_box_raises blur_grey rect_covers blend_source
              [shot] 0 shot [text_bounding_box name_chunk; []] 8 H1 H2)
    as (h' & E & Hold).
  exists h'. split; [exact E|]. apply Hold. exact H1.
Defined.

End RedactorMore.

(** ** The screenshot recorder *)

Module RecorderFacts.
Import Schemas Redactor RedactorSpec ScannerSpec RecorderSpec Fixtures MoreFixtures.
Import PyStrFacts RedactorFacts RedactorMore.
Local Open Scope list_scope.

(** Every chunk whose lower-cased text contains a sequence is selected. *)
Lemma pii_bounding_boxes_complete chunks sequences c f :
  In c chunks -> In f sequences ->
  PyStr.contains f (PyStr.lower (text c)) = true ->
  In (text_bounding_box c) (pii_bounding_boxes chunks sequences).
Proof.
  intros Hc Hf Hm. unfold pii_bounding_boxes. apply in_flat_map.
  exists c. split; [exact Hc|]. apply in_flat_map. exists f. split; [exact Hf|].
  rewrite Hm. left. reflexivity.
Qed.

Lemma pii_bounding_boxes_none chunks sequences :
  (forall c f, In c chunks -> In f sequences ->
               PyStr.contains f (PyStr.lower (text c)) = false) ->
  pii_bounding_boxes chunks sequences = [].
Proof.
  intros H. destruct (pii_bounding_boxes chunks sequences) as [|b l] eqn:E;
    [reflexivity|].
  assert (Hin : In b (pii_bounding_boxes chunks sequences))
    by (rewrite E; left; reflexivity).
  unfold pii_bounding_boxes in Hin. apply in_flat_map in Hin.
  destruct Hin as (c & Hc & Hin). apply in_flat_map in Hin.
  destruct Hin as (f & Hf & Hin). rewrite (H c f Hc Hf) in Hin. destruct Hin.
Qed.

Lemma contains_empty s : PyStr.contains "" s = true.
Proof. destruct s; reflexivity. Qed.

(** X21. An empty fragment flags every chunk.  The empty string occurs in
    every text, so once it is among the sequences the box of every chunk is
    selected for blurring; and the merger does produce it, for a token
    that consists of the continuation marker alone. *)
Theorem empty_fragment_flags_every_chunk :
  (forall chunks sequences c,
      In "" sequences -> In c chunks ->
      In (text_bounding_box c) (pii_bounding_boxes chunks sequences))
  /\ (forall (nsl : gmap string Z) label_type,
        nsl !! String "B" (String "-" label_type) = None ->
        Merger.extract_sensitive_sequences
          [Merger.tok "##" (String "B" (String "-" label_type))] nsl
        = [""]).
Proof.
  split.
  - intros chunks sequences c Hs Hc.
    apply (pii_bounding_boxes_complete chunks sequences c "" Hc Hs).
    apply contains_empty.
  - intros nsl T Hn. unfold Merger.extract_sensitive_sequences, Merger.run.
    simpl. unfold Merger.step. simpl.
    rewrite bool_decide_eq_false_2 by (rewrite Hn; intros [? ?]; discriminate).
    reflexivity.
Qed.

Lemma empty_fragment_flags_every_chunk_witness :
  In "" [""] /\ In plain_chunk [name_chunk; plain_chunk]
  /\ In (text_bounding_box plain_chunk)
       (pii_bounding_boxes [name_chunk; plain_chunk] [""])
  /\ Merger.non_senstive_label2id !! "B-PER" = None
  /\ Merger.extract_sensitive_sequences [Merger.tok "##" "B-PER"]
       Merger.non_senstive_label2id = [""].
Proof.
  assert (H1 : In "" [""]) by (left; reflexivity).
  assert (H2 : In plain_chunk [name_chunk; plain_chunk])
    by (right; left; reflexivity).
  assert (H3 : Merger.non_senstive_label2id !! "B-PER" = None)
    by (vm_compute; reflexivity).
  destruct empty_fragment_flags_every_chunk as [Hflag Hmerge].
  split; [exact H1|]. split; [exact H2|].
  split; [exact (Hflag _ _ _ H1 H2)|].
  split; [exact H3|]. exact (Hmerge _ "PER" H3).
Defined.

Section WithServices.

Variable gaussian_blur : Z -> image -> image.
Variable polygon_covers : list (Z * Z) -> Z -> Z -> bool.
Variable blend : Z -> pixel -> pixel -> pixel.
Variable ocr_extract : image -> list TextOCRChunk.
Variable ner_extract : string -> Z -> list Merger.NEREntity.
Variable extract_keywords : string -> string.

Abbreviation record_activity :=
  (record_activity gaussian_blur polygon_covers blend ocr_extract ner_extract
     extract_keywords).
Abbreviation blurred_by := (blurred_by polygon_covers).
Abbreviation blurred_crop := (blurred_crop gaussian_blur).
Abbreviation blur_regions_with_bboxs :=
  (blur_regions_with_bboxs gaussian_blur polygon_covers blend).

Abbreviation all_text_of := (all_text_of ocr_extract).
Abbreviation sequences_of := (sequences_of ocr_extract ner_extract).

(** X22. The bypass and the no-match outcome of the recorder.  With
    hide_sensitive_info off, record_activity allocates nothing and stores
    the screenshot itself as both images, with empty text and keywords.
    With it on, when the chunks read off the screenshot are ASCII text and
    no chunk's lower-cased text contains any sequence, the modified image
    is a new object that is exactly the RGBA copy of the screenshot. *)
Theorem unflagged_screenshot_is_copied (h : heap) l shot threshold new_id now :
  h !! l = Some shot ->
  record_activity l threshold false new_id now h
  = (inr {| screenshot_id := new_id; screenshot_ocr_text := "";
            keywords := ""; original_screenshot_pil_image := l;
            modified_screenshot_pil_image := l;
            screenshot_timestamp := now |}, h)
  /\ ((forall c, In c (ocr_extract shot) -> ascii_only (text c)) ->
      (forall c f, In c (ocr_extract shot) -> In f (sequences_of shot threshold) ->
                   PyStr.contains f (PyStr.lower (text c)) = false) ->
      record_activity l threshold true new_id now h
      = (inr {| screenshot_id := new_id;
                screenshot_ocr_text := all_text_of shot;
                keywords := extract_keywords (all_text_of shot);
                original_screenshot_pil_image := l;
                modified_screenshot_pil_image := List.length h;
                screenshot_timestamp := now |},
         h ++ [converted shot])).
Proof.
  intros Hl. split; [reflexivity|]. intros _ Hno.
  unfold Redactor.record_activity. cbn [negb].
  rewrite (bind_step _ _ _ _ _ (deref_found _ _ _ Hl)).
  unfold redact. fold (all_text_of shot).
  change (Merger.extract_sensitive_sequences
            (ner_extract (all_text_of shot) threshold) Merger.non_senstive_label2id
          ++ Scanner.extract_common_pii_sequences (all_text_of shot))
    with (sequences_of shot threshold).
  rewrite (pii_bounding_boxes_none _ _ Hno).
  unfold Redactor.blur_regions_with_bboxs.
  rewrite (bind_step _ _ _ _ _
             (bind_step _ _ _ _ _ (convert_rgba_runs _ _ _ Hl))).
  reflexivity.
Qed.

Hypothesis blur_keeps_size : keeps_size gaussian_blur.

(** X23. What the recorder stores is redacted.  With hide_sensitive_info
    on and chunks of ASCII text, record_activity keeps the screenshot
    object untouched as the original image and stores a new object as the
    modified image.  Take a pixel of the screenshot's area that lies in the
    rectangle and painted polygon of a chunk whose lower-cased text
    contains a sequence of the tagger or the scanner.  Among the selected
    boxes there is a last one that covers the pixel, and in the modified
    image the pixel is the pixel of the blurred crop (radius 8) for that
    box, cut from the picture that the redactor gives for the selected
    boxes before it. *)
Theorem recorded_screenshot_is_redacted (h : heap) l shot threshold new_id now :
  h !! l = Some shot ->
  (forall c, In c (ocr_extract shot) -> text_bounding_box c <> []) ->
  (forall c, In c (ocr_extract shot) -> ascii_only (text c)) ->
  exists act out h',
    record_activity l threshold true new_id now h = (inr act, h')
    /\ original_screenshot_pil_image act = l
    /\ modified_screenshot_pil_image act <> l
    /\ h' !! l = Some shot
    /\ h' !! modified_screenshot_pil_image act = Some out
    /\ (forall c f x y,
          In c (ocr_extract shot) ->
          In f (sequences_of shot threshold) ->
          PyStr.contains f (PyStr.lower (text c)) = true ->
          in_bounds shot x y = true ->
          blurred_by (text_bounding_box c) x y = true ->
          exists pre bbox post mid h1,
            pii_bounding_boxes (ocr_extract shot) (sequences_of shot threshold)
            = pre ++ bbox :: post
            /\ blurred_by bbox x y = true
            /\ (forall b, In b post -> blurred_by b x y = false)
            /\ blur_regions_with_bboxs l pre 8 h
               = (inr (modified_screenshot_pil_image act), h1)
            /\ h1 !! modified_screenshot_pil_image act = Some mid
            /\ px out x y
               = px (blurred_crop 8 mid bbox)
                   (x - fst (origin bbox)) (y - snd (origin bbox))).
Proof.
  intros Hl Hne _.
  assert (Ll : l < List.length h) by (eapply lookup_lt_Some; exact Hl).
  set (boxes := pii_bounding_boxes (ocr_extract shot) (sequences_of shot threshold)).
  assert (Hb : forall bbox, In bbox boxes -> bbox <> []).
  { intros bbox Hin.
    destruct (pii_bounding_boxes_selected _ _ _ Hin) as (c & f & Hc & _ & _ & <-).
    apply Hne, Hc. }
  destruct (blur_regions_last_box gaussian_blur polygon_covers blend
              blur_keeps_size h l shot boxes 8 Hl Hb)
    as (out & h' & E & Hout & Hold & Hlast).
  eexists _, out, h'. split; [|split; [|split; [|split; [|split]]]].
  - unfold Redactor.record_activity. cbn [negb].
    rewrite (bind_step _ _ _ _ _ (deref_found _ _ _ Hl)).
    unfold redact. fold (all_text_of shot).
    change (Merger.extract_sensitive_sequences
              (ner_extract (all_text_of shot) threshold)
              Merger.non_senstive_label2id
            ++ Scanner.extract_common_pii_sequences (all_text_of shot))
      with (sequences_of shot threshold).
    fold boxes. rewrite (bind_step _ _ _ _ _ E). reflexivity.
  - reflexivity.
  - simpl. lia.
  - apply Hold. exact Hl.
  - exact Hout.
  - intros c f x y Hc Hf Hm Hin Hbl. cbn [modified_screenshot_pil_image].
    destruct (last_blurring_box polygon_covers boxes x y)
      as (pre & bbox & post & Esplit & Hbb & Hpost).
    { exists (text_bounding_box c). split; [|exact Hbl].
      apply (pii_bounding_boxes_complete _ _ c f Hc Hf Hm). }
    destruct (Hlast pre bbox post x y Esplit Hin Hbb Hpost)
      as (mid & h1 & E1 & Hmid & Hp).
    exists pre, bbox, post, mid, h1. repeat split; assumption.
Qed.

End WithServices.

Lemma ascii_only_plain : forall c, In c (ocr_plain shot) -> ascii_only (text c).
Proof.
  intros c [<-|[]]. unfold ascii_only, free_of. simpl. repeat constructor.
Qed.

Lemma ascii_only_two : forall c, In c (ocr_two shot) -> ascii_only (text c).
Proof.
  intros c [<-|[<-|[]]]; unfold ascii_only, free_of; simpl; repeat constructor.
Qed.

Lemma unflagged_screenshot_is_copied_witness :
  [shot] !! 0 = Some shot
  /\ Redactor.record_activity blur_grey rect_covers blend_source ocr_plain
       ner_none keywords_id 0 500 false "id1" 7 [shot]
     = (inr {| screenshot_id := "id1"; screenshot_ocr_text := "";
               keywords := ""; original_screenshot_pil_image := 0;
               modified_screenshot_pil_image := 0;
               screenshot_timestamp := 7 |}, [shot])
  /\ Redactor.record_activity blur_grey rect_covers blend_source ocr_plain
       ner_none keywords_id 0 500 true "id1" 7 [shot]
     = (inr {| screenshot_id := "id1"; screenshot_ocr_text := "hello";
               keywords := "hello"; original_screenshot_pil_image := 0;
               modified_screenshot_pil_image := 1;
               screenshot_timestamp := 7 |}, [shot; converted shot]).
Proof.
  assert (H1 : [shot] !! 0 = Some shot) by reflexivity.
  destruct (unflagged_screenshot_is_copied blur_grey rect_covers blend_source
              ocr_plain ner_none keywords_id [shot] 0 shot 500 "id1" 7%Z H1)
    as [Hoff Hon].
  split; [exact H1|]. split; [exact Hoff|].
  apply Hon; [exact ascii_only_plain|].
  intros c f _ Hf. vm_compute in Hf. destruct Hf.
Defined.

Lemma recorded_screenshot_is_redacted_witness :
  [shot] !! 0 = Some shot
  /\ exists act out h',
       Redactor.record_activity blur_grey rect_covers blend_source ocr_two
         ner_john keywords_id 0 500 true "id1" 7 [shot] = (inr act, h')
       /\ original_screenshot_pil_image act = 0
       /\ h' !! 0 = Some shot
       /\ h' !! modified_screenshot_pil_image act = Some out
       /\ px out 5 5 = [128; 128; 128; 255]%Z.
Proof.
  assert (H1 : [shot] !! 0 = Some shot) by reflexivity.
  assert (H2 : forall c, In c (ocr_two shot) -> text_bounding_box c <> []).
  { intros c [<-|[<-|[]]]; discriminate. }
  split; [exact H1|].
  destruct (recorded_screenshot_is_redacted blur_grey rect_covers blend_source
              ocr_two ner_john keywords_id blur_grey_keeps_size
              [shot] 0 shot 500 "id1" 7%Z H1 H2 ascii_only_two)
    as (act & out & h' & E & Ho & _ & Hold & Hout & Hblur).
  exists act, out, h'. split; [exact E|]. split; [exact Ho|].
  split; [exact Hold|]. split; [exact Hout|].
  destruct (Hblur name_chunk "john" 5%Z 5%Z)
    as (pre & bbox & post & mid & h1 & Esplit & Hbb & _ & _ & _ & Hp).
  - left; reflexivity.
  - vm_compute. left; reflexivity.
  - reflexivity.
  - reflexivity.
  - vm_compute. reflexivity.
  - rewrite Hp.
    assert (Eb : bbox = text_bounding_box name_chunk).
    { assert (Ebox : pii_bounding_boxes (ocr_two shot)
                       (sequences_of ocr_two ner_john shot 500)
                     = [text_bounding_box name_chunk])
        by (vm_compute; reflexivity).
      rewrite Ebox in Esplit.
      destruct pre as [|b0 [|b1 pre]]; simpl in Esplit.
      - injection Esplit as <- _. reflexivity.
      - discriminate Esplit.
      - discriminate Esplit. }
    rewrite Eb. reflexivity.
Defined.

End RecorderFacts.

(** ** The single-box blur *)

Module SingleBlurFacts.
Import Redactor SingleBlur Fixtures RedactorFacts.
Local Open Scope list_scope.

Lemma copy_runs (h : heap) l im :
  h !! l = Some im -> copy l h = (inr (List.length h), h ++ [im]).
Proof.
  intros H. unfold copy. rewrite (bind_step _ _ _ _ _ (deref_found _ _ _ H)).
  reflexivity.
Qed.

Section WithPIL.

Variable gaussian_blur : Z -> image -> image.
Variable polygon_covers : list (Z * Z) -> Z -> Z -> bool.
Variable blend : Z -> pixel -> pixel -> pixel.

Abbreviation blur_region_with_bbox :=
  (blur_region_with_bbox gaussian_blur polygon_covers blend).

(** X20. blur_region_with_bbox takes boxes of exactly four points and
    rejects any other with ValueError before touching the heap.  For four
    points, and a blur that keeps the image's size, it returns a new image
    and leaves every existing object, its argument included, as it was; in
    the new image a pixel inside the image and the painted polygon is the
    pixel of the blurred image, and every other pixel is the original's. *)
Theorem single_blur_replaces_polygon_only (h : heap) l orig bbox :
  h !! l = Some orig ->
  (List.length bbox <> 4 ->
     blur_region_with_bbox l bbox h
     = (inl (ValueError "Bounding box must be a list of four [x, y] points."), h))
  /\ (List.length bbox = 4 ->
      im_width (gaussian_blur 10 orig) = im_width orig ->
      im_height (gaussian_blur 10 orig) = im_height orig ->
      exists l' out h',
        blur_region_with_bbox l bbox h = (inr l', h')
        /\ l' <> l
        /\ (forall k im, h !! k = Some im -> h' !! k = Some im)
        /\ h' !! l' = Some out
        /\ im_mode out = im_mode orig
        /\ im_width out = im_width orig
        /\ im_height out = im_height orig
        /\ (forall x y,
              px out x y
              = if in_bounds orig x y && polygon_covers bbox x y
                then px (gaussian_blur 10 orig) x y
                else px orig x y)).
Proof.
  intros Hl. split.
  - intros Hn. unfold SingleBlur.blur_region_with_bbox.
    apply Nat.eqb_neq in Hn. rewrite Hn. reflexivity.
  - intros H4 Hw Hh. unfold SingleBlur.blur_region_with_bbox.
    rewrite H4. cbn [Nat.eqb negb].
    set (m0 := blank_mask (im_width orig) (im_height orig)).
    set (m1 := with_polygon polygon_covers m0 bbox).
    set (b := gaussian_blur 10 orig).
    set (h1 := h ++ [m0]). set (h2 := <[List.length h := m1]> h1).
    set (h3 := h2 ++ [b]). set (h4 := h3 ++ [orig]).
    set (out := pasted blend orig b m1 0 0).
    assert (Ll : l < List.length h) by (eapply lookup_lt_Some; exact Hl).
    assert (L1 : List.length h1 = S (List.length h))
      by (subst h1; rewrite length_app; simpl; lia).
    assert (L2 : List.length h2 = S (List.length h))
      by (subst h2; rewrite length_insert; exact L1).
    assert (L3 : List.length h3 = S (S (List.length h)))
      by (subst h3; rewrite length_app; simpl; lia).
    assert (Hold2 : forall k x, h !! k = Some x -> h2 !! k = Some x).
    { intros k x Hk. assert (k < List.length h) by (eapply lookup_lt_Some; exact Hk).
      subst h2. rewrite list_lookup_insert_ne by lia.
      subst h1. apply lookup_old. exact Hk. }
    assert (Hm2 : h2 !! List.length h = Some m1).
    { subst h2. apply list_lookup_insert_eq. lia. }
    assert (Hold4 : forall k x, h2 !! k = Some x -> h4 !! k = Some x).
    { intros k x Hk. subst h4 h3. do 2 apply lookup_old. exact Hk. }
    assert (Hb4 : h4 !! List.length h2 = Some b).
    { subst h4. apply lookup_old. subst h3. apply lookup_fresh. }
    exists (List.length h3), out, (<[List.length h3 := out]> h4).
    split; [|split; [|split; [|split; [|split; [|split; [|split]]]]]].
    + rewrite (bind_step _ _ _ _ _ (deref_found _ _ _ Hl)).
      unfold new_mask. rewrite (bind_step _ _ _ _ _ (alloc_runs _ _)).
      fold m0 h1.
      rewrite (bind_step _ _ _ _ _
                 (draw_polygon_runs polygon_covers _ _ _ bbox (lookup_fresh h m0))).
      fold m1 h1 h2.
      rewrite (bind_step _ _ _ _ _
                 (filter_blur_runs gaussian_blur _ _ _ 10 (Hold2 _ _ Hl))).
      fold b h3. unfold composite.
      rewrite (bind_step _ _ _ _ _
                 (copy_runs _ _ _ (lookup_old _ b _ _ (Hold2 _ _ Hl)))).
      fold h3 h4.
      rewrite (bind_step _ _ _ _ _
                 (paste_runs blend h4 (List.length h3) (List.length h2)
                    (List.length h) orig b m1 0 0
                    (lookup_fresh h3 orig) Hb4 (Hold4 _ _ Hm2)
                    (conj Hw Hh))).
      reflexivity.
    + lia.
    + intros k im Hk.
      assert (k < List.length h) by (eapply lookup_lt_Some; exact Hk).
      unfold heap. rewrite list_lookup_insert_ne by lia.
      apply Hold4, Hold2, Hk.
    + apply list_lookup_insert_eq. subst h4. rewrite length_app. simpl. lia.
    + reflexivity.
    + reflexivity.
    + reflexivity.
    + intros x y. subst out. unfold pasted. cbn [px].
      rewrite !Z.sub_0_r.
      assert (Eb : in_bounds b x y = in_bounds orig x y).
      { unfold in_bounds, b. rewrite Hw, Hh. reflexivity. }
      assert (Em : px m1 x y
                   = if in_bounds orig x y && polygon_covers bbox x y
                     then [255%Z] else [0%Z]) by reflexivity.
      rewrite Em, Eb.
      destruct (in_bounds orig x y); [|reflexivity]. cbn [andb].
      destruct (polygon_covers bbox x y); reflexivity.
Qed.

End WithPIL.

Lemma single_blur_replaces_polygon_only_witness :
  [shot] !! 0 = Some shot
  /\ SingleBlur.blur_region_with_bbox blur_grey rect_covers blend_source 0
       [(0, 0); (50, 0); (50, 10)]%Z [shot]
     = (inl (ValueError "Bounding box must be a list of four [x, y] points."),
        [shot])
  /\ exists l' out h',
       SingleBlur.blur_region_with_bbox blur_grey rect_covers blend_source 0
         (text_bounding_box name_chunk) [shot] = (inr l', h')
       /\ l' <> 0
       /\ h' !! 0 = Some shot
       /\ h' !! l' = Some out
       /\ px out 5 5 = [128; 128; 128; 255]%Z
       /\ px out 5 30 = [10; 20; 30]%Z.
Proof.
  assert (H1 : [shot] !! 0 = Some shot) by reflexivity.
  split; [exact H1|]. split.
  - apply (single_blur_replaces_polygon_only blur_grey rect_covers blend_source
             [shot] 0 shot [(0, 0); (50, 0); (50, 10)]%Z H1).
    simpl. lia.
  - destruct (single_blur_replaces_polygon_only blur_grey rect_covers
                blend_source [shot] 0 shot (text_bounding_box name_chunk) H1)
      as [_ Hfour].
    destruct (Hfour eq_refl eq_refl eq_refl)
      as (l' & out & h' & E & Hn & Hold & Hout & _ & _ & _ & Hpx).
    exists l', out, h'.
    split; [exact E|]. split; [exact Hn|]. split; [apply Hold; exact H1|].
    split; [exact Hout|]. split; rewrite Hpx; reflexivity.
Defined.

End SingleBlurFacts.

(** ** The merger: conservation, fragment count, continuation *)

Module MergerMore.
Import Merger MergerSpec PyStrFacts.
Local Open Scope list_scope.

Lemma string_app_nil_r (s : string) : (s ++ "")%string = s.
Proof. induction s as [|a s IH]; [reflexivity|]. rewrite app_String, IH. reflexivity. Qed.

Lemma string_app_assoc (s t u : string) :
  ((s ++ t) ++ u)%string = (s ++ (t ++ u))%string.
Proof.
  induction s as [|a s IH]; [rewrite !app_empty_l; reflexivity|].
  rewrite !app_String, IH. reflexivity.
Qed.

Lemma join_empty_snoc (l : list string) (x : string) :
  PyStr.join_empty (l ++ [x]) = (PyStr.join_empty l ++ x)%string.
Proof.
  induction l as [|a l IH]; simpl.
  - rewrite string_app_nil_r, app_empty_l. reflexivity.
  - rewrite IH, string_app_assoc. reflexivity.
Qed.

Lemma join_empty_app (l1 l2 : list string) :
  PyStr.join_empty (l1 ++ l2)
  = (PyStr.join_empty l1 ++ PyStr.join_empty l2)%string.
Proof.
  induction l1 as [|a l IH]; simpl.
  - rewrite app_empty_l. reflexivity.
  - rewrite IH, string_app_assoc. reflexivity.
Qed.

Lemma content_close_and_clear st : content (close_and_clear st) = content st.
Proof.
  unfold content, close_and_clear. destruct (current_sequence st) eqn:E.
  - rewrite E. reflexivity.
  - cbn [sequences current_sequence]. rewrite join_empty_snoc.
    simpl. rewrite string_app_nil_r. reflexivity.
Qed.

Lemma content_start_new st t T :
  content (start_new st t T) = (content st ++ t)%string.
Proof.
  unfold content, start_new. cbn [sequences current_sequence].
  destruct (current_sequence st).
  - cbn [PyStr.join_empty fold_right].
    rewrite !string_app_nil_r. reflexivity.
  - rewrite join_empty_snoc. cbn [PyStr.join_empty fold_right].
    rewrite !string_app_nil_r. reflexivity.
Qed.

Lemma fragments_close_and_clear st : fragments (close_and_clear st) = fragments st.
Proof.
  unfold fragments, close_and_clear. destruct (current_sequence st) eqn:E.
  - rewrite E. reflexivity.
  - cbn [sequences current_sequence nonempty]. rewrite length_app. simpl. lia.
Qed.

Lemma fragments_start_new st t T :
  fragments (start_new st t T) = S (fragments st).
Proof.
  unfold fragments, start_new. cbn [sequences current_sequence nonempty].
  destruct (current_sequence st); cbn [nonempty].
  - lia.
  - rewrite length_app. simpl. lia.
Qed.

Lemma nonempty_snoc {A} (l : list A) x : nonempty (l ++ [x]) = true.
Proof. destruct l; reflexivity. Qed.

(** One iteration adds the cleaned text of a token that is taken, and
    nothing otherwise; it adds one fragment for a B token, at most one for
    an I token, and none otherwise. *)
Lemma step_content nsl st e :
  content (step nsl st e)
  = (content st ++ (if taken nsl e then clean_text e else ""))%string.
Proof.
  unfold step, taken, prefix_of, clean_text.
  destruct (bool_decide (is_Some (nsl !! entity_label e))).
  { rewrite content_close_and_clear, string_app_nil_r. reflexivity. }
  destruct (PyStr.split_once "-" (entity_label e)) as [[p T]|]; cbn [fmap option_fmap option_map fst].
  2:{ rewrite content_close_and_clear, string_app_nil_r. reflexivity. }
  destruct (String.eqb p "B"); cbn [orb].
  { apply content_start_new. }
  destruct (String.eqb p "I").
  2:{ rewrite string_app_nil_r. reflexivity. }
  destruct (bool_decide (current_label_type st = Some T) && nonempty (current_sequence st)).
  - unfold content. cbn [sequences current_sequence].
    rewrite join_empty_snoc, string_app_assoc. reflexivity.
  - apply content_start_new.
Qed.

Lemma step_fragments nsl st e :
  fragments st + (if begins nsl e then 1 else 0) <= fragments (step nsl st e)
  /\ fragments (step nsl st e) <= fragments st + (if taken nsl e then 1 else 0).
Proof.
  unfold step, taken, begins, prefix_of.
  destruct (bool_decide (is_Some (nsl !! entity_label e))).
  { rewrite fragments_close_and_clear. lia. }
  destruct (PyStr.split_once "-" (entity_label e)) as [[p T]|]; cbn [fmap option_fmap option_map fst].
  2:{ rewrite fragments_close_and_clear. lia. }
  destruct (String.eqb p "B"); cbn [orb].
  { rewrite fragments_start_new. lia. }
  destruct (String.eqb p "I").
  2:{ lia. }
  destruct (bool_decide (current_label_type st = Some T) && nonempty (current_sequence st)) eqn:E.
  - apply andb_true_iff in E. destruct E as [_ E].
    unfold fragments. cbn [sequences current_sequence].
    rewrite nonempty_snoc, E. lia.
  - rewrite fragments_start_new. lia.
Qed.

Lemma run_content nsl ents : forall st,
  content (run nsl st ents)
  = (content st
     ++ PyStr.join_empty (map clean_text (List.filter (taken nsl) ents)))%string.
Proof.
  induction ents as [|e tl IH]; intros st.
  - simpl. rewrite string_app_nil_r. reflexivity.
  - unfold run in *. cbn [fold_left]. rewrite IH, step_content.
    cbn [List.filter]. destruct (taken nsl e).
    + cbn [map PyStr.join_empty fold_right]. rewrite string_app_assoc. reflexivity.
    + rewrite string_app_nil_r. reflexivity.
Qed.

Lemma run_fragments nsl ents : forall st,
  fragments st + List.length (List.filter (begins nsl) ents)
  <= fragments (run nsl st ents)
  /\ fragments (run nsl st ents)
     <= fragments st + List.length (List.filter (taken nsl) ents).
Proof.
  induction ents as [|e tl IH]; intros st.
  - simpl. lia.
  - unfold run in *. cbn [fold_left List.filter].
    destruct (IH (step nsl st e)) as [Hlo Hhi].
    destruct (step_fragments nsl st e) as [Slo Shi].
    destruct (begins nsl e), (taken nsl e); cbn [List.length]; lia.
Qed.

Lemma flush_content st : PyStr.join_empty (flush st) = content st.
Proof.
  unfold flush, content. destruct (current_sequence st).
  - simpl. rewrite string_app_nil_r. reflexivity.
  - rewrite join_empty_snoc. reflexivity.
Qed.

Lemma flush_fragments st : List.length (flush st) = fragments st.
Proof.
  unfold flush, fragments. destruct (current_sequence st); cbn [nonempty].
  - lia.
  - rewrite length_app. simpl. lia.
Qed.

(** X24. The merger neither loses nor invents text.  Put end to end, the
    returned fragments are exactly the cleaned texts (every ## removed) of
    the tokens whose label is not non-sensitive and has prefix B or I, in
    the order of the tokens; all other tokens contribute nothing. *)
Theorem merger_conserves_token_text ents nsl :
  PyStr.join_empty (extract_sensitive_sequences ents nsl)
  = PyStr.join_empty (map clean_text (List.filter (taken nsl) ents)).
Proof.
  unfold extract_sensitive_sequences.
  rewrite flush_content, run_content. reflexivity.
Qed.

(** X25. The number of fragments.  Every B token opens a fragment of its
    own, and only B and I tokens can open one: the number of returned
    fragments lies between the number of B tokens and the number of B and
    I tokens.  In particular a token list without B and I tokens gives no
    fragment. *)
Theorem merger_fragment_count_bounds ents nsl :
  List.length (List.filter (begins nsl) ents)
  <= List.length (extract_sensitive_sequences ents nsl)
  /\ List.length (extract_sensitive_sequences ents nsl)
     <= List.length (List.filter (taken nsl) ents)
  /\ (List.filter (taken nsl) ents = [] ->
      extract_sensitive_sequences ents nsl = []).
Proof.
  unfold extract_sensitive_sequences. rewrite flush_fragments.
  destruct (run_fragments nsl ents init) as [Hlo Hhi].
  change (fragments init) with 0 in *.
  split; [lia|]. split; [lia|].
  intros Hnone. rewrite Hnone in Hhi. simpl in Hhi.
  apply length_zero_iff_nil. rewrite flush_fragments. lia.
Qed.

Lemma split_once_dash_B T :
  PyStr.split_once "-" (String "B" (String "-" T)) = Some ("B"%string, T).
Proof. reflexivity. Qed.

Lemma split_once_dash_I T :
  PyStr.split_once "-" (String "I" (String "-" T)) = Some ("I"%string, T).
Proof. reflexivity. Qed.

Lemma run_continuations nsl T tl : forall st,
  nsl !! String "I" (String "-" T) = None ->
  Forall (fun e => entity_label e = String "I" (String "-" T)) tl ->
  current_label_type st = Some T ->
  current_sequence st <> [] ->
  run nsl st tl
  = {| sequences := sequences st;
       current_sequence := current_sequence st ++ map clean_text tl;
       current_label_type := Some T |}.
Proof.
  induction tl as [|e tl IH]; intros st Hn Hall Ht Hc.
  - simpl. rewrite app_nil_r. destruct st; simpl in *. subst. reflexivity.
  - inversion Hall as [|? ? He Htl]; subst.
    unfold run in *. cbn [fold_left].
    assert (Es : step nsl st e
                 = {| sequences := sequences st;
                      current_sequence := current_sequence st ++ [clean_text e];
                      current_label_type := Some T |}).
    { unfold step. rewrite He, split_once_dash_I.
      rewrite bool_decide_eq_false_2 by (rewrite Hn; intros [? ?]; discriminate).
      cbn [String.eqb Ascii.eqb Bool.eqb].
      rewrite Ht, bool_decide_eq_true_2 by reflexivity.
      destruct (current_sequence st); [contradiction|]. reflexivity. }
    rewrite Es, IH; cbn [sequences current_sequence current_label_type]; auto.
    + rewrite <- app_assoc. reflexivity.
    + intros E. apply app_eq_nil in E. destruct E; discriminate.
Qed.

(** X26. A B token and the I tokens of its type that follow it make one
    fragment.  For any type, any texts and any number of I tokens, the
    result is the single fragment that joins the cleaned texts in
    order. *)
Theorem merger_joins_continuations nsl T e0 tl :
  nsl !! String "B" (String "-" T) = None ->
  nsl !! String "I" (String "-" T) = None ->
  entity_label e0 = String "B" (String "-" T) ->
  Forall (fun e => entity_label e = String "I" (String "-" T)) tl ->
  extract_sensitive_sequences (e0 :: tl) nsl
  = [PyStr.join_empty (map clean_text (e0 :: tl))].
Proof.
  intros HB HI H0 Hall.
  unfold extract_sensitive_sequences, run. cbn [fold_left].
  assert (Es : step nsl init e0
               = {| sequences := []; current_sequence := [clean_text e0];
                    current_label_type := Some T |}).
  { unfold step. rewrite H0, split_once_dash_B.
    rewrite bool_decide_eq_false_2 by (rewrite HB; intros [? ?]; discriminate).
    reflexivity. }
  rewrite Es.
  change (fold_left (step nsl) tl ?s) with (run nsl s tl).
  rewrite (run_continuations nsl T tl
             {| sequences := []; current_sequence := [clean_text e0];
                current_label_type := Some T |} HI Hall eq_refl)
    by discriminate.
  reflexivity.
Qed.

Lemma merger_fragment_count_bounds_witness :
  List.filter (taken non_senstive_label2id) [tok "is" "O"; tok "x" "MISC"] = []
  /\ extract_sensitive_sequences [tok "is" "O"; tok "x" "MISC"]
       non_senstive_label2id = [].
Proof.
  assert (H : List.filter (taken non_senstive_label2id)
                [tok "is" "O"; tok "x" "MISC"] = [])
    by (vm_compute; reflexivity).
  split; [exact H|].
  exact (proj2 (proj2 (merger_fragment_count_bounds
                         [tok "is" "O"; tok "x" "MISC"]
                         non_senstive_label2id)) H).
Defined.

Lemma merger_joins_continuations_witness :
  extract_sensitive_sequences
    [tok "Anna" "B-NAME"; tok "##bel" "I-NAME"; tok "##le" "I-NAME"]
    non_senstive_label2id
  = [PyStr.join_empty
       (map clean_text
          [tok "Anna" "B-NAME"; tok "##bel" "I-NAME"; tok "##le" "I-NAME"])].
Proof.
  apply (merger_joins_continuations non_senstive_label2id "NAME").
  - vm_compute. reflexivity.
  - vm_compute. reflexivity.
  - reflexivity.
  - repeat constructor.
Defined.

End MergerMore.

(** ** The scanner: texts that cannot match *)

Module ScannerMore.
Import Regex Scanner ScannerSpec.
Local Open Scope list_scope.

Section WithClass.

Variable p : ascii -> bool.

Abbreviation clear st := (Forall (fun c => p c = false) (rest st)).

(** A matcher succeeds only through its continuation, and calls it only
    on the text that is left: if the continuation fails everywhere on
    text without the class, so does the matcher. *)
Lemma rep_loop_none body greedy k :
  (forall st k', clear st -> (forall st', clear st' -> k' st' = None) ->
                 body st k' = None) ->
  (forall st', clear st' -> k st' = None) ->
  forall budget lo st, clear st -> rep_loop body greedy budget lo st k = None.
Proof.
  intros Hbody Hk. induction budget as [|b IH]; intros lo st Hst.
  - simpl. destruct (lo =? 0)%nat; [apply Hk, Hst|reflexivity].
  - simpl. rewrite (Hbody st _ Hst) by (intros st' Hst'; apply IH, Hst').
    rewrite (Hk st Hst). destruct (0 <? lo)%nat, greedy; reflexivity.
Qed.

Lemma run_none r : forall st k,
  clear st -> (forall st', clear st' -> k st' = None) -> run r st k = None.
Proof.
  induction r as [q| |r1 IH1 r2 IH2|r1 IH1 r2 IH2|g lo hi r IH| |n r IH];
    intros st k Hst Hk; simpl.
  - destruct (rest st) as [|c tl] eqn:E; [reflexivity|].
    destruct (q c); [|reflexivity]. apply Hk. simpl.
    inversion Hst; assumption.
  - apply Hk, Hst.
  - apply IH1; [exact Hst|]. intros st' Hst'. apply IH2; assumption.
  - rewrite IH1, IH2 by assumption. reflexivity.
  - apply rep_loop_none; assumption.
  - destruct (at_boundary st); [apply Hk, Hst|reflexivity].
  - apply IH; [exact Hst|]. intros st' Hst'. apply Hk. exact Hst'.
Qed.

(** A pattern that needs the class has no match on text without it,
    whatever follows. *)
Lemma run_needs r : forall st k, needs p r -> clear st -> run r st k = None.
Proof.
  induction r as [q| |r1 IH1 r2 IH2|r1 IH1 r2 IH2|g lo hi r IH| |n r IH];
    intros st k Hn Hst; simpl in *.
  - destruct (rest st) as [|c tl] eqn:E; [reflexivity|].
    destruct (q c) eqn:Eq; [|reflexivity].
    inversion Hst as [|? ? Hc _]; subst.
    rewrite (Hn c Eq) in Hc. discriminate.
  - destruct Hn.
  - destruct Hn as [Hn|Hn].
    + apply IH1; assumption.
    + apply run_none; [exact Hst|]. intros st' Hst'. apply IH2; assumption.
  - destruct Hn as [Hn1 Hn2]. rewrite IH1, IH2 by assumption. reflexivity.
  - destruct Hn as [Hlo Hn].
    destruct (match hi with Some h => h | None => lo + List.length (rest st) end)
      as [|b]; simpl.
    + destruct lo; [lia|reflexivity].
    + rewrite IH by assumption. destruct lo; [lia|reflexivity].
  - destruct Hn.
  - apply IH; assumption.
Qed.

Lemma scan_needs r fuel : forall st,
  needs p r -> clear st -> scan fuel r st = [].
Proof.
  induction fuel as [|f IH]; intros st Hn Hst; [reflexivity|].
  simpl. unfold match_here. rewrite run_needs by assumption.
  unfold advance. destruct (rest st) as [|c tl] eqn:E; [reflexivity|].
  apply IH; [exact Hn|]. simpl. inversion Hst; assumption.
Qed.

Lemma matches_needs r text :
  needs p r -> free_of p text -> matches r (list_ascii_of_string text) = [].
Proof. intros Hn Hf. unfold matches. apply scan_needs; assumption. Qed.

Lemma findall_needs r text : needs p r -> free_of p text -> findall r text = [].
Proof. intros Hn Hf. unfold findall. rewrite matches_needs by assumption. reflexivity. Qed.

Lemma sub_needs r tpl text : needs p r -> free_of p text -> sub r tpl text = text.
Proof.
  intros Hn Hf. unfold sub. rewrite matches_needs by assumption.
  simpl. apply string_of_list_ascii_of_string.
Qed.

End WithClass.

Lemma needs_at_spaces_at : needs is_at pat_spaces_at.
Proof. simpl. right. left. intros c Hc. exact Hc. Qed.

Lemma needs_at_domain : needs is_at pat_domain.
Proof. simpl. left. intros c Hc. exact Hc. Qed.

Lemma needs_at_email : needs is_at pat_email.
Proof. simpl. right. right. left. intros c Hc. exact Hc. Qed.

Lemma needs_digit_phone : needs is_digit pat_phone.
Proof. simpl. right. right. right. left. split; [lia|]. intros c Hc. exact Hc. Qed.

Lemma needs_digit_card : needs is_digit pat_card.
Proof. simpl. right. left. split; [lia|]. left. intros c Hc. exact Hc. Qed.

Lemma needs_digit_cvv : needs is_digit pat_cvv.
Proof. simpl. right. left. split; [lia|]. intros c Hc. exact Hc. Qed.

Lemma needs_digit_ssn : needs is_digit pat_ssn.
Proof. simpl. right. left. split; [lia|]. intros c Hc. exact Hc. Qed.

Lemma needs_assign_password : needs (one_of ":=") pat_password.
Proof. simpl. right. right. right. left. intros c Hc. exact Hc. Qed.

Lemma normalize_free_of_at text : free_of is_at text -> normalize text = text.
Proof.
  intros Hf. unfold normalize.
  rewrite (sub_needs is_at pat_spaces_at _ text needs_at_spaces_at Hf).
  apply (sub_needs is_at pat_domain _ text needs_at_domain Hf).
Qed.

(** X27. Normalisation touches only text with an at sign.  Both
    substitutions of the pre-clean step need an at sign to match, so a
    text without one comes back unchanged. *)
Theorem normalize_without_at_is_identity text :
  free_of is_at text -> normalize text = text.
Proof. exact (normalize_free_of_at text). Qed.

(** X28. What the scanner never flags.  An ASCII text with no at sign,
    no digit and neither a colon nor an equals sign yields no sequence:
    each of the six patterns has a mandatory part that only such a
    character can match. *)
Theorem scanner_finds_nothing_without_triggers text :
  ascii_only text ->
  free_of is_at text ->
  free_of is_digit text ->
  free_of (one_of ":=") text ->
  extract_common_pii_sequences text = [].
Proof.
  intros _ Hat Hd Hc. unfold extract_common_pii_sequences.
  rewrite (normalize_free_of_at text Hat).
  unfold patterns. cbn [flat_map].
  rewrite (findall_needs is_at pat_email text needs_at_email Hat).
  rewrite (findall_needs is_digit pat_phone text needs_digit_phone Hd).
  rewrite (findall_needs is_digit pat_card text needs_digit_card Hd).
  rewrite (findall_needs is_digit pat_cvv text needs_digit_cvv Hd).
  rewrite (findall_needs is_digit pat_ssn text needs_digit_ssn Hd).
  rewrite (findall_needs (one_of ":=") pat_password text needs_assign_password Hc).
  reflexivity.
Qed.

Lemma normalize_without_at_is_identity_witness :
  free_of is_at "call 555 1234" /\ normalize "call 555 1234" = "call 555 1234"%string.
Proof.
  assert (H : free_of is_at "call 555 1234")
    by (unfold free_of; simpl; repeat constructor).
  split; [exact H|]. exact (normalize_without_at_is_identity _ H).
Defined.

Lemma scanner_finds_nothing_without_triggers_witness :
  ascii_only "hello world"
  /\ free_of is_at "hello world"
  /\ free_of is_digit "hello world"
  /\ free_of (one_of ":=") "hello world"
  /\ extract_common_pii_sequences "hello world" = [].
Proof.
  assert (H0 : ascii_only "hello world")
    by (unfold ascii_only, free_of; simpl; repeat constructor).
  assert (H1 : free_of is_at "hello world")
    by (unfold free_of; simpl; repeat constructor).
  assert (H2 : free_of is_digit "hello world")
    by (unfold free_of; simpl; repeat constructor).
  assert (H3 : free_of (one_of ":=") "hello world")
    by (unfold free_of; simpl; repeat constructor).
  split; [exact H0|]. split; [exact H1|]. split; [exact H2|]. split; [exact H3|].
  exact (scanner_finds_nothing_without_triggers _ H0 H1 H2 H3).
Defined.

End ScannerMore.

(** ** The history window: time range and preview choice *)

Module HistoryFacts.
Import Schemas History.
Local Open Scope list_scope.
Local Open Scope Z_scope.

Lemma fold_min_le l : forall x,
  fold_left Z.min l x <= x /\ forall y, In y l -> fold_left Z.min l x <= y.
Proof.
  induction l as [|a l IH]; intros x; simpl.
  - split; [lia|]. intros y [].
  - destruct (IH (Z.min x a)) as [H1 H2]. split; [lia|].
    intros y [<-|Hy]; [lia|]. apply H2, Hy.
Qed.

Lemma fold_max_ge l : forall x,
  x <= fold_left Z.max l x /\ forall y, In y l -> y <= fold_left Z.max l x.
Proof.
  induction l as [|a l IH]; intros x; simpl.
  - split; [lia|]. intros y [].
  - destruct (IH (Z.max x a)) as [H1 H2]. split; [lia|].
    intros y [<-|Hy]; [lia|]. apply H2, Hy.
Qed.

Lemma zmin_le xs m y : Redactor.zmin xs = Some m -> In y xs -> m <= y.
Proof.
  destruct xs as [|x tl]; [discriminate|]. intros [= <-] [<-|Hy].
  - exact (proj1 (fold_min_le tl x)).
  - exact (proj2 (fold_min_le tl x) y Hy).
Qed.

Lemma zmax_ge xs m y : Redactor.zmax xs = Some m -> In y xs -> y <= m.
Proof.
  destruct xs as [|x tl]; [discriminate|]. intros [= <-] [<-|Hy].
  - exact (proj1 (fold_max_ge tl x)).
  - exact (proj2 (fold_max_ge tl x) y Hy).
Qed.

Section WithClock.

Variable unix : Z -> Z.
Variable whole : Z -> Z.

Abbreviation starts_at := (starts_at unix).
Abbreviation ends_at := (ends_at unix whole).
Abbreviation _compute_global_time_range := (_compute_global_time_range unix whole).
Abbreviation nearest_step := (nearest_step unix).
Abbreviation _find_nearest_screenshot := (_find_nearest_screenshot unix).
Abbreviation contains_time := (contains_time unix whole).
Abbreviation _find_app_at_time := (_find_app_at_time unix whole).
Abbreviation on_preview_time_changed := (on_preview_time_changed unix whole).

Lemma starts_before_end a : starts_at a <= ends_at a.
Proof. destruct a; simpl; lia. Qed.

(** X29. The time range is never empty and holds every activity.  For
    any activity list, _compute_global_time_range gives min_t < max_t,
    and the start and the end computed for each activity lie between
    them; an application activity always takes at least one second. *)
Theorem time_range_covers_every_activity activities_list :
  let r := _compute_global_time_range activities_list in
  fst r < snd r
  /\ (forall a, In a activities_list ->
        fst r <= starts_at a /\ starts_at a <= ends_at a /\ ends_at a <= snd r)
  /\ (forall a, In (Application a) activities_list ->
        starts_at (Application a) < ends_at (Application a)).
Proof.
  cbv zeta. unfold History._compute_global_time_range.
  split; [|split].
  - destruct (Redactor.zmin _) as [min_t|]; [|simpl; lia].
    destruct (Redactor.zmax _) as [max_t|]; [|simpl; lia].
    destruct (Z.leb_spec max_t min_t); simpl; lia.
  - intros a Ha.
    assert (Hs : In (starts_at a) (map starts_at activities_list))
      by (apply in_map, Ha).
    assert (He : In (ends_at a) (map ends_at activities_list))
      by (apply in_map, Ha).
    pose proof (starts_before_end a) as Hse.
    destruct (Redactor.zmin _) as [min_t|] eqn:En.
    2:{ destruct (map starts_at activities_list); [destruct Hs|discriminate]. }
    destruct (Redactor.zmax _) as [max_t|] eqn:Ex.
    2:{ destruct (map ends_at activities_list); [destruct He|discriminate]. }
    pose proof (zmin_le _ _ _ En Hs). pose proof (zmax_ge _ _ _ Ex He).
    destruct (Z.leb_spec max_t min_t); simpl; lia.
  - intros a _. simpl. lia.
Qed.

Abbreviation distance s t := (Z.abs (unix (screenshot_timestamp s) - t)).

(** The loop of the nearest-screenshot search keeps the nearest of the
    screenshots seen so far, or nothing when none was seen. *)
Lemma nearest_fold t l : forall seen st,
  match st with
  | (None, None) => forall s, ~ In (Screenshot s) seen
  | (Some n, Some d) =>
      d = distance n t /\ In (Screenshot n) seen
      /\ forall s, In (Screenshot s) seen -> d <= distance s t
  | _ => False
  end ->
  match fst (fold_left (nearest_step t) l st) with
  | None => forall s, ~ In (Screenshot s) (seen ++ l)
  | Some n =>
      In (Screenshot n) (seen ++ l)
      /\ forall s, In (Screenshot s) (seen ++ l) -> distance n t <= distance s t
  end.
Proof.
  induction l as [|a l IH]; intros seen st Hst.
  - simpl. rewrite app_nil_r. destruct st as [[n|] [d|]]; simpl; try contradiction.
    + destruct Hst as (-> & Hin & Hmin). split; assumption.
    + exact Hst.
  - cbn [fold_left].
    replace (seen ++ a :: l) with ((seen ++ [a]) ++ l)
      by (rewrite <- app_assoc; reflexivity).
    apply IH.
    destruct a as [s|ap]; unfold History.nearest_step.
    + destruct st as [[n|] [d|]]; cbn [snd]; try contradiction.
      * destruct Hst as (-> & Hin & Hmin).
        destruct (Z.ltb_spec (distance s t) (distance n t)).
        -- split; [reflexivity|]. split; [apply in_or_app; right; left; reflexivity|].
           intros s' Hs'. apply in_app_or in Hs'.
           destruct Hs' as [Hs'|[[= <-]|[]]]; [|lia].
           specialize (Hmin s' Hs'). lia.
        -- split; [reflexivity|]. split; [apply in_or_app; left; exact Hin|].
           intros s' Hs'. apply in_app_or in Hs'.
           destruct Hs' as [Hs'|[[= <-]|[]]]; [apply Hmin, Hs'|lia].
      * split; [reflexivity|]. split; [apply in_or_app; right; left; reflexivity|].
        intros s' Hs'. apply in_app_or in Hs'.
        destruct Hs' as [Hs'|[[= <-]|[]]]; [destruct (Hst s' Hs')|lia].
    + destruct st as [[n|] [d|]]; try contradiction.
      * destruct Hst as (-> & Hin & Hmin).
        split; [reflexivity|]. split; [apply in_or_app; left; exact Hin|].
        intros s' Hs'. apply in_app_or in Hs'.
        destruct Hs' as [Hs'|[[=]|[]]]. apply Hmin, Hs'.
      * intros s' Hs'. apply in_app_or in Hs'.
        destruct Hs' as [Hs'|[[=]|[]]]. exact (Hst s' Hs').
Qed.

Lemma find_nearest_spec l t :
  match _find_nearest_screenshot l t with
  | None => forall s, ~ In (Screenshot s) l
  | Some n =>
      In (Screenshot n) l
      /\ forall s, In (Screenshot s) l -> distance n t <= distance s t
  end.
Proof.
  unfold History._find_nearest_screenshot.
  apply (nearest_fold t l [] (None, None)). intros s [].
Qed.

Lemma find_app_spec l t :
  match _find_app_at_time l t with
  | Some a => In (Application a) l /\ contains_time a t = true
  | None => forall a, In (Application a) l -> contains_time a t = false
  end.
Proof.
  induction l as [|[s|a] l IH]; simpl.
  - intros a [].
  - destruct (_find_app_at_time l t) as [a|].
    + destruct IH. split; [right|]; assumption.
    + intros a [[=]|Ha]. apply IH, Ha.
  - destruct (History.contains_time unix whole a t) eqn:E.
    + split; [left; reflexivity|exact E].
    + destruct (_find_app_at_time l t) as [a'|].
      * destruct IH. split; [right|]; assumption.
      * intros a' [[= <-]|Ha]; [exact E|]. apply IH, Ha.
Qed.

(** X30. What the preview shows.  on_preview_time_changed shows a
    screenshot exactly when some screenshot of the list is within ten
    seconds of the time, and then it is a nearest one; otherwise it shows
    an application activity of the list whose interval contains the time;
    it clears the preview only when there is neither. *)
Theorem preview_shows_nearest_within_ten_seconds l t :
  match on_preview_time_changed l t with
  | ShowScreenshot n =>
      In (Screenshot n) l /\ distance n t <= 10
      /\ forall s, In (Screenshot s) l -> distance n t <= distance s t
  | ShowApp a =>
      In (Application a) l /\ contains_time a t = true
      /\ forall s, In (Screenshot s) l -> 10 < distance s t
  | ClearPreview =>
      (forall s, In (Screenshot s) l -> 10 < distance s t)
      /\ forall a, In (Application a) l -> contains_time a t = false
  end.
Proof.
  unfold History.on_preview_time_changed, app_or_clear.
  pose proof (find_nearest_spec l t) as Hn.
  pose proof (find_app_spec l t) as Ha.
  assert (Hfar : match _find_nearest_screenshot l t with
                 | Some n => (distance n t <=? 10) = false
                 | None => True
                 end ->
                 forall s, In (Screenshot s) l -> 10 < distance s t).
  { intros Hf s Hs. destruct (_find_nearest_screenshot l t) as [n|].
    - destruct Hn as [_ Hmin]. specialize (Hmin s Hs).
      apply Z.leb_gt in Hf. lia.
    - destruct (Hn s Hs). }
  destruct (_find_nearest_screenshot l t) as [n|].
  - destruct (Z.leb_spec (distance n t) 10) as [Hle|Hgt].
    + destruct Hn as [Hin Hmin]. split; [exact Hin|]. split; [exact Hle|exact Hmin].
    + assert (Hf : forall s, In (Screenshot s) l -> 10 < distance s t)
        by (apply Hfar; reflexivity).
      destruct (_find_app_at_time l t) as [a|].
      * destruct Ha. split; [assumption|]. split; assumption.
      * split; assumption.
  - assert (Hf : forall s, In (Screenshot s) l -> 10 < distance s t)
      by (apply Hfar; exact I).
    destruct (_find_app_at_time l t) as [a|].
    + destruct Ha. split; [assumption|]. split; assumption.
    + split; assumption.
Qed.

End WithClock.

Lemma time_range_covers_every_activity_witness :
  In (Application Fixtures.editor) [Application Fixtures.editor]
  /\ fst (History._compute_global_time_range id id [Application Fixtures.editor])
     < snd (History._compute_global_time_range id id [Application Fixtures.editor])
  /\ History.starts_at id (Application Fixtures.editor)
     < History.ends_at id id (Application Fixtures.editor).
Proof.
  assert (H : In (Application Fixtures.editor) [Application Fixtures.editor])
    by (left; reflexivity).
  destruct (time_range_covers_every_activity id id [Application Fixtures.editor])
    as (Hr & _ & Happ).
  split; [exact H|]. split; [exact Hr|]. exact (Happ _ H).
Defined.

Lemma preview_shows_nearest_within_ten_seconds_witness :
  exists n,
    History.on_preview_time_changed id id
      [Screenshot (MoreFixtures.capture "a" 100); Application Fixtures.editor] 105
    = ShowScreenshot n
    /\ In (Screenshot n)
         [Screenshot (MoreFixtures.capture "a" 100); Application Fixtures.editor]
    /\ Z.abs (screenshot_timestamp n - 105) <= 10.
Proof.
  pose proof (preview_shows_nearest_within_ten_seconds id id
                [Screenshot (MoreFixtures.capture "a" 100);
                 Application Fixtures.editor] 105) as H.
  assert (E : History.on_preview_time_changed id id
                [Screenshot (MoreFixtures.capture "a" 100);
                 Application Fixtures.editor] 105
              = ShowScreenshot (MoreFixtures.capture "a" 100))
    by reflexivity.
  rewrite E in H. destruct H as (Hin & Hd & _).
  exists (MoreFixtures.capture "a" 100).
  split; [exact E|]. split; [exact Hin|exact Hd].
Defined.

End HistoryFacts.

